(** * gmail-cleaner: URL safety gate, header extraction, aggregation and
      unsubscribe execution

    A shallow embedding of

      - [app/services/gmail/helpers.py]      ([Helpers])
      - [app/services/gmail/unsubscribe.py]  ([Unsubscribe])
      - [gmail_api_unsubscribe.py]           ([GmailApi], the stand-alone script)

    Python values are modelled as follows.  A [str] is a [string] holding
    its UTF-8 encoding, so that ASCII text has one byte for each character;
    lengths and slices count characters, and what the code reads of the
    Unicode database outside ASCII (the class [\w], white space, the lower
    case of a text) is a [Unicode] of oracle functions.
    A raised exception is a value of [exn]; a computation that can
    raise and that talks to the outside world is a value of [M A]: the trace
    of the external calls it made, and either the value it returned or the
    exception it raised.  The standard library and the network (URL
    splitting, DNS, address classification, the HTTP client) are an [Env] of
    oracle functions, and the mail provider is a [Gmail] of oracle
    functions; every statement quantifies over them.  The order in which a
    [set] of strings is iterated is a parameter of the aggregation run.
    The one floating-point expression of the code, the progress of a
    batch, is modelled twice: exactly, and in binary64. *)

From Stdlib Require Import String Ascii List ZArith Lia Bool Arith.
From Stdlib Require Import DecimalString Permutation Sorted SpecFloat.
Import ListNotations.

Local Open Scope string_scope.
Local Open Scope list_scope.

(* ===================================================================== *)
(** * Python values, exceptions and effects                               *)
(* ===================================================================== *)

Module Py.

(** ** Strings *)

Definition is_upper (c : ascii) : bool :=
  let n := nat_of_ascii c in (65 <=? n)%nat && (n <=? 90)%nat.

Definition lower_char (c : ascii) : ascii :=
  if is_upper c then ascii_of_nat (nat_of_ascii c + 32) else c.

(** [s.lower()] on the ASCII letters, the other bytes kept.  Used as it is
    where the code compares the lower-cased text with an ASCII constant,
    or looks for an ASCII constant in it, and the constant has no [k] and
    does not end in [i]: outside ASCII only U+212A (to [k]) and U+0130 (to
    [i] followed by U+0307) have an ASCII letter in their lower case, so
    these tests come out as with [str.lower]. *)
Fixpoint lower (s : string) : string :=
  match s with
  | EmptyString => EmptyString
  | String c r => String (lower_char c) (lower r)
  end.

(** [s.startswith(p)] *)
Definition startswith (s p : string) : bool := String.prefix p s.

(** ** Text

    A [str] is held as its UTF-8 encoding (a lone surrogate as the three
    bytes the same scheme gives it).  A character is a byte that is not a
    continuation byte, together with the continuation bytes that follow
    it.  Literal text, [startswith], [in] and the classes [[^<]] and [[^>]]
    are decided on the bytes, which gives the same answer as on the
    characters; the length and the slices go by characters. *)

(** A byte of the form 10xxxxxx. *)
Definition is_continuation (c : ascii) : bool :=
  let n := nat_of_ascii c in (128 <=? n)%nat && (n <=? 191)%nat.

(** [len(s)] *)
Fixpoint len (s : string) : nat :=
  match s with
  | EmptyString => 0
  | String c r => if is_continuation c then len r else S (len r)
  end.

(** [s[:n]]: the first [n] characters, each with its continuation bytes. *)
Fixpoint take (n : nat) (s : string) : string :=
  match s with
  | EmptyString => EmptyString
  | String c r =>
      if is_continuation c then String c (take n r)
      else match n with
           | 0 => EmptyString
           | S n' => String c (take n' r)
           end
  end.
Arguments take : simpl never.

(** The text starts inside a character. *)
Definition continues (s : string) : bool :=
  match s with
  | String c _ => is_continuation c
  | EmptyString => false
  end.

(** [list(s)]: the characters of [s], in order. *)
Fixpoint chars (s : string) : list string :=
  match s with
  | EmptyString => []
  | String c r =>
      match chars r with
      | ch :: rest =>
          if continues r then String c ch :: rest
          else String c EmptyString :: ch :: rest
      | [] => [String c EmptyString]
      end
  end.

(** [s.isascii()] *)
Fixpoint isascii (s : string) : bool :=
  match s with
  | EmptyString => true
  | String c r => (nat_of_ascii c <? 128)%nat && isascii r
  end.

(** What the code reads of the Unicode database, through [re] and the
    methods of [str].  For an ASCII character Python fixes the answers and
    the model gives them itself; the database is asked about the others. *)
Record Unicode : Type := mkUnicode {
  (** [c.isalnum()] for a character [c] outside ASCII: what [\w] matches
      there. *)
  isalnum : string -> bool;
  (** [c.isspace()] for a character [c] outside ASCII: what [str.strip()]
      removes there. *)
  isspace : string -> bool;
  (** [s.lower()] for a text [s] that is not all ASCII. *)
  lower_beyond_ascii : string -> string
}.

(** [\w] on an ASCII character: a letter, a digit or [_]. *)
Definition ascii_word (c : ascii) : bool :=
  let n := nat_of_ascii c in
  ((48 <=? n) && (n <=? 57) || (65 <=? n) && (n <=? 90)
   || (97 <=? n) && (n <=? 122) || (n =? 95))%nat.

(** [c.isspace()] on an ASCII character. *)
Definition ascii_space (c : ascii) : bool :=
  let n := nat_of_ascii c in
  ((9 <=? n) && (n <=? 13) || (28 <=? n) && (n <=? 32))%nat.

(** The test [on_ascii] for a character that is one ASCII byte, and the
    database's answer [beyond] for any other. *)
Definition char_class (on_ascii : ascii -> bool) (beyond : string -> bool)
    (ch : string) : bool :=
  match ch with
  | String c EmptyString =>
      if (nat_of_ascii c <? 128)%nat then on_ascii c else beyond ch
  | _ => beyond ch
  end.

(** [re]'s [\w] on a character. *)
Definition is_word (U : Unicode) : string -> bool :=
  char_class ascii_word (isalnum U).

(** [c.isspace()] on a character. *)
Definition is_space (U : Unicode) : string -> bool :=
  char_class ascii_space (isspace U).

(** [s.lower()] *)
Definition str_lower (U : Unicode) (s : string) : string :=
  if isascii s then lower s else lower_beyond_ascii U s.

(** [str(n)] for an [int] *)
Definition str_of_Z (z : Z) : string := NilZero.string_of_int (Z.to_int z).
Arguments str_of_Z : simpl never.

(** [x in xs] for a list of [int] *)
Definition Z_in (x : Z) (xs : list Z) : bool := existsb (Z.eqb x) xs.
Arguments Z_in : simpl never.

(** [x in xs] for a tuple of [str] *)
Definition str_in (x : string) (xs : list string) : bool :=
  existsb (String.eqb x) xs.

(** ** Exceptions

    Only subclasses of [Exception] are modelled.  The classes are the ones
    the [except] clauses of the code tell apart; [OtherException] stands
    for every other subclass.  [UnicodeError] and
    [ipaddress.AddressValueError] are [ValueError]s. *)
Inductive exn : Type :=
| ValueError (msg : string)
| GaiError (msg : string)               (* socket.gaierror *)
| URLError (msg : string)               (* urllib.error.URLError *)
| HTTPError (code : Z) (msg : string)   (* urllib.error.HTTPError *)
| TimeoutError (msg : string)
| ApiHttpError (msg : string)           (* googleapiclient.errors.HttpError *)
| OtherException (msg : string).

(** [str(e)] *)
Definition str (e : exn) : string :=
  match e with
  | ValueError m | GaiError m | URLError m | TimeoutError m
  | ApiHttpError m | OtherException m => m
  | HTTPError c m => "HTTP Error " ++ str_of_Z c ++ ": " ++ m
  end.

Definition is_ValueError (e : exn) : bool :=
  match e with ValueError _ => true | _ => false end.

Definition is_gaierror (e : exn) : bool :=
  match e with GaiError _ => true | _ => false end.

Definition is_HTTPError (e : exn) : bool :=
  match e with HTTPError _ _ => true | _ => false end.

Definition is_ApiHttpError (e : exn) : bool :=
  match e with ApiHttpError _ => true | _ => false end.

(** [e.code] of an [HTTPError] *)
Definition code_of (e : exn) : Z :=
  match e with HTTPError c _ => c | _ => 0%Z end.

(** [isinstance(e, (URLError, HTTPError, TimeoutError))] *)
Definition is_transport_error (e : exn) : bool :=
  match e with
  | URLError _ | HTTPError _ _ | TimeoutError _ => true
  | _ => false
  end.

(** ** The outside world *)

(** [urllib.request.Request] *)
Record Request : Type := mkRequest {
  full_url : string;
  data : option string;
  req_headers : list (string * string);
  method : string
}.

(** What the code reads of an HTTP response: [response.status], and the
    text [response.read().decode('utf-8', errors='ignore')]. *)
Record Response : Type := mkResponse {
  status : Z;
  body : string
}.

Inductive log_level : Type := DEBUG | WARNING.

(** The value of the global [scan_status]. *)
Record ScanState : Type := mkScanState {
  progress : Z;
  message : string;
  done : bool;
  error : option string
}.

(** The calls the code makes to the outside, in the order it makes them.
    An [EvUrlopen] is one call of [urllib.request.urlopen]; what the
    library does within it (its own name resolution, the redirects it
    follows) is not recorded. *)
Inductive event : Type :=
| EvGetaddrinfo (hostname : string)
| EvUrlopen (req : Request) (timeout : Z) (verify_tls : bool)
| EvLog (level : log_level) (msg : string)
| EvScanStatus (st : ScanState).        (* an assignment to [scan_status] *)

Definition is_urlopen (ev : event) : bool :=
  match ev with EvUrlopen _ _ _ => true | _ => false end.

Definition is_getaddrinfo (ev : event) : bool :=
  match ev with EvGetaddrinfo _ => true | _ => false end.

(** The calls of [urlopen] in a trace. *)
Definition network_calls (t : list event) : list event := filter is_urlopen t.

(** The calls of [getaddrinfo] in a trace. *)
Definition dns_lookups (t : list event) : list event := filter is_getaddrinfo t.

(** ** Computations *)

Inductive outcome (A : Type) : Type :=
| Return (a : A)
| Raise (e : exn).
Arguments Return {A} a.
Arguments Raise {A} e.

Definition M (A : Type) : Type := (list event * outcome A)%type.

Definition ret {A} (a : A) : M A := ([], Return a).
Definition raise {A} (e : exn) : M A := ([], Raise e).
Definition emit (ev : event) : M unit := ([ev], Return tt).
Definition lift {A} (o : outcome A) : M A := ([], o).

Definition bind {A B} (m : M A) (k : A -> M B) : M B :=
  match m with
  | (t, Return a) => let (t', r) := k a in (t ++ t', r)
  | (t, Raise e) => (t, Raise e)
  end.

(** [try: m  except C1 as e: h1 e  except C2 as e: h2 e ...]: the first
    clause whose class test accepts the exception handles it; an exception
    no clause names propagates, and so does one raised by a handler. *)
Definition clause (A : Type) : Type := ((exn -> bool) * (exn -> M A))%type.

Fixpoint select_clause {A} (cs : list (clause A)) (e : exn)
  : option (exn -> M A) :=
  match cs with
  | [] => None
  | (handles, h) :: r => if handles e then Some h else select_clause r e
  end.

Definition try_except {A} (m : M A) (cs : list (clause A)) : M A :=
  match m with
  | (t, Raise e) =>
      match select_clause cs e with
      | Some h => let (t', r) := h e in (t ++ t', r)
      | None => (t, Raise e)
      end
  | _ => m
  end.

(** [except Exception] *)
Definition any_Exception (_ : exn) : bool := true.

Definition trace {A} (m : M A) : list event := fst m.
Definition result {A} (m : M A) : outcome A := snd m.

(** ** Result dictionaries

    A [dict] literal keeps its keys in the order written. *)
Inductive value : Type :=
| VBool (b : bool)
| VStr (s : string)
| VInt (z : Z).

Definition dict : Type := list (string * value).

Fixpoint get (d : dict) (k : string) : option value :=
  match d with
  | [] => None
  | (k', v) :: r => if String.eqb k k' then Some v else get r k
  end.

End Py.

Import Py.

Declare Scope py_scope.
Delimit Scope py_scope with py.
Notation "x <- m ;; k" := (bind m (fun x => k))
  (at level 100, m at next level, right associativity) : py_scope.
Notation "m ;;; k" := (bind m (fun _ => k))
  (at level 100, right associativity) : py_scope.
Local Open Scope py_scope.

(* ===================================================================== *)
(** * The environment                                                     *)
(* ===================================================================== *)

(** What the code reads of [urllib.parse.urlparse(url)]: [scheme] (lower
    case, [""] when the URL has none) and the [hostname] property ([None]
    when the URL has no host). *)
Record ParseResult : Type := mkParseResult {
  scheme : string;
  hostname : option string
}.

(** What the code reads of an [ipaddress] address object. *)
Record IPAddress : Type := mkIPAddress {
  is_private : bool;
  is_loopback : bool;
  is_link_local : bool;
  is_unspecified : bool
}.

Record Env : Type := mkEnv {
  (** [urlparse(url)]; [None] when it raises. *)
  urlparse : string -> option ParseResult;
  (** [socket.getaddrinfo(host, None, AF_UNSPEC, SOCK_STREAM)], each entry
      reduced to its [addr_info[4][0]]. *)
  getaddrinfo : string -> outcome (list string);
  (** [ipaddress.ip_address(s)]; [None] when it raises [ValueError]. *)
  ip_address : string -> option IPAddress;
  (** [urllib.request.Request(url, ...)]: the exception its constructor
      raises for [url], if any. *)
  Request_init : string -> option exn;
  (** [urllib.request.urlopen(req, ...)]: a response, or an exception.
      The library returns a response of an HTTP(S) request only when
      its final status is 2xx ([http_contract] below): it follows the
      redirects it can and raises [HTTPError] for every other status. *)
  urlopen : Request -> outcome Response
}.

(* ===================================================================== *)
(** * app/services/gmail/helpers.py                                       *)
(* ===================================================================== *)

Module Helpers.

Record Header : Type := mkHeader {
  name : string;
  value : string
}.

(** ** Regular expressions

    [re.findall(r, s)] is only ever tested for emptiness and indexed at
    [0], so it is modelled by its leftmost match, when there is one. *)

Fixpoint strip_prefix (p s : string) : option string :=
  match p, s with
  | EmptyString, _ => Some s
  | String a p', String b s' =>
      if Ascii.eqb a b then strip_prefix p' s' else None
  | String _ _, EmptyString => None
  end.

(** The characters of [s] before its first [>]; [None] without a [>]. *)
Fixpoint until_gt (s : string) : option string :=
  match s with
  | EmptyString => None
  | String c r =>
      if Ascii.eqb c ">" then Some EmptyString
      else option_map (String c) (until_gt r)
  end.

(** [P[^>]+>] at the start of [s] for the first [P] of [pres] that fits:
    the text of [P[^>]+]. *)
Fixpoint match_body (pres : list string) (s : string) : option string :=
  match pres with
  | [] => None
  | p :: ps =>
      match strip_prefix p s with
      | Some rest =>
          match until_gt rest with
          | Some (String c run) => Some (p ++ String c run)%string
          | _ => match_body ps s
          end
      | None => match_body ps s
      end
  end.

(** [<(P[^>]+)>] at the start of [s]: group 1. *)
Definition match_bracketed (pres : list string) (s : string) : option string :=
  match s with
  | String "<" r => match_body pres r
  | _ => None
  end.

(** The leftmost match of [<(P[^>]+)>] in [s]: group 1. *)
Fixpoint search_bracketed (pres : list string) (s : string) : option string :=
  match match_bracketed pres s with
  | Some g => Some g
  | None =>
      match s with
      | EmptyString => None
      | String _ r => search_bracketed pres r
      end
  end.

(** [re.findall(r"<(https?://[^>]+)>", value)], leftmost match. *)
Definition find_http_url : string -> option string :=
  search_bracketed ["https://"; "http://"].

(** [re.findall(r"<(mailto:[^>]+)>", value)], leftmost match. *)
Definition find_mailto : string -> option string :=
  search_bracketed ["mailto:"].

Section WithEnv.
Variable E : Env.

(** ** validate_unsafe_url *)

Definition restricted (ip : IPAddress) : bool :=
  is_private ip || is_loopback ip || is_link_local ip || is_unspecified ip.

(** The body of the [for addr_info in addr_infos] loop for one entry:
    the inner [try] turns the [ValueError] of [ip_address] and the one
    raised for a restricted address into the same error. *)
Definition check_address (ip_str : string) : M unit :=
  try_except
    (match ip_address E ip_str with
     | None =>
         raise (ValueError ("'" ++ ip_str
                  ++ "' does not appear to be an IPv4 or IPv6 address"))
     | Some ip =>
         if restricted ip
         then raise (ValueError ("Blocked restricted IP: " ++ ip_str))
         else ret tt
     end)
    [(is_ValueError,
      fun _ => raise (ValueError
                 ("Invalid or restricted IP address: " ++ ip_str)))].

Fixpoint check_addresses (addr_infos validated_ips : list string)
  : M (list string) :=
  match addr_infos with
  | [] => ret validated_ips
  | ip_str :: rest =>
      check_address ip_str ;;;
      check_addresses rest (validated_ips ++ [ip_str])
  end.

Definition resolve_and_check (hostname : string) : M unit :=
  try_except
    (emit (EvGetaddrinfo hostname) ;;;
     addr_infos <- lift (getaddrinfo E hostname) ;;
     validated_ips <- check_addresses addr_infos [] ;;
     match validated_ips with
     | [] =>
         raise (ValueError
           ("Could not resolve any valid IP addresses for hostname: "
            ++ hostname))
     | _ => ret tt
     end)
    [(is_gaierror,
      fun _ => raise (ValueError ("Could not resolve hostname: " ++ hostname)));
     (is_ValueError, fun err => raise err)].

Definition validate_unsafe_url (url : string) : M string :=
  match urlparse E url with
  | None => raise (ValueError "Invalid URL format")
  | Some parsed =>
      if negb (str_in (scheme parsed) ["http"; "https"])
      then raise (ValueError
             "Invalid URL scheme. Only HTTP and HTTPS are allowed.")
      else
        match hostname parsed with
        | None | Some EmptyString =>
            raise (ValueError "Invalid URL: No hostname found.")
        | Some hostname =>
            resolve_and_check hostname ;;;
            ret url
        end
  end.

End WithEnv.

(** ** get_unsubscribe_from_headers *)

Definition is_list_unsubscribe (h : Header) : bool :=
  lower (name h) =? "list-unsubscribe".

Definition is_list_unsubscribe_post (h : Header) : bool :=
  lower (name h) =? "list-unsubscribe-post".

(** The inner [for h in headers] loop: [Some] when it returns. *)
Fixpoint one_click_scan (value : string) (hs : list Header)
  : option (option string * option string) :=
  match hs with
  | [] => None
  | h :: rest =>
      if is_list_unsubscribe_post h then
        match find_http_url value with
        | Some url => Some (Some url, Some "one-click")
        | None => one_click_scan value rest
        end
      else one_click_scan value rest
  end.

(** The outer [for header in headers] loop over the headers still to
    visit; [headers] is the whole list. *)
Fixpoint unsubscribe_scan (headers hs : list Header)
  : option string * option string :=
  match hs with
  | [] => (None, None)
  | header :: rest =>
      if is_list_unsubscribe header then
        let value := value header in
        match one_click_scan value headers with
        | Some r => r
        | None =>
            match find_http_url value with
            | Some url => (Some url, Some "manual")
            | None =>
                match find_mailto value with
                | Some m => (Some m, Some "manual")
                | None => unsubscribe_scan headers rest
                end
            end
        end
      else unsubscribe_scan headers rest
  end.

Definition get_unsubscribe_from_headers (headers : list Header)
  : option string * option string :=
  unsubscribe_scan headers headers.

(** ** build_gmail_query

    [filters] is a [dict] from filter names to strings (a model object is
    first turned into one by [model_dump(exclude_none=True)]); [None] stands
    for the default argument.  A key bound to [None] reads like a key bound
    to the empty string: both are falsy. *)

(** [filters.get(key, "")] *)
Fixpoint filters_get (filters : list (string * string)) (key : string) : string :=
  match filters with
  | [] => ""
  | (k, v) :: rest => if key =? k then v else filters_get rest key
  end.

(** [sep.join(parts)] *)
Fixpoint join (sep : string) (parts : list string) : string :=
  match parts with
  | [] => ""
  | [p] => p
  | p :: rest => p ++ sep ++ join sep rest
  end.

(** [if v: query_parts.append(f"{prefix}{v}")], as the parts it adds. *)
Definition query_part (prefix v : string) : list string :=
  match v with
  | EmptyString => []
  | _ => [(prefix ++ v)%string]
  end.

(** The list [query_parts] when the function returns. *)
Definition query_parts (filters : list (string * string)) : list string :=
  let after_date := filters_get filters "after_date" in
  let before_date := filters_get filters "before_date" in
  query_part "after:" after_date
  ++ query_part "before:" before_date
  ++ match after_date, before_date with
     | EmptyString, EmptyString =>
         query_part "older_than:" (filters_get filters "older_than")
     | _, _ => []
     end
  ++ query_part "larger:" (filters_get filters "larger_than")
  ++ query_part "category:" (filters_get filters "category")
  ++ query_part "from:" (filters_get filters "sender")
  ++ query_part "label:" (filters_get filters "label").

Definition build_gmail_query (filters : option (list (string * string)))
  : string :=
  match filters with
  | None | Some [] => ""
  | Some filters => join " " (query_parts filters)
  end.

(** ** get_sender_info and get_subject *)

(** The double quote. *)
Definition dquote : ascii := ascii_of_nat 34.

(** [s.lstrip(chars)] *)
Fixpoint lstrip (p : ascii -> bool) (s : string) : string :=
  match s with
  | EmptyString => EmptyString
  | String c r => if p c then lstrip p r else s
  end.

(** [s.rstrip(chars)] *)
Fixpoint rstrip (p : ascii -> bool) (s : string) : string :=
  match s with
  | EmptyString => EmptyString
  | String c r =>
      match rstrip p r with
      | EmptyString => if p c then EmptyString else String c EmptyString
      | r' => String c r'
      end
  end.

(** [s.strip(chars)] for ASCII [chars] *)
Definition strip (p : ascii -> bool) (s : string) : string :=
  rstrip p (lstrip p s).

(** The list without the elements of the class it starts with. *)
Fixpoint drop_while {A} (p : A -> bool) (l : list A) : list A :=
  match l with
  | [] => []
  | x :: r => if p x then drop_while p r else l
  end.

(** [s.strip()]: white space removed at both ends, character by
    character. *)
Definition strip_space (U : Unicode) (s : string) : string :=
  String.concat ""
    (rev (drop_while (is_space U) (rev (drop_while (is_space U) (chars s))))).

(** The longest prefix of [s] without a [<], and what follows it. *)
Fixpoint until_lt (s : string) : string * string :=
  match s with
  | EmptyString => (EmptyString, EmptyString)
  | String c r =>
      if Ascii.eqb c "<" then (EmptyString, s)
      else let (a, b) := until_lt r in (String c a, b)
  end.

(** The pattern of [get_sender_info], any run without [<], then [<], a
    non-empty run without [>], then [>], at the start of [s]: the two
    groups. *)
Definition match_name_addr (s : string) : option (string * string) :=
  match until_lt s with
  | (g1, String _ r) =>
      match until_gt r with
      | Some (String c run) => Some (g1, String c run)
      | _ => None
      end
  | (_, EmptyString) => None
  end.

(** [re.search] with that pattern: the groups of the leftmost match. *)
Fixpoint search_name_addr (s : string) : option (string * string) :=
  match match_name_addr s with
  | Some m => Some m
  | None =>
      match s with
      | EmptyString => None
      | String _ r => search_name_addr r
      end
  end.

Fixpoint get_sender_info (U : Unicode) (headers : list Header)
  : string * string :=
  match headers with
  | [] => ("Unknown", "unknown")
  | header :: rest =>
      if lower (name header) =? "from" then
        let from_value := value header in
        match search_name_addr from_value with
        | Some (g1, g2) =>
            let name := strip (Ascii.eqb dquote) (strip_space U g1) in
            let email := strip_space U g2 in
            (match name with EmptyString => email | _ => name end, email)
        | None => (from_value, from_value)
        end
      else get_sender_info U rest
  end.

Fixpoint get_subject (headers : list Header) : string :=
  match headers with
  | [] => "(No Subject)"
  | header :: rest =>
      if lower (name header) =? "subject" then value header
      else get_subject rest
  end.

End Helpers.

(* ===================================================================== *)
(** * urllib.request, as the two executors use it                         *)
(* ===================================================================== *)

Module Urllib.
Section WithEnv.
Variable E : Env.

(** [urllib.request.Request(url, data=..., headers=..., method=...)] *)
Definition new_Request (url : string) (data : option string)
    (headers : list (string * string)) (method : string) : M Request :=
  match Request_init E url with
  | Some e => raise e
  | None => ret (mkRequest url data headers method)
  end.

(** [urllib.request.urlopen(req, timeout=..., context=...)]; reading the
    response is part of the call. *)
Definition open_url (req : Request) (timeout : Z) (verify_tls : bool)
  : M Response :=
  emit (EvUrlopen req timeout verify_tls) ;;;
  lift (urlopen E req).

End WithEnv.
End Urllib.

(* ===================================================================== *)
(** * app/services/gmail/unsubscribe.py                                   *)
(* ===================================================================== *)

Module Unsubscribe.
Import Helpers Urllib.

Definition user_agent : string :=
  "Mozilla/5.0 (compatible; GmailUnsubscribe/1.0)".

Section WithEnv.
Variable E : Env.

(** The [try] around the POST: [Some d] when the function returns [d]
    from inside it, [None] when control reaches the GET fallback. *)
Definition post_attempt (domain : string) (req : Request)
  : M (option dict) :=
  try_except
    (response <- open_url E req 10 true ;;
     if Z_in (status response) [200; 201; 202; 204]%Z
     then ret (Some [("success", VBool true);
                     ("message", VStr "Unsubscribed successfully");
                     ("domain", VStr domain)])
     else ret None)
    [(is_transport_error,
      fun e =>
        emit (EvLog DEBUG ("POST unsubscribe failed for " ++ domain
                           ++ ", falling back to GET: " ++ str e)) ;;;
        ret None);
     (any_Exception,
      fun e =>
        emit (EvLog WARNING ("Unexpected error during POST unsubscribe for "
                             ++ domain ++ ": " ++ str e)) ;;;
        ret None)].

(** The [try] around the GET. *)
Definition get_attempt (domain : string) (req : Request) : M dict :=
  try_except
    (response <- open_url E req 10 true ;;
     if Z_in (status response) [200; 201; 202; 204; 301; 302]%Z
     then ret [("success", VBool true);
               ("message", VStr "Unsubscribed (confirmation may be needed)");
               ("domain", VStr domain)]
     else ret [("success", VBool false);
               ("message", VStr ("Server returned status "
                                 ++ str_of_Z (status response)))])
    [(is_transport_error,
      fun e => ret [("success", VBool false);
                    ("message", VStr ("Failed to unsubscribe: " ++ str e))])].

(** Lines 69-88: the GET fallback, request construction included. *)
Definition get_fallback (domain link : string) : M dict :=
  req <- new_Request E link None [("User-Agent", user_agent)] "GET" ;;
  get_attempt domain req.

(** The validation step: [inl link] when the validator accepts, [inr d]
    when the function returns [d] from the [except ValueError] clause. *)
Definition validation_step (link : string) : M (string + dict) :=
  try_except
    (link' <- validate_unsafe_url E link ;; ret (inl link'))
    [(is_ValueError,
      fun e => ret (inr [("success", VBool false);
                         ("message", VStr ("Security Error: " ++ str e))]))].

(** [link] is [None] for a missing link ([None] in Python). *)
Definition unsubscribe_single (domain : string) (link : option string)
  : M dict :=
  match link with
  | None | Some EmptyString =>
      ret [("success", VBool false);
           ("message", VStr "No unsubscribe link provided")]
  | Some link =>
      if startswith link "mailto:" then
        ret [("success", VBool false);
             ("message", VStr "Email-based unsubscribe - open in email client");
             ("type", VStr "mailto")]
      else
        try_except
          (v <- validation_step link ;;
           match v with
           | inr d => ret d
           | inl link =>
               req <- new_Request E link (Some "List-Unsubscribe=One-Click")
                        [("User-Agent", user_agent);
                         ("Content-Type", "application/x-www-form-urlencoded")]
                        "POST" ;;
               posted <- post_attempt domain req ;;
               match posted with
               | Some d => ret d
               | None => get_fallback domain link
               end
           end)
          [(any_Exception,
            fun e => ret [("success", VBool false);
                          ("message", VStr (take 100 (str e)))])]
  end.

End WithEnv.
End Unsubscribe.

(* ===================================================================== *)
(** * gmail_api_unsubscribe.py                                            *)
(* ===================================================================== *)

Module GmailApi.
Import Helpers Urllib.

(** ** Header parsing *)

Fixpoint get_unsubscribe_from_headers (headers : list Header) : option string :=
  match headers with
  | [] => None
  | header :: rest =>
      if lower (name header) =? "list-unsubscribe" then
        match find_http_url (value header) with
        | Some url => Some url
        | None =>
            match find_mailto (value header) with
            | Some m => Some m
            | None => get_unsubscribe_from_headers rest
            end
        end
      else get_unsubscribe_from_headers rest
  end.

(** [[\w.-]] on a character *)
Definition is_email_char (U : Unicode) (ch : string) : bool :=
  is_word U ch || (ch =? ".") || (ch =? "-").

(** The longest prefix of [l] made of elements of the class, and what
    follows it. *)
Fixpoint span {A} (p : A -> bool) (l : list A) : list A * list A :=
  match l with
  | [] => ([], [])
  | x :: r =>
      if p x then let (a, b) := span p r in (x :: a, b)
      else ([], l)
  end.

(** [[\w.-]+@[\w.-]+] at the start of the characters [l]: the two sides
    of the [@].  The class does not hold [@], so each side is the longest
    run of the class. *)
Definition match_email (U : Unicode) (l : list string)
  : option (string * string) :=
  match span (is_email_char U) l with
  | (c :: loc, at_sign :: r) =>
      if at_sign =? "@" then
        match span (is_email_char U) r with
        | (d :: m, _) =>
            Some (String.concat "" (c :: loc), String.concat "" (d :: m))
        | _ => None
        end
      else None
  | _ => None
  end.

(** [re.search(r'[\w.-]+@[\w.-]+', s)] on the characters of [s]: the
    leftmost match. *)
Fixpoint search_email (U : Unicode) (l : list string)
  : option (string * string) :=
  match match_email U l with
  | Some m => Some m
  | None =>
      match l with
      | [] => None
      | _ :: r => search_email U r
      end
  end.

(** Returns [(from_value, domain)]; [email.split('@')[1]] is the right
    side of the match, which contains one [@]. *)
Fixpoint get_sender_info (U : Unicode) (headers : list Header)
  : string * string :=
  match headers with
  | [] => ("", "unknown")
  | header :: rest =>
      if lower (name header) =? "from" then
        let from_value := value header in
        match search_email U (chars from_value) with
        | Some (_, host) => (from_value, str_lower U host)
        | None => get_sender_info U rest
        end
      else get_sender_info U rest
  end.

Fixpoint get_subject (headers : list Header) : string :=
  match headers with
  | [] => ""
  | header :: rest =>
      if lower (name header) =? "subject" then take 60 (value header)
      else get_subject rest
  end.

(** ** The aggregation state *)

(** A value of [senders_data].  [links] is a Python [set]: the distinct
    links in the order they were first added. *)
Record Bucket : Type := mkBucket {
  count : nat;
  links : list string;
  subjects : list string;
  from : string
}.

Definition default_bucket : Bucket := mkBucket 0 [] [] "".

(** [senders_data]: a [defaultdict], keys in insertion order. *)
Definition senders : Type := list (string * Bucket).

(** [s.add(x)] *)
Definition set_add (x : string) (s : list string) : list string :=
  if existsb (String.eqb x) s then s else s ++ [x].

(** [senders_data[k] = f(senders_data[k])], creating the default entry
    when [k] is new. *)
Fixpoint update (d : senders) (k : string) (f : Bucket -> Bucket) : senders :=
  match d with
  | [] => [(k, f default_bucket)]
  | (k', b) :: r =>
      if k =? k' then (k', f b) :: r else (k', b) :: update r k f
  end.

(** An entry of [scan_results]. *)
Record Opportunity : Type := mkOpportunity {
  o_domain : string;
  o_count : nat;
  o_from : string;
  o_link : string;
  o_subjects : list string
}.

(** The arguments [batch.execute()] passes to the callback for one
    message: an exception, or a response reduced to
    [response.get('payload', {}).get('headers', [])]. *)
Inductive Fetch : Type :=
| FetchError (e : exn)
| FetchOk (headers : list Header).

(** The Gmail client. *)
Record Gmail : Type := mkGmail {
  (** [get_gmail_service()]: [Return None] for [(service, None)],
      [Return (Some error)] for [(None, error)]. *)
  get_gmail_service : outcome (option string);
  (** [messages().list(maxResults=limit, ...).execute().get('messages', [])],
      each message reduced to its id. *)
  messages_list : Z -> outcome (list string);
  (** The exception [batch.execute()] raises for the batch starting at
      this index with these ids, if any; no callback has run then. *)
  batch_execute : nat -> list string -> option exn;
  (** What the callback receives for a message id. *)
  messages_get : string -> Fetch
}.

Definition batch_size : nat := 100.

(** [range(0, total, batch_size)] *)
Definition batch_starts (total : nat) : list nat :=
  map (fun k => k * batch_size) (seq 0 ((total + batch_size - 1) / batch_size)).

(** [15 + int((batch_end / total) * 80)], the quotient and the product
    taken exactly.  The run below publishes this value. *)
Definition batch_progress (batch_end total : nat) : Z :=
  15 + (Z.of_nat batch_end * 80) / Z.of_nat total.

(** The same expression as Python evaluates it, in binary64: [n / m] of two
    small integers is the correctly rounded quotient of their conversions,
    and [int] truncates toward zero.  [batch_progress_binary64_agrees]
    below shows that the two coincide at every batch end of every mailbox
    of up to 1000 messages (one page of the provider's listing holds at
    most 500). *)
Definition float_of_nat (n : nat) : spec_float :=
  binary_normalize 53 1024 (Z.of_nat n) 0 false.

Definition int_of_float (x : spec_float) : Z :=
  match x with
  | S754_finite s m e =>
      let v := (if 0 <=? e then Zpos m * 2 ^ e else Zpos m / 2 ^ (- e))%Z in
      if s then (- v)%Z else v
  | _ => 0%Z
  end.

Definition batch_progress_binary64 (batch_end total : nat) : Z :=
  15 + int_of_float
         (SFmul 53 1024
            (SFdiv 53 1024 (float_of_nat batch_end) (float_of_nat total))
            (float_of_nat 80)).

Definition status (p : Z) (msg : string) (d : bool) (err : option string)
  : M unit :=
  emit (EvScanStatus (mkScanState p msg d err)).

Definition str_of_nat (n : nat) : string := str_of_Z (Z.of_nat n).

(** [sorted(items, key=count, reverse=True)]: stable, descending. *)
Fixpoint insert_sender (x : string * Bucket) (l : senders) : senders :=
  match l with
  | [] => [x]
  | y :: r =>
      if (count (snd x) <? count (snd y))%nat then y :: insert_sender x r
      else x :: l
  end.

Definition sorted_senders (d : senders) : senders :=
  fold_right insert_sender [] d.

Section WithRuntime.
Variable U : Unicode.
(** The order in which iterating a [set] of strings yields its elements;
    it depends on the hash seed of the process. *)
Variable set_iter : list string -> list string.
Variable G : Gmail.

(** The callback; the state is [(processed[0], senders_data)]. *)
Definition process_message (st : nat * senders) (f : Fetch) : nat * senders :=
  let processed := S (fst st) in
  match f with
  | FetchError _ => (processed, snd st)
  | FetchOk headers =>
      match get_unsubscribe_from_headers headers with
      | Some unsub_link =>
          if startswith unsub_link "http" then
            let (from_value, domain) := get_sender_info U headers in
            let subject := get_subject headers in
            (processed,
             update (snd st) domain (fun b =>
               mkBucket (S (count b))
                        (set_add unsub_link (links b))
                        (if (List.length (subjects b) <? 3)%nat
                         then subjects b ++ [subject] else subjects b)
                        from_value))
          else (processed, snd st)
      | None => (processed, snd st)
      end
  end.

(** One iteration of [for batch_start in range(0, total, batch_size)]. *)
Definition run_batch (messages : list string) (total : nat)
    (st : nat * senders) (batch_start : nat) : M (nat * senders) :=
  let batch_end := Nat.min (batch_start + batch_size) total in
  let batch := firstn (batch_end - batch_start) (skipn batch_start messages) in
  match batch_execute G batch_start batch with
  | Some e => raise e
  | None =>
      let st' := fold_left process_message (map (messages_get G) batch) st in
      status (batch_progress batch_end total)
             ("Batch fetched " ++ str_of_nat batch_end ++ "/"
              ++ str_of_nat total ++ " emails") false None ;;;
      ret st'
  end.

Fixpoint run_batches (messages : list string) (total : nat)
    (starts : list nat) (st : nat * senders) : M (nat * senders) :=
  match starts with
  | [] => ret st
  | batch_start :: rest =>
      st' <- run_batch messages total st batch_start ;;
      run_batches messages total rest st'
  end.

(** The final loop over [sorted_senders]. *)
Fixpoint collect (sorted : senders) : list Opportunity :=
  match sorted with
  | [] => []
  | (domain, data) :: rest =>
      match filter (fun l => startswith l "http") (set_iter (links data)) with
      | l :: _ =>
          mkOpportunity domain (count data) (from data) l (subjects data)
          :: collect rest
      | [] => collect rest
      end
  end.

(** The value returned is the global [scan_results] when the function
    ends; the assignments to [scan_status] are in the trace. *)
Definition scan_emails_api (limit : Z) : M (list Opportunity) :=
  status 5 "Connecting to Gmail API..." false None ;;;
  try_except
    (service <- lift (get_gmail_service G) ;;
     match service with
     | Some error => status 0 error true (Some error) ;;; ret []
     | None =>
         status 10 "Fetching email list..." false None ;;;
         messages <- lift (messages_list G limit) ;;
         match messages with
         | [] => status 100 "No emails found" true None ;;; ret []
         | _ =>
             status 15 ("Found " ++ str_of_nat (List.length messages)
                        ++ " emails, batch fetching...") false None ;;;
             let total := List.length messages in
             st <- run_batches messages total (batch_starts total) (0, []) ;;
             let scan_results := collect (sorted_senders (snd st)) in
             status 100 ("Done! Found " ++ str_of_nat (List.length scan_results)
                         ++ " senders") true None ;;;
             ret scan_results
         end
     end)
    [(is_ApiHttpError,
      fun e => status 0 ("Gmail API error: " ++ str e) true (Some (str e)) ;;;
               ret []);
     (any_Exception,
      fun e => status 0 ("Error: " ++ str e) true (Some (str e)) ;;;
               ret [])].

End WithRuntime.

(** ** unsubscribe_single *)

Definition browser_user_agent : string :=
  "Mozilla/5.0 (Windows NT 10.0; Win64; x64) AppleWebKit/537.36 (KHTML, like Gecko) Chrome/120.0.0.0 Safari/537.36".

(** [w in content] *)
Fixpoint contains (w content : string) : bool :=
  String.prefix w content ||
  match content with
  | EmptyString => false
  | String _ r => contains w r
  end.

Definition success_words : list string :=
  ["unsubscribed"; "removed"; "success"; "confirmed"; "you have been"; "opt out"].

Section WithEnv.
Variable E : Env.

Definition unsubscribe_single (domain link : string) : M dict :=
  try_except
    (req <- new_Request E link None
              [("User-Agent", browser_user_agent);
               ("Accept", "text/html,application/xhtml+xml,application/xml;q=0.9,*/*;q=0.8")]
              "GET" ;;
     response <- open_url E req 10 false ;;
     let content := lower (body response) in
     if existsb (fun word => contains word content) success_words
     then ret [("success", VBool true); ("status", VStr "Unsubscribed!")]
     else ret [("success", VBool true); ("status", VStr "Link visited")])
    [(is_HTTPError,
      fun e =>
        if Z_in (code_of e) [301; 302; 303; 307; 308]%Z
        then ret [("success", VBool true); ("status", VStr "Redirected")]
        else ret [("success", VBool false);
                  ("status", VStr ("HTTP " ++ str_of_Z (code_of e)))]);
     (any_Exception,
      fun e => ret [("success", VBool false);
                    ("status", VStr (take 30 (str e)))])].

End WithEnv.
End GmailApi.

(* ===================================================================== *)
(** * A laboratory environment                                            *)
(* ===================================================================== *)

(** A small fixed world used to run the model on concrete inputs: a
    handful of URLs with the split [urlparse] gives them, a DNS zone, the
    classification of the addresses in it, and a web server. *)
Module Lab.
Import Helpers GmailApi.

Definition lookup {A} (k : string) (tbl : list (string * A)) : option A :=
  option_map snd (find (fun kv => String.eqb k (fst kv)) tbl).

Definition urls : list (string * ParseResult) :=
  [("https://news.example/unsub?id=7", mkParseResult "https" (Some "news.example"));
   ("https://shop.example/leave", mkParseResult "https" (Some "shop.example"));
   ("http://intranet.example/admin", mkParseResult "http" (Some "intranet.example"));
   ("https://rebind.example/u", mkParseResult "https" (Some "rebind.example"));
   ("http://127.0.0.1/admin", mkParseResult "http" (Some "127.0.0.1"));
   ("http://nowhere.example/", mkParseResult "http" (Some "nowhere.example"));
   ("ftp://intranet.example/x", mkParseResult "ftp" (Some "intranet.example"));
   ("file:///etc/passwd", mkParseResult "file" None);
   ("javascript:alert(1)", mkParseResult "javascript" None);
   ("https:///path", mkParseResult "https" None)].

Definition zone : list (string * list string) :=
  [("news.example", ["93.184.216.34"; "2606:2800:220:1::1"]);
   ("shop.example", ["93.184.216.40"]);
   ("intranet.example", ["10.0.0.5"]);
   ("rebind.example", ["93.184.216.34"; "127.0.0.1"]);
   ("127.0.0.1", ["127.0.0.1"])].

Definition public : IPAddress := mkIPAddress false false false false.

Definition addresses : list (string * IPAddress) :=
  [("93.184.216.34", public);
   ("93.184.216.40", public);
   ("2606:2800:220:1::1", public);
   ("10.0.0.5", mkIPAddress true false false false);
   ("127.0.0.1", mkIPAddress true true false false);
   ("169.254.1.1", mkIPAddress true false true false);
   ("0.0.0.0", mkIPAddress true false false true)].

Definition reason_phrase (status : Z) : string :=
  if (status =? 301)%Z then "Moved Permanently"
  else if (status =? 302)%Z then "Found"
  else if (status =? 404)%Z then "Not Found"
  else if (status =? 405)%Z then "Method Not Allowed"
  else "Error".

(** What [urlopen] makes of a server's answer that has no [Location] to
    follow: the response when the status is 2xx, an [HTTPError] of that
    status otherwise. *)
Definition answer (status : Z) (body : string) : outcome Response :=
  if ((200 <=? status) && (status <? 300))%Z
  then Return (mkResponse status body)
  else Raise (HTTPError status (reason_phrase status)).

(** The server answers the POST to [news.example] with 405 and its GET
    with [get_status]; [shop.example] accepts the POST; every other
    connection is refused, except to the loopback address. *)
Definition serve (get_status : Z) (req : Request) : outcome Response :=
  if full_url req =? "https://news.example/unsub?id=7" then
    if method req =? "POST"
    then answer 405 ""
    else answer get_status ""
  else if full_url req =? "https://shop.example/leave" then
    Return (mkResponse 200 "You have been unsubscribed.")
  else if full_url req =? "http://127.0.0.1/admin" then
    Return (mkResponse 200 "admin console")
  else Raise (URLError "<urlopen error [Errno 111] Connection refused>").

Definition world (get_status : Z) : Env :=
  mkEnv (fun u => lookup u urls)
        (fun h => match lookup h zone with
                  | Some l => Return l
                  | None => Raise (GaiError "[Errno -2] Name or service not known")
                  end)
        (fun s => lookup s addresses)
        (fun u => if String.prefix "http" u then None
                  else Some (ValueError ("unknown url type: '" ++ u ++ "'")))
        (serve get_status).

(** Messages of a mailbox, by id. *)
Definition promo (link : string) : list Header :=
  [mkHeader "From" "Shop Deals <deals@Shop.Example>";
   mkHeader "Subject" "Weekly deals";
   mkHeader "List-Unsubscribe" link].

Definition mailbox : list (string * list Header) :=
  [("m1", promo "<https://shop.example/u/1>");
   ("m2", promo "<mailto:leave@shop.example>");
   ("m3", promo "<https://shop.example/u/2>")].

(** A Gmail client over [mailbox]; [fail_at] makes the batch starting at
    that index fail. *)
Definition gmail (ids : list string) (fail_at : option nat) : Gmail :=
  mkGmail (Return None)
          (fun _ => Return ids)
          (fun start _ =>
             match fail_at with
             | Some k => if (start =? k)%nat
                         then Some (ApiHttpError "<HttpError 500>") else None
             | None => None
             end)
          (fun id => match lookup id mailbox with
                     | Some hs => FetchOk hs
                     | None => FetchError (ApiHttpError "<HttpError 404>")
                     end).

(** The fixtures are ASCII text, for which the Unicode database is not
    consulted: the model decides the ASCII characters itself, and a sender
    whose [From] value is ASCII text is the same with every database.
    This one stands in for it. *)
Definition unicode : Unicode :=
  mkUnicode (fun _ => false) (fun _ => false) (fun s => s).

(** Two iteration orders for a set. *)
Definition insertion_order (s : list string) : list string := s.
Definition reverse_order (s : list string) : list string := rev s.

(** The laboratory world with a resolver that knows every host and has
    no address for any. *)
Definition silent_dns : Env :=
  mkEnv (urlparse (world 200)) (fun _ => Return []) (ip_address (world 200))
        (Request_init (world 200)) (urlopen (world 200)).

(** The laboratory world with a server that never answers in time. *)
Definition offline : Env :=
  mkEnv (urlparse (world 200)) (getaddrinfo (world 200))
        (ip_address (world 200)) (Request_init (world 200))
        (fun _ => Raise (TimeoutError "timed out")).

(** The laboratory world with a server that answers every request with
    the given HTTP error. *)
Definition erring (code : Z) (reason : string) : Env :=
  mkEnv (urlparse (world 200)) (getaddrinfo (world 200))
        (ip_address (world 200)) (Request_init (world 200))
        (fun _ => Raise (HTTPError code reason)).

End Lab.

(* ===================================================================== *)
(** * Statements shared by the results below                              *)
(* ===================================================================== *)

Module Props.
Import Helpers.

(** An entry of the resolver's answer passes the validator: it parses as
    an address and none of the four flags is set. *)
Definition address_ok (E : Env) (ip_str : string) : bool :=
  match ip_address E ip_str with
  | Some ip => negb (restricted ip)
  | None => false
  end.

(** An entry is a private-use, loopback, link-local or unspecified
    address. *)
Definition restricted_address (E : Env) (ip_str : string) : Prop :=
  exists ip, ip_address E ip_str = Some ip /\
    (is_private ip = true \/ is_loopback ip = true \/
     is_link_local ip = true \/ is_unspecified ip = true).

(** The URL reaches the resolution step and the resolver answers
    [addrs]. *)
Definition resolves_to (E : Env) (url host : string) (addrs : list string)
  : Prop :=
  exists parsed,
    urlparse E url = Some parsed /\
    (scheme parsed = "http" \/ scheme parsed = "https") /\
    hostname parsed = Some host /\ host <> "" /\
    getaddrinfo E host = Return addrs.

(** [urlopen] returns a response only when its status is 2xx: the
    [HTTPErrorProcessor] of the default opener hands every other status to
    the error handlers, which follow a redirect or raise [HTTPError]. *)
Definition http_contract (E : Env) : Prop :=
  forall req resp, urlopen E req = Return resp ->
                   (200 <= status resp < 300)%Z.

(** A result dictionary carries a boolean [success] and a text
    [message]. *)
Definition structured (d : dict) : Prop :=
  exists b m, get d "success" = Some (VBool b) /\ get d "message" = Some (VStr m).

(** The name of the mode in a result of [get_unsubscribe_from_headers];
    the absent mode reads "none". *)
Definition mode_name (r : option string * option string) : string :=
  match snd r with
  | Some m => m
  | None => "none"
  end.

(** The affordance mode as the specification words it: one-click when a
    [list-unsubscribe-post] header is present anywhere; else manual when
    the value of the first [list-unsubscribe] header has an HTTP(S) URL in
    angle brackets; else mailto when it has a [mailto:] URI in angle
    brackets; else none. *)
Definition worded_mode (headers : list Header) : string :=
  match find is_list_unsubscribe headers with
  | None => "none"
  | Some h =>
      if existsb is_list_unsubscribe_post headers then "one-click"
      else match find_http_url (value h) with
           | Some _ => "manual"
           | None =>
               match find_mailto (value h) with
               | Some _ => "mailto"
               | None => "none"
               end
           end
  end.

(** A [list-unsubscribe] header whose value has an HTTP(S) URL or a
    [mailto:] URI in angle brackets. *)
Definition qualifies (h : Header) : bool :=
  is_list_unsubscribe h &&
  match find_http_url (value h), find_mailto (value h) with
  | None, None => false
  | _, _ => true
  end.

(** The assignments to [scan_status] recorded in a trace, in order. *)
Definition published (t : list event) : list ScanState :=
  flat_map (fun ev => match ev with
                      | EvScanStatus st => [st]
                      | _ => []
                      end) t.

(** The progress values of a run over [total] messages none of whose
    batches fails, the closing 100 left out: 5, 10, 15, and after each
    batch 15 + floor(80 * batch_end / total). *)
Definition expected_progress (total : nat) : list Z :=
  [5; 10; 15]%Z ++
  map (fun batch_start =>
         (15 + (80 * Z.of_nat (Nat.min (batch_start + 100) total))
               / Z.of_nat total)%Z)
      (GmailApi.batch_starts total).

(** The messages the provider lists for a run ([[]] when listing fails). *)
Definition listed (G : GmailApi.Gmail) (limit : Z) : list string :=
  match GmailApi.messages_list G limit with
  | Return ids => ids
  | Raise _ => []
  end.

(** The extractor finds an HTTP(S) link in the headers. *)
Definition has_http_link (headers : list Header) : bool :=
  match GmailApi.get_unsubscribe_from_headers headers with
  | Some l => startswith l "http"
  | None => false
  end.

(** The callback counts the message: it was fetched and has an HTTP(S)
    link. *)
Definition counted (f : GmailApi.Fetch) : bool :=
  match f with
  | GmailApi.FetchOk headers => has_http_link headers
  | GmailApi.FetchError _ => false
  end.

(** For a counted message, its sender domain and its link. *)
Definition hit (U : Unicode) (f : GmailApi.Fetch) : option (string * string) :=
  match f with
  | GmailApi.FetchOk headers =>
      match GmailApi.get_unsubscribe_from_headers headers with
      | Some l =>
          if startswith l "http"
          then Some (snd (GmailApi.get_sender_info U headers), l)
          else None
      | None => None
      end
  | GmailApi.FetchError _ => None
  end.

Definition hits (U : Unicode) (fs : list GmailApi.Fetch)
  : list (string * string) :=
  flat_map (fun f => match hit U f with Some p => [p] | None => [] end) fs.

(** An iteration order is an order of the elements of the set. *)
Definition iteration_order (set_iter : list string -> list string) : Prop :=
  forall s, Permutation (set_iter s) s.

(** An opportunity without its link. *)
Definition unlinked (o : GmailApi.Opportunity)
  : string * nat * string * list string :=
  (GmailApi.o_domain o, GmailApi.o_count o, GmailApi.o_from o,
   GmailApi.o_subjects o).

(** The state published after the batch starting at [batch_start]. *)
Definition batch_state (total batch_start : nat) : ScanState :=
  let batch_end := Nat.min (batch_start + GmailApi.batch_size) total in
  mkScanState (GmailApi.batch_progress batch_end total)
              ("Batch fetched " ++ GmailApi.str_of_nat batch_end ++ "/"
               ++ GmailApi.str_of_nat total ++ " emails")
              false None.

(** The ids of the batch starting at [batch_start]. *)
Definition batch_of (messages : list string) (batch_start : nat) : list string :=
  firstn (Nat.min (batch_start + GmailApi.batch_size) (List.length messages)
          - batch_start)
         (skipn batch_start messages).

(** The states a run publishes besides those of its batches. *)
Definition connecting_state : ScanState :=
  mkScanState 5 "Connecting to Gmail API..." false None.

Definition listing_state : ScanState :=
  mkScanState 10 "Fetching email list..." false None.

Definition found_state (total : nat) : ScanState :=
  mkScanState 15 ("Found " ++ GmailApi.str_of_nat total
                  ++ " emails, batch fetching...") false None.

Definition finished_state (senders : nat) : ScanState :=
  mkScanState 100 ("Done! Found " ++ GmailApi.str_of_nat senders ++ " senders")
              true None.

(** The state the two [except] clauses of the run publish for [e]. *)
Definition failure_state (e : exn) : ScanState :=
  mkScanState 0
    ((if is_ApiHttpError e then "Gmail API error: " else "Error: ") ++ str e)
    true (Some (str e)).

(** The binary64 and the exact progress agree at every batch end of a
    mailbox of [total] messages. *)
Definition progress_agrees (total : nat) : bool :=
  forallb (fun s =>
             let batch_end := Nat.min (s + GmailApi.batch_size) total in
             Z.eqb (GmailApi.batch_progress_binary64 batch_end total)
                   (GmailApi.batch_progress batch_end total))
          (GmailApi.batch_starts total).

(** [c in s] for a character. *)
Fixpoint has_char (c : ascii) (s : string) : bool :=
  match s with
  | EmptyString => false
  | String c' r => Ascii.eqb c c' || has_char c r
  end.

(** The keys [build_gmail_query] reads. *)
Definition recognised_filters : list string :=
  ["after_date"; "before_date"; "older_than"; "larger_than"; "category";
   "sender"; "label"].

(** A header of the given (lower-case) name. *)
Definition named (n : string) (h : Header) : bool := lower (name h) =? n.

(** The two requests of the executor of [unsubscribe.py] for a link. *)
Definition post_request (link : string) : Request :=
  mkRequest link (Some "List-Unsubscribe=One-Click")
    [("User-Agent", Unsubscribe.user_agent);
     ("Content-Type", "application/x-www-form-urlencoded")]
    "POST".

Definition get_request (link : string) : Request :=
  mkRequest link None [("User-Agent", Unsubscribe.user_agent)] "GET".

(** The request of the script's executor for a link. *)
Definition script_request (link : string) : Request :=
  mkRequest link None
    [("User-Agent", GmailApi.browser_user_agent);
     ("Accept", "text/html,application/xhtml+xml,application/xml;q=0.9,*/*;q=0.8")]
    "GET".

(** What the aggregation keeps true of every bucket: it was counted at
    least once, it holds the subjects of its first three messages, each
    of at most 60 characters, and its links are the HTTP(S) links of its
    messages, at least one and no more than its count. *)
Definition bucket_ok (b : GmailApi.Bucket) : Prop :=
  1 <= GmailApi.count b /\
  List.length (GmailApi.subjects b) = Nat.min (GmailApi.count b) 3 /\
  Forall (fun s => len s <= 60) (GmailApi.subjects b) /\
  GmailApi.links b <> [] /\
  List.length (GmailApi.links b) <= GmailApi.count b /\
  Forall (fun l => startswith l "http" = true) (GmailApi.links b).

(** The sum of the counts of the buckets. *)
Definition total_count (d : GmailApi.senders) : nat :=
  list_sum (map (fun kv => GmailApi.count (snd kv)) d).

(** The order of the result list: larger counts first. *)
Definition by_count (a b : GmailApi.Opportunity) : Prop :=
  GmailApi.o_count b <= GmailApi.o_count a.

(** The same order on buckets. *)
Definition bucket_by_count (a b : string * GmailApi.Bucket) : Prop :=
  GmailApi.count (snd b) <= GmailApi.count (snd a).

(** The number of counted messages whose sender domain is [d]. *)
Definition domain_hits (U : Unicode) (d : string) (fs : list GmailApi.Fetch)
  : nat :=
  count_occ string_dec (map fst (hits U fs)) d.

(** A letter, a digit, [_], [.] or [-] of ASCII. *)
Definition host_char (c : ascii) : bool :=
  ascii_word c || Ascii.eqb c "." || Ascii.eqb c "-".

(** Every [From] header of the message is ASCII text. *)
Definition ascii_senders (headers : list Header) : Prop :=
  Forall (fun h => named "from" h = true -> isascii (value h) = true) headers.

End Props.

(* ===================================================================== *)
(** * Proof steps used more than once                                     *)
(* ===================================================================== *)

Module Steps.
Import Py Props.

Ltac case_status :=
  match goal with
  | |- context [Z_in ?a ?b] => destruct (Z_in a b) eqn:?
  | H : context [Z_in ?a ?b] |- _ => destruct (Z_in a b) eqn:?
  end.

Ltac show_structured :=
  unfold structured; simpl; eexists; eexists; split; reflexivity.

End Steps.

(* ===================================================================== *)
(** * Results: the URL safety gate                                        *)
(* ===================================================================== *)

Module HelpersFacts.
Import Helpers Props.

Lemma str_in_http_https (s : string) :
  str_in s ["http"; "https"] = true <-> s = "http" \/ s = "https".
Proof.
  unfold str_in; simpl.
  rewrite !orb_true_iff, !String.eqb_eq. intuition discriminate.
Qed.

Section WithEnv.
Variable E : Env.

Lemma check_address_ok (s : string) :
  address_ok E s = true -> check_address E s = ([], Return tt).
Proof.
  unfold address_ok, check_address.
  destruct (ip_address E s) as [ip|]; [|discriminate].
  destruct (restricted ip); [discriminate|reflexivity].
Qed.

Lemma check_address_bad (s : string) :
  address_ok E s = false ->
  check_address E s
  = ([], Raise (ValueError ("Invalid or restricted IP address: " ++ s))).
Proof.
  unfold address_ok, check_address.
  destruct (ip_address E s) as [ip|]; [|reflexivity].
  destruct (restricted ip); [reflexivity|discriminate].
Qed.

Lemma check_addresses_ok (l : list string) :
  Forall (fun a => address_ok E a = true) l ->
  forall v, check_addresses E l v = ([], Return (v ++ l)).
Proof.
  induction 1 as [|a l Ha _ IH]; intros v; simpl.
  - now rewrite app_nil_r.
  - rewrite (check_address_ok _ Ha); simpl.
    rewrite IH, <- app_assoc. reflexivity.
Qed.

Lemma check_addresses_bad (pre post : list string) (s : string) :
  Forall (fun a => address_ok E a = true) pre ->
  address_ok E s = false ->
  forall v,
    check_addresses E (pre ++ s :: post) v
    = ([], Raise (ValueError ("Invalid or restricted IP address: " ++ s))).
Proof.
  induction 1 as [|a l Ha _ IH]; intros Hs v; simpl.
  - now rewrite (check_address_bad _ Hs).
  - rewrite (check_address_ok _ Ha); simpl. now rewrite IH.
Qed.

(** Either every entry passes, or there is a first one that does not. *)
Lemma first_offender (l : list string) :
  Forall (fun a => address_ok E a = true) l \/
  exists pre s post,
    l = pre ++ s :: post /\
    Forall (fun a => address_ok E a = true) pre /\ address_ok E s = false.
Proof.
  induction l as [|a l IH]; [left; constructor|].
  destruct (address_ok E a) eqn:Ha.
  - destruct IH as [IH|(pre & s & post & -> & Hpre & Hs)].
    + left; now constructor.
    + right; exists (a :: pre), s, post; repeat split; auto.
  - right; exists [], a, l; repeat split; auto.
Qed.

Lemma restricted_not_ok (s : string) :
  restricted_address E s -> address_ok E s = false.
Proof.
  intros (ip & Hip & Hflags). unfold address_ok, restricted.
  rewrite Hip. apply negb_false_iff.
  rewrite !orb_true_iff. tauto.
Qed.

(** What the validator does once the resolver has answered. *)
Lemma validate_after_resolution (url host : string) (addrs : list string) :
  resolves_to E url host addrs ->
  validate_unsafe_url E url
  = match check_addresses E addrs [] with
    | (_, Return []) =>
        ([EvGetaddrinfo host],
         Raise (ValueError
           ("Could not resolve any valid IP addresses for hostname: " ++ host)))
    | (_, Return (_ :: _)) => ([EvGetaddrinfo host], Return url)
    | (_, Raise e) => ([EvGetaddrinfo host], Raise e)
    end.
Proof.
  intros (parsed & Hp & Hs & Hh & Hne & Hr).
  unfold validate_unsafe_url. rewrite Hp.
  apply str_in_http_https in Hs. rewrite Hs, Hh. simpl.
  destruct host as [|c host]; [congruence|].
  unfold resolve_and_check. rewrite Hr. simpl.
  destruct (first_offender addrs) as [Hok|(pre & s & post & -> & Hpre & Hs')].
  - rewrite (check_addresses_ok _ Hok). simpl.
    destruct addrs; reflexivity.
  - rewrite (check_addresses_bad _ post _ Hpre Hs'). reflexivity.
Qed.

End WithEnv.

(** C1.  When the resolver's answer for the host of a URL that reached the
    resolution step contains a private-use, loopback, link-local or
    unspecified address, whatever the other addresses are,
    [validate_unsafe_url] raises the error "Invalid or restricted IP
    address: s", where [s] is the first entry of the answer that does not
    pass.  It returns (the URL, unchanged) only when every entry passes,
    and it does return when the answer is not empty and every entry
    passes. *)
Theorem validate_all_addresses_must_pass
    (E : Env) (url host : string) (addrs : list string) :
  resolves_to E url host addrs ->
  (Exists (restricted_address E) addrs ->
   exists pre s post,
     addrs = pre ++ s :: post /\
     Forall (fun a => address_ok E a = true) pre /\
     address_ok E s = false /\
     validate_unsafe_url E url
     = ([EvGetaddrinfo host],
        Raise (ValueError ("Invalid or restricted IP address: " ++ s))))
  /\ (forall t u,
        validate_unsafe_url E url = (t, Return u) ->
        u = url /\ addrs <> [] /\ Forall (fun a => address_ok E a = true) addrs)
  /\ (addrs <> [] ->
      Forall (fun a => address_ok E a = true) addrs ->
      validate_unsafe_url E url = ([EvGetaddrinfo host], Return url)).
Proof.
  intros Hres. pose proof (validate_after_resolution E _ _ _ Hres) as Hv.
  destruct (first_offender E addrs) as [Hok|(pre & s & post & Heq & Hpre & Hs)].
  - rewrite (check_addresses_ok E _ Hok) in Hv. simpl in Hv.
    split; [|split].
    + intros Hex. exfalso.
      apply Exists_exists in Hex. destruct Hex as (a & Hin & Ha).
      apply restricted_not_ok in Ha.
      rewrite Forall_forall in Hok. rewrite (Hok _ Hin) in Ha. discriminate.
    + intros t u Hu. rewrite Hv in Hu.
      destruct addrs; inversion Hu; subst. repeat split; auto. discriminate.
    + intros Hne _. rewrite Hv. destruct addrs; [congruence|reflexivity].
  - subst addrs. rewrite (check_addresses_bad E _ post _ Hpre Hs) in Hv.
    split; [|split].
    + intros _. exists pre, s, post. auto.
    + intros t u Hu. rewrite Hv in Hu. discriminate.
    + intros _ Hall. exfalso.
      rewrite Forall_forall in Hall.
      rewrite (Hall s) in Hs; [discriminate|].
      apply in_or_app; right; left; reflexivity.
Qed.

Lemma validate_all_addresses_must_pass_witness :
  resolves_to (Lab.world 200) "https://rebind.example/u" "rebind.example"
    ["93.184.216.34"; "127.0.0.1"] /\
  Exists (restricted_address (Lab.world 200)) ["93.184.216.34"; "127.0.0.1"] /\
  exists pre s post,
    ["93.184.216.34"; "127.0.0.1"] = pre ++ s :: post /\
    Forall (fun a => address_ok (Lab.world 200) a = true) pre /\
    address_ok (Lab.world 200) s = false /\
    validate_unsafe_url (Lab.world 200) "https://rebind.example/u"
    = ([EvGetaddrinfo "rebind.example"],
       Raise (ValueError ("Invalid or restricted IP address: " ++ s))).
Proof.
  assert (Hres : resolves_to (Lab.world 200) "https://rebind.example/u"
                   "rebind.example" ["93.184.216.34"; "127.0.0.1"]).
  { exists (mkParseResult "https" (Some "rebind.example")).
    repeat split; auto; discriminate. }
  assert (Hex : Exists (restricted_address (Lab.world 200))
                  ["93.184.216.34"; "127.0.0.1"]).
  { apply Exists_cons_tl, Exists_cons_hd.
    exists (mkIPAddress true true false false). split; [reflexivity|auto]. }
  split; [exact Hres|]. split; [exact Hex|].
  exact (proj1 (validate_all_addresses_must_pass _ _ _ _ Hres) Hex).
Defined.

(** C4.  A URL whose parsed scheme is neither [http] nor [https] makes
    [validate_unsafe_url] raise "Invalid URL scheme. Only HTTP and HTTPS
    are allowed." with an empty trace: the resolver is not consulted,
    whatever it would have answered for the host. *)
Theorem validate_rejects_other_schemes
    (E : Env) (url : string) (parsed : ParseResult) :
  urlparse E url = Some parsed ->
  scheme parsed <> "http" ->
  scheme parsed <> "https" ->
  validate_unsafe_url E url
  = ([], Raise (ValueError
                  "Invalid URL scheme. Only HTTP and HTTPS are allowed."))
  /\ dns_lookups (trace (validate_unsafe_url E url)) = [].
Proof.
  intros Hp H1 H2.
  assert (Hv : validate_unsafe_url E url
               = ([], Raise (ValueError
                   "Invalid URL scheme. Only HTTP and HTTPS are allowed."))).
  { unfold validate_unsafe_url. rewrite Hp.
    destruct (str_in (scheme parsed) ["http"; "https"]) eqn:Hs; [|reflexivity].
    apply str_in_http_https in Hs. tauto. }
  rewrite Hv. split; reflexivity.
Qed.

Lemma validate_rejects_other_schemes_witness :
  getaddrinfo (Lab.world 200) "intranet.example" = Return ["10.0.0.5"] /\
  validate_unsafe_url (Lab.world 200) "ftp://intranet.example/x"
  = ([], Raise (ValueError
                  "Invalid URL scheme. Only HTTP and HTTPS are allowed.")).
Proof.
  split; [reflexivity|].
  apply (validate_rejects_other_schemes (Lab.world 200)
           "ftp://intranet.example/x"
           (mkParseResult "ftp" (Some "intranet.example")));
    [reflexivity | discriminate | discriminate].
Defined.

End HelpersFacts.

(* ===================================================================== *)
(** * Results: header extraction                                          *)
(* ===================================================================== *)

Module HeaderFacts.
Import Helpers Props.

(** The inner loop returns exactly when a post header is present and the
    value has an HTTP(S) URL. *)
Lemma one_click_scan_spec (v : string) (hs : list Header) :
  one_click_scan v hs
  = match find_http_url v with
    | Some url =>
        if existsb is_list_unsubscribe_post hs
        then Some (Some url, Some "one-click") else None
    | None => None
    end.
Proof.
  induction hs as [|h hs IH]; simpl.
  - destruct (find_http_url v); reflexivity.
  - destruct (is_list_unsubscribe_post h); simpl.
    + destruct (find_http_url v); [reflexivity|exact IH].
    + exact IH.
Qed.

Lemma unsubscribe_scan_spec (headers hs : list Header) :
  unsubscribe_scan headers hs
  = match find qualifies hs with
    | None => (None, None)
    | Some h =>
        match find_http_url (value h) with
        | Some url =>
            (Some url,
             Some (if existsb is_list_unsubscribe_post headers
                   then "one-click" else "manual"))
        | None => (find_mailto (value h), Some "manual")
        end
    end.
Proof.
  induction hs as [|h hs IH]; simpl; [reflexivity|].
  unfold qualifies at 1.
  destruct (is_list_unsubscribe h); simpl; [|exact IH].
  rewrite one_click_scan_spec.
  destruct (find_http_url (value h)) as [url|] eqn:Hu; simpl.
  - destruct (existsb is_list_unsubscribe_post headers); simpl;
      rewrite ?Hu; reflexivity.
  - destruct (find_mailto (value h)) eqn:Hm; simpl; rewrite ?Hu, ?Hm;
      [reflexivity|exact IH].
Qed.

(** C3, as the code has it.  Let [h] be the first [list-unsubscribe] header
    whose value has an HTTP(S) URL or a [mailto:] URI in angle brackets
    (headers of that name with neither are passed over).  Without such a
    header the result is [(None, None)].  When the value of [h] has an
    HTTP(S) URL, the link is the leftmost one and the mode is one-click
    if a [list-unsubscribe-post] header is present anywhere, manual
    otherwise.  When it has only a [mailto:] URI, the link is the leftmost
    one and the mode is manual, with or without a post header. *)
Theorem unsubscribe_affordance (headers : list Header) :
  get_unsubscribe_from_headers headers
  = match find qualifies headers with
    | None => (None, None)
    | Some h =>
        match find_http_url (value h) with
        | Some url =>
            (Some url,
             Some (if existsb is_list_unsubscribe_post headers
                   then "one-click" else "manual"))
        | None => (find_mailto (value h), Some "manual")
        end
    end.
Proof. apply unsubscribe_scan_spec. Qed.

(** C3 as worded fails: a [mailto:]-only value yields the mode manual, not
    mailto, and a post header next to a [mailto:]-only value does not make
    the mode one-click. *)
Lemma mailto_mode_counterexample :
  (let headers := [mkHeader "List-Unsubscribe" "<mailto:leave@shop.example>"] in
   existsb is_list_unsubscribe headers = true /\
   worded_mode headers = "mailto" /\
   get_unsubscribe_from_headers headers
   = (Some "mailto:leave@shop.example", Some "manual") /\
   mode_name (get_unsubscribe_from_headers headers) <> worded_mode headers)
  /\
  (let headers := [mkHeader "List-Unsubscribe" "<mailto:leave@shop.example>";
                   mkHeader "List-Unsubscribe-Post" "List-Unsubscribe=One-Click"] in
   existsb is_list_unsubscribe headers = true /\
   worded_mode headers = "one-click" /\
   get_unsubscribe_from_headers headers
   = (Some "mailto:leave@shop.example", Some "manual") /\
   mode_name (get_unsubscribe_from_headers headers) <> worded_mode headers).
Proof.
  split; cbv zeta; repeat split; try reflexivity; vm_compute; discriminate.
Qed.

(** With an HTTP(S) URL in the link header, adding a post header anywhere
    turns manual into one-click and leaves the link alone. *)
Lemma post_header_switches_mode :
  get_unsubscribe_from_headers
    [mkHeader "From" "a@b.example";
     mkHeader "LIST-UNSUBSCRIBE" "<mailto:x@b.example>, <https://b.example/u?1>";
     mkHeader "List-Unsubscribe-Post" "List-Unsubscribe=One-Click"]
  = (Some "https://b.example/u?1", Some "one-click") /\
  get_unsubscribe_from_headers
    [mkHeader "From" "a@b.example";
     mkHeader "LIST-UNSUBSCRIBE" "<mailto:x@b.example>, <https://b.example/u?1>"]
  = (Some "https://b.example/u?1", Some "manual").
Proof. split; reflexivity. Qed.

End HeaderFacts.

(* ===================================================================== *)
(** * Results: the unsubscribe executor                                   *)
(* ===================================================================== *)

Module UnsubscribeFacts.
Import Helpers Urllib Unsubscribe Props Steps.

(** A handler that catches every exception and returns makes the whole
    statement return. *)
Lemma catch_all_returns (m : M dict) (h : exn -> dict) :
  exists t d,
    try_except m [(any_Exception, fun e => ret (h e))] = (t, Return d) /\
    trace m = t /\
    (result m = Return d \/ exists e, result m = Raise e /\ d = h e).
Proof.
  destruct m as [t [d|e]]; simpl.
  - exists t, d. auto.
  - exists t, (h e). rewrite app_nil_r. repeat split; eauto.
Qed.

Section WithEnv.
Variable E : Env.

Lemma post_attempt_returns (domain : string) (req : Request) :
  exists t r,
    post_attempt E domain req = (t, Return r) /\
    match r with Some d => structured d | None => True end.
Proof.
  unfold post_attempt, open_url. simpl.
  destruct (urlopen E req) as [resp|e]; simpl.
  - case_status; simpl; eexists; eexists; split;
      try reflexivity; simpl; auto; show_structured.
  - destruct (is_transport_error e); simpl.
    + eexists; eexists; split; [reflexivity|exact I].
    + eexists; eexists; split; [reflexivity|exact I].
Qed.

Lemma get_attempt_structured (domain : string) (req : Request) :
  forall t d, get_attempt E domain req = (t, Return d) -> structured d.
Proof.
  unfold get_attempt, open_url. simpl. intros t d H.
  destruct (urlopen E req) as [resp|e]; simpl in H.
  - case_status; inversion H; subst; show_structured.
  - destruct (is_transport_error e); inversion H; subst; show_structured.
Qed.

Lemma get_fallback_structured (domain link : string) :
  forall t d, get_fallback E domain link = (t, Return d) -> structured d.
Proof.
  unfold get_fallback, new_Request. intros t d H.
  destruct (Request_init E link); simpl in H; [discriminate|].
  destruct (get_attempt E domain _) as [t' [d'|e]] eqn:Hg; inversion H; subst.
  eapply get_attempt_structured; eauto.
Qed.

Lemma validation_step_structured (link : string) :
  forall t d, validation_step E link = (t, Return (inr d)) -> structured d.
Proof.
  unfold validation_step. intros t d H.
  destruct (validate_unsafe_url E link) as [t' [u|e]]; simpl in H.
  - inversion H.
  - destruct (is_ValueError e); simpl in H; inversion H; subst. show_structured.
Qed.

Lemma check_addresses_trace (l v : list string) :
  trace (check_addresses E l v) = [].
Proof.
  destruct (HelpersFacts.first_offender E l)
    as [Hok|(pre & s & post & -> & Hpre & Hs)].
  - now rewrite (HelpersFacts.check_addresses_ok E _ Hok).
  - now rewrite (HelpersFacts.check_addresses_bad E _ post _ Hpre Hs).
Qed.

(** The validator talks to the resolver at most once and to nothing else. *)
Lemma validate_trace (url : string) :
  trace (validate_unsafe_url E url) = [] \/
  exists host, trace (validate_unsafe_url E url) = [EvGetaddrinfo host].
Proof.
  unfold validate_unsafe_url.
  destruct (urlparse E url) as [p|]; [|left; reflexivity].
  destruct (negb _); [left; reflexivity|].
  destruct (hostname p) as [[|c h]|]; try (left; reflexivity).
  right. exists (String c h).
  unfold resolve_and_check. simpl.
  destruct (getaddrinfo E (String c h)) as [addrs|e]; simpl.
  - pose proof (check_addresses_trace addrs []) as Ht.
    destruct (check_addresses E addrs []) as [t [[|a v]|e]];
      simpl in Ht; subst t; simpl; try reflexivity.
    destruct (is_gaierror e); simpl; [reflexivity|].
    destruct (is_ValueError e); reflexivity.
  - destruct (is_gaierror e); simpl; [reflexivity|].
    destruct (is_ValueError e); reflexivity.
Qed.

Lemma validate_no_network (url : string) :
  network_calls (trace (validate_unsafe_url E url)) = [].
Proof.
  destruct (validate_trace url) as [->|(h & ->)]; reflexivity.
Qed.

(** The validator returns its argument. *)
Lemma validate_returns_url (url : string) :
  forall t u, validate_unsafe_url E url = (t, Return u) -> u = url.
Proof.
  unfold validate_unsafe_url. intros t u H.
  destruct (urlparse E url) as [p|]; [|discriminate].
  destruct (negb _); [discriminate|].
  destruct (hostname p) as [[|c h]|]; try discriminate.
  destruct (resolve_and_check E (String c h)) as [t' [[]|e]];
    simpl in H; inversion H; reflexivity.
Qed.

(** The executor on a link that is neither empty nor a [mailto:] link. *)
Lemma unsubscribe_single_http (domain link : string) :
  link <> "" ->
  startswith link "mailto:" = false ->
  unsubscribe_single E domain (Some link)
  = try_except
      (v <- validation_step E link ;;
       match v with
       | inr d => ret d
       | inl link =>
           req <- new_Request E link (Some "List-Unsubscribe=One-Click")
                    [("User-Agent", user_agent);
                     ("Content-Type", "application/x-www-form-urlencoded")]
                    "POST" ;;
           posted <- post_attempt E domain req ;;
           match posted with
           | Some d => ret d
           | None => get_fallback E domain link
           end
       end)
      [(any_Exception,
        fun e => ret [("success", VBool false);
                      ("message", VStr (take 100 (str e)))])].
Proof.
  intros Hne Hm. unfold unsubscribe_single.
  destruct link as [|c l]; [congruence|]. now rewrite Hm.
Qed.

(** What the executor answers when the validator raises [e]. *)
Lemma rejected_link_result (domain link : string) (t : list event) (e : exn) :
  link <> "" ->
  startswith link "mailto:" = false ->
  validate_unsafe_url E link = (t, Raise e) ->
  unsubscribe_single E domain (Some link)
  = (t, Return [("success", VBool false);
                ("message",
                 VStr (if is_ValueError e
                       then "Security Error: " ++ str e
                       else take 100 (str e)))]).
Proof.
  intros Hne Hm Hv. rewrite (unsubscribe_single_http _ _ Hne Hm).
  unfold validation_step. rewrite Hv. simpl.
  destruct (is_ValueError e); simpl; now rewrite !app_nil_r.
Qed.

End WithEnv.

(** For every link the validator rejects, the executor of
    [app/services/gmail/unsubscribe.py] returns [success: False] and its
    trace holds no HTTP request; when the link is not empty and not a
    [mailto:] link the message is "Security Error: " followed by the
    validator's reason (the first 100 characters of the reason when the
    exception is not a [ValueError]). *)
Theorem rejected_link_makes_no_request
    (E : Env) (domain link : string) (t : list event) (e : exn) :
  validate_unsafe_url E link = (t, Raise e) ->
  exists t' d,
    unsubscribe_single E domain (Some link) = (t', Return d) /\
    get d "success" = Some (VBool false) /\
    network_calls t' = [] /\
    (link <> "" -> startswith link "mailto:" = false ->
     get d "message"
     = Some (VStr (if is_ValueError e
                   then "Security Error: " ++ str e
                   else take 100 (str e)))).
Proof.
  intros Hv.
  destruct link as [|c l].
  - eexists; eexists; split; [reflexivity|]. repeat split; auto. congruence.
  - destruct (startswith (String c l) "mailto:") eqn:Hm.
    + eexists; eexists; split; [unfold unsubscribe_single; rewrite Hm; reflexivity|].
      repeat split; auto. congruence.
    + rewrite (rejected_link_result E domain _ t e); auto; [|discriminate].
      eexists; eexists; split; [reflexivity|].
      pose proof (validate_no_network E (String c l)) as Hn.
      rewrite Hv in Hn. repeat split; auto.
Qed.

Lemma rejected_link_makes_no_request_witness :
  validate_unsafe_url (Lab.world 200) "http://intranet.example/admin"
  = ([EvGetaddrinfo "intranet.example"],
     Raise (ValueError "Invalid or restricted IP address: 10.0.0.5")) /\
  exists t' d,
    unsubscribe_single (Lab.world 200) "intranet.example"
      (Some "http://intranet.example/admin") = (t', Return d) /\
    get d "success" = Some (VBool false) /\
    network_calls t' = [] /\
    ("http://intranet.example/admin" <> "" ->
     startswith "http://intranet.example/admin" "mailto:" = false ->
     get d "message"
     = Some (VStr (if is_ValueError
                        (ValueError "Invalid or restricted IP address: 10.0.0.5")
                   then "Security Error: "
                        ++ str (ValueError "Invalid or restricted IP address: 10.0.0.5")
                   else take 100
                          (str (ValueError "Invalid or restricted IP address: 10.0.0.5"))))).
Proof.
  split; [reflexivity|].
  apply (rejected_link_makes_no_request (Lab.world 200) "intranet.example"
           "http://intranet.example/admin" [EvGetaddrinfo "intranet.example"]).
  reflexivity.
Defined.

(** An HTTP request in the trace of the executor means the validator
    accepted the link. *)
Theorem request_only_after_validation
    (E : Env) (domain : string) (link : option string) :
  network_calls (trace (unsubscribe_single E domain link)) <> [] ->
  exists l t, link = Some l /\ validate_unsafe_url E l = (t, Return l).
Proof.
  intros Hn.
  destruct link as [l|]; [|exfalso; apply Hn; reflexivity].
  destruct (validate_unsafe_url E l) as [t [u|e]] eqn:Hv.
  - exists l, t. split; [reflexivity|].
    rewrite Hv. do 2 f_equal. exact (validate_returns_url E l t u Hv).
  - exfalso. apply Hn.
    destruct (rejected_link_makes_no_request E domain l t e Hv)
      as (t' & d & Hu & _ & Hnet & _).
    now rewrite Hu.
Qed.

Lemma request_only_after_validation_witness :
  network_calls (trace (unsubscribe_single (Lab.world 200) "shop.example"
                          (Some "https://shop.example/leave"))) <> [] /\
  exists l t,
    Some "https://shop.example/leave" = Some l /\
    validate_unsafe_url (Lab.world 200) l = (t, Return l).
Proof.
  assert (H : network_calls
                (trace (unsubscribe_single (Lab.world 200) "shop.example"
                          (Some "https://shop.example/leave"))) <> [])
    by (vm_compute; discriminate).
  split; [exact H|].
  exact (request_only_after_validation _ _ _ H).
Defined.

(** C5.  Whatever the environment does (the splitter, the resolver, the
    request constructor and the HTTP client may each answer or raise any
    exception), [unsubscribe_single] returns a dictionary with a boolean
    [success] and a text [message]; it never raises. *)
Theorem unsubscribe_single_never_raises
    (E : Env) (domain : string) (link : option string) :
  exists t d,
    unsubscribe_single E domain link = (t, Return d) /\ structured d.
Proof.
  destruct link as [[|c l]|];
    try (eexists; eexists; split; [reflexivity|show_structured]).
  destruct (startswith (String c l) "mailto:") eqn:Hm.
  - eexists; eexists; split;
      [unfold unsubscribe_single; rewrite Hm; reflexivity|show_structured].
  - rewrite (unsubscribe_single_http E domain (String c l)); auto; [|discriminate].
    match goal with
    | |- context [try_except ?m [(any_Exception, fun e => ret (@?h e))]] =>
        destruct (catch_all_returns m h) as (t & d & Ht & _ & Hd)
    end.
    exists t, d. split; [exact Ht|].
    destruct Hd as [Hd|(e & _ & ->)]; [|show_structured].
    clear Ht. unfold result in Hd.
    destruct (validation_step E (String c l)) as [t1 [[u|d1]|e1]] eqn:Hvs;
      simpl in Hd; try discriminate.
    + unfold new_Request in Hd.
      destruct (Request_init E u); simpl in Hd; [discriminate|].
      match type of Hd with
      | context [post_attempt E domain ?r] =>
          destruct (post_attempt_returns E domain r) as (t2 & p & Hp & Hsp);
          rewrite Hp in Hd
      end.
      simpl in Hd. destruct p as [d2|].
      * simpl in Hd. inversion Hd; subst. exact Hsp.
      * destruct (get_fallback E domain u) as [t3 [d3|e3]] eqn:Hg;
          simpl in Hd; inversion Hd; subst.
        eapply get_fallback_structured; eauto.
    + inversion Hd; subst.
      eapply validation_step_structured; eauto.
Qed.

(** C10.  For the empty link the executor answers as for a missing one,
    [success: False] with "No unsubscribe link provided", with an empty
    trace and the same answer in every environment: neither the validator
    nor the HTTP client is consulted. *)
Theorem empty_link_is_no_link (E : Env) (domain : string) :
  unsubscribe_single E domain (Some "")
  = ([], Return [("success", VBool false);
                 ("message", VStr "No unsubscribe link provided")])
  /\ unsubscribe_single E domain (Some "") = unsubscribe_single E domain None
  /\ dns_lookups (trace (unsubscribe_single E domain (Some ""))) = []
  /\ network_calls (trace (unsubscribe_single E domain (Some ""))) = [].
Proof. repeat split. Qed.

Lemma Z_in_In (x : Z) (l : list Z) : Z_in x l = true <-> In x l.
Proof.
  unfold Z_in. rewrite existsb_exists. split.
  - intros (y & Hin & Heq). apply Z.eqb_eq in Heq. now subst.
  - intros Hin. exists x. split; [exact Hin|apply Z.eqb_refl].
Qed.

(** A GET that [urlopen] raises as an [HTTPError], as it does for every
    status that it neither returns nor follows, is reported as a failure,
    whatever the status. *)
Lemma get_fallback_http_error
    (E : Env) (domain link msg : string) (code : Z) :
  Request_init E link = None ->
  urlopen E (get_request link) = Raise (HTTPError code msg) ->
  get_fallback E domain link
  = ([EvUrlopen (get_request link) 10 true],
     Return [("success", VBool false);
             ("message", VStr ("Failed to unsubscribe: HTTP Error "
                               ++ str_of_Z code ++ ": " ++ msg))]).
Proof.
  intros Hreq Hopen.
  unfold get_fallback, new_Request, get_attempt, open_url.
  rewrite Hreq. simpl. unfold get_request in Hopen. rewrite Hopen.
  reflexivity.
Qed.

(** Under the contract of [urlopen] the fallback reports a success only
    for a response with status 200, 201, 202 or 204: the entries 301 and
    302 of its list are never met. *)
Lemma get_fallback_success_statuses
    (E : Env) (domain link : string) (t : list event) (d : dict) :
  http_contract E ->
  get_fallback E domain link = (t, Return d) ->
  get d "success" = Some (VBool true) ->
  exists resp,
    urlopen E (get_request link) = Return resp /\
    In (status resp) [200; 201; 202; 204]%Z.
Proof.
  intros Hc Hg Hs. unfold get_fallback, new_Request in Hg.
  destruct (Request_init E link); [discriminate|]. simpl in Hg.
  unfold get_attempt, open_url in Hg. simpl in Hg.
  change (mkRequest link None [("User-Agent", user_agent)] "GET")
    with (get_request link) in Hg.
  destruct (urlopen E (get_request link)) as [resp|e] eqn:Hopen; simpl in Hg.
  - exists resp. split; [reflexivity|].
    pose proof (Hc _ _ Hopen) as Hrange.
    destruct (Z_in (status resp) [200; 201; 202; 204; 301; 302]%Z) eqn:Hin;
      simpl in Hg; inversion Hg; subst d; [|discriminate].
    apply Z_in_In in Hin. simpl in Hin. simpl. lia.
  - destruct (is_transport_error e); simpl in Hg; [|discriminate].
    inversion Hg; subst d. discriminate.
Qed.

(** The laboratory's [urlopen] keeps the contract. *)
Lemma world_http_contract (get_status : Z) : http_contract (Lab.world get_status).
Proof.
  intros req resp. unfold Lab.world, urlopen, Lab.serve, Lab.answer.
  repeat match goal with
         | |- context [if ?b then _ else _] => destruct b eqn:?
         end;
    intros H; inversion H; subst; simpl; lia.
Qed.

(** C6 on a redirect.  The server answers the GET with 302 and nothing to
    follow, which [urlopen] raises as [HTTPError]: the executor reports
    [success: False] with "Failed to unsubscribe: HTTP Error 302: Found",
    although 302 is in the list of statuses its fallback reports as a
    success.  The script's executor, on the same answer, reports
    [success: True] with the status "Redirected". *)
Theorem redirect_answer_is_reported_as_failure :
  http_contract (Lab.world 302)
  /\ urlopen (Lab.world 302) (get_request "https://news.example/unsub?id=7")
     = Raise (HTTPError 302 "Found")
  /\ get_fallback (Lab.world 302) "news.example"
       "https://news.example/unsub?id=7"
     = ([EvUrlopen (get_request "https://news.example/unsub?id=7") 10 true],
        Return [("success", VBool false);
                ("message",
                 VStr "Failed to unsubscribe: HTTP Error 302: Found")])
  /\ result (unsubscribe_single (Lab.world 302) "news.example"
               (Some "https://news.example/unsub?id=7"))
     = Return [("success", VBool false);
               ("message",
                VStr "Failed to unsubscribe: HTTP Error 302: Found")]
  /\ result (GmailApi.unsubscribe_single (Lab.world 302) "news.example"
               "https://news.example/unsub?id=7")
     = Return [("success", VBool true); ("status", VStr "Redirected")].
Proof.
  split; [apply world_http_contract|]. repeat split.
Qed.

End UnsubscribeFacts.

(* ===================================================================== *)
(** * Results: the executor of the stand-alone script                     *)
(* ===================================================================== *)

Module ScriptExecutorFacts.
Import Helpers Urllib Props Steps.

(** The script's [unsubscribe_single] never consults the resolver, and
    opens the link whenever a request can be built for it. *)
Lemma script_executor_opens_link (E : Env) (domain link : string) :
  Request_init E link = None ->
  dns_lookups (trace (GmailApi.unsubscribe_single E domain link)) = [] /\
  network_calls (trace (GmailApi.unsubscribe_single E domain link))
  = [EvUrlopen
       (mkRequest link None
          [("User-Agent", GmailApi.browser_user_agent);
           ("Accept", "text/html,application/xhtml+xml,application/xml;q=0.9,*/*;q=0.8")]
          "GET") 10 false].
Proof.
  intros Hreq. unfold GmailApi.unsubscribe_single, new_Request, open_url.
  rewrite Hreq. simpl.
  destruct (urlopen E _) as [resp|e]; simpl.
  - match goal with
    | |- context [if ?b then _ else _] => destruct b
    end; split; reflexivity.
  - destruct (is_HTTPError e); simpl.
    + case_status; split; reflexivity.
    + split; reflexivity.
Qed.

(** C2 on the script.  The validator rejects [http://127.0.0.1/admin]
    (a loopback address), the executor of
    [app/services/gmail/unsubscribe.py] answers with the security error and
    makes no request, and the script's [unsubscribe_single] makes the
    request, without certificate verification, and reports success. *)
Theorem script_executor_requests_rejected_link :
  validate_unsafe_url (Lab.world 200) "http://127.0.0.1/admin"
  = ([EvGetaddrinfo "127.0.0.1"],
     Raise (ValueError "Invalid or restricted IP address: 127.0.0.1"))
  /\ Unsubscribe.unsubscribe_single (Lab.world 200) "local"
       (Some "http://127.0.0.1/admin")
     = ([EvGetaddrinfo "127.0.0.1"],
        Return [("success", VBool false);
                ("message",
                 VStr "Security Error: Invalid or restricted IP address: 127.0.0.1")])
  /\ GmailApi.unsubscribe_single (Lab.world 200) "local" "http://127.0.0.1/admin"
     = ([EvUrlopen
           (mkRequest "http://127.0.0.1/admin" None
              [("User-Agent", GmailApi.browser_user_agent);
               ("Accept", "text/html,application/xhtml+xml,application/xml;q=0.9,*/*;q=0.8")]
              "GET") 10 false],
        Return [("success", VBool true); ("status", VStr "Link visited")]).
Proof. repeat split. Qed.

End ScriptExecutorFacts.

(* ===================================================================== *)
(** * Results: the aggregation run                                        *)
(* ===================================================================== *)

Module AggregationFacts.
Import Helpers GmailApi Props.

(** ** Lists and batches *)

Lemma firstn_add {A} (a b : nat) (l : list A) :
  firstn (a + b) l = firstn a l ++ firstn b (skipn a l).
Proof.
  revert l. induction a as [|a IH]; intros [|x l]; simpl; auto.
  - now rewrite firstn_nil.
  - f_equal. apply IH.
Qed.

Lemma firstn_up_to_length {A} (n : nat) (l : list A) :
  firstn (Nat.min n (List.length l)) l = firstn n l.
Proof.
  rewrite <- firstn_firstn, firstn_all. reflexivity.
Qed.

Lemma batch_size_is_100 : batch_size = 100.
Proof. reflexivity. Qed.

Lemma batch_size_pos : 0 < batch_size.
Proof. unfold batch_size. lia. Qed.

(** A batch is the next [batch_size] messages, or what is left of them. *)
Lemma batch_of_firstn (messages : list string) (batch_start : nat) :
  batch_of messages batch_start = firstn batch_size (skipn batch_start messages).
Proof.
  unfold batch_of.
  rewrite <- (firstn_up_to_length batch_size (skipn batch_start messages)).
  rewrite length_skipn. f_equal. lia.
Qed.

(** The batches, one after the other, are the messages. *)
Lemma batches_cover (messages : list string) (n a : nat) :
  concat (map (batch_of messages) (map (fun k => k * batch_size) (seq a n)))
  = firstn (n * batch_size) (skipn (a * batch_size) messages).
Proof.
  revert a. induction n as [|n IH]; intros a; [reflexivity|].
  cbn [seq map concat]. rewrite IH, batch_of_firstn.
  replace (S n * batch_size) with (batch_size + n * batch_size) by lia.
  rewrite firstn_add, skipn_skipn.
  reflexivity.
Qed.

Lemma batch_starts_cover (messages : list string) :
  concat (map (batch_of messages) (batch_starts (List.length messages)))
  = messages.
Proof.
  unfold batch_starts. rewrite batches_cover. simpl skipn.
  apply firstn_all2.
  pose proof batch_size_pos as Hpos.
  pose proof (Nat.div_mod_eq (List.length messages + batch_size - 1) batch_size) as Hd.
  pose proof (Nat.mod_upper_bound (List.length messages + batch_size - 1) batch_size)
    as Hm.
  nia.
Qed.

(** ** The batch loop *)

Section BatchLoop.
Variable U : Unicode.
Variable G : Gmail.
Variable messages : list string.

Local Abbreviation total := (List.length messages).

Lemma run_batch_spec (st : nat * senders) (batch_start : nat) :
  run_batch U G messages total st batch_start
  = match batch_execute G batch_start (batch_of messages batch_start) with
    | Some e => ([], Raise e)
    | None =>
        ([EvScanStatus (batch_state total batch_start)],
         Return (fold_left (process_message U)
                   (map (messages_get G) (batch_of messages batch_start)) st))
    end.
Proof.
  unfold run_batch, batch_of.
  destruct (batch_execute G batch_start _); reflexivity.
Qed.

(** The loop either stops at the first batch that fails, having published
    the states of the batches before it, or runs the callback over every
    message of every batch, in order. *)
Lemma run_batches_spec (starts : list nat) :
  forall st,
    (exists k s e,
        nth_error starts k = Some s /\
        batch_execute G s (batch_of messages s) = Some e /\
        run_batches U G messages total starts st
        = (map (fun s => EvScanStatus (batch_state total s)) (firstn k starts),
           Raise e))
    \/
    ((forall s, In s starts ->
        batch_execute G s (batch_of messages s) = None) /\
     run_batches U G messages total starts st
     = (map (fun s => EvScanStatus (batch_state total s)) starts,
        Return (fold_left (process_message U)
                  (map (messages_get G) (concat (map (batch_of messages) starts)))
                  st))).
Proof.
  induction starts as [|s rest IH]; intros st.
  - right. split; [intros s []|reflexivity].
  - cbn [run_batches]. rewrite run_batch_spec.
    destruct (batch_execute G s (batch_of messages s)) as [e|] eqn:He.
    + left. exists 0, s, e. repeat split; auto.
    + destruct (IH (fold_left (process_message U)
                      (map (messages_get G) (batch_of messages s)) st))
        as [(k & s' & e & Hk & He' & Hr)|(Hall & Hr)].
      * left. exists (S k), s', e. repeat split; auto.
        unfold bind. rewrite Hr. reflexivity.
      * right. split.
        { intros s' [<-|Hin]; auto. }
        unfold bind. rewrite Hr.
        cbn [map concat]. rewrite map_app, fold_left_app. reflexivity.
Qed.

(** When no batch fails the callback has seen every message once, in
    mailbox order. *)
Lemma run_batches_all (st : nat * senders) :
  (forall s ids, batch_execute G s ids = None) ->
  run_batches U G messages total (batch_starts total) st
  = (map (fun s => EvScanStatus (batch_state total s)) (batch_starts total),
     Return (fold_left (process_message U) (map (messages_get G) messages) st)).
Proof.
  intros Hok.
  destruct (run_batches_spec (batch_starts total) st)
    as [(k & s & e & _ & He & _)|(_ & Hr)].
  - rewrite Hok in He. discriminate.
  - rewrite Hr, batch_starts_cover. reflexivity.
Qed.

(** A loop that returns has seen every message. *)
Lemma run_batches_returned (st st' : nat * senders) (t : list event) :
  run_batches U G messages total (batch_starts total) st = (t, Return st') ->
  st' = fold_left (process_message U) (map (messages_get G) messages) st.
Proof.
  intros H.
  destruct (run_batches_spec (batch_starts total) st)
    as [(k & s & e & _ & _ & Hr)|(_ & Hr)]; rewrite Hr in H.
  - discriminate.
  - inversion H. now rewrite batch_starts_cover.
Qed.

(** [processed[0]] counts the callbacks: after the loop it is the number
    of messages, and after each batch it is [batch_end]. *)
Lemma processed_counts (fs : list Fetch) (st : nat * senders) :
  fst (fold_left (process_message U) fs st) = fst st + List.length fs.
Proof.
  revert st. induction fs as [|f fs IH]; intros st; simpl; [lia|].
  rewrite IH.
  assert (H : fst (process_message U st f) = S (fst st)).
  { unfold process_message. destruct f as [e|hs]; [reflexivity|].
    destruct (get_unsubscribe_from_headers hs) as [l|]; [|reflexivity].
    destruct (startswith l "http"); [|reflexivity].
    destruct (get_sender_info U hs). reflexivity. }
  rewrite H. lia.
Qed.

End BatchLoop.

(** ** Progress *)

Lemma batch_progress_mono (total a b : nat) :
  0 < total -> a <= b ->
  (batch_progress a total <= batch_progress b total)%Z.
Proof.
  intros Ht Hab. unfold batch_progress.
  apply Z.add_le_mono_l, Z.div_le_mono; lia.
Qed.

Lemma batch_progress_range (total batch_end : nat) :
  0 < total -> batch_end <= total ->
  (15 <= batch_progress batch_end total <= 95)%Z.
Proof.
  intros Ht Hle. unfold batch_progress. split.
  - assert (0 <= Z.of_nat batch_end * 80 / Z.of_nat total)%Z
      by (apply Z.div_pos; lia).
    lia.
  - assert (Z.of_nat batch_end * 80 / Z.of_nat total <= 80)%Z
      by (apply Z.div_le_upper_bound; lia).
    lia.
Qed.

Lemma batch_state_progress (total s : nat) :
  progress (batch_state total s)
  = (15 + (80 * Z.of_nat (Nat.min (s + 100) total)) / Z.of_nat total)%Z.
Proof.
  unfold batch_state, batch_progress. cbn [progress].
  rewrite batch_size_is_100, Z.mul_comm. reflexivity.
Qed.

Lemma expected_progress_states (total : nat) :
  expected_progress total
  = [5; 10; 15]%Z
    ++ map progress (map (batch_state total) (batch_starts total)).
Proof.
  unfold expected_progress. f_equal. rewrite map_map.
  apply map_ext. intros s. now rewrite batch_state_progress.
Qed.

Lemma sorted_prefix (l1 l2 : list Z) :
  Sorted Z.le (l1 ++ l2) -> Sorted Z.le l1.
Proof.
  induction l1 as [|x l1 IH]; intros H; [constructor|].
  simpl in H. apply Sorted_inv in H. destruct H as [Hs Hh].
  constructor; [auto|].
  destruct l1; [constructor|]. simpl in Hh. apply HdRel_inv in Hh.
  now constructor.
Qed.

Lemma batch_progress_sorted (total n a : nat) :
  0 < total ->
  Sorted Z.le
    (map progress
       (map (batch_state total) (map (fun k => k * batch_size) (seq a n)))
     ++ [100%Z]).
Proof.
  intros Ht. revert a. induction n as [|n IH]; intros a.
  - repeat constructor.
  - cbn [seq map app]. constructor; [apply IH|].
    destruct n as [|n]; cbn [seq map app]; constructor.
    + pose proof (batch_progress_range total
                    (Nat.min (a * batch_size + batch_size) total) Ht) as Hr.
      unfold batch_state; cbn [progress]. lia.
    + unfold batch_state; cbn [progress].
      apply batch_progress_mono; [exact Ht|]. lia.
Qed.

(** The progress values of a run that completes never decrease. *)
Lemma expected_progress_sorted (total : nat) :
  Sorted Z.le (expected_progress total ++ [100%Z]).
Proof.
  rewrite expected_progress_states.
  destruct total as [|total].
  - repeat constructor; lia.
  - pose proof (batch_progress_sorted (S total)
                  ((S total + batch_size - 1) / batch_size) 0
                  ltac:(lia)) as Hs.
    fold (batch_starts (S total)) in Hs.
    rewrite <- app_assoc. cbn [app].
    repeat (constructor; try lia).
    + exact Hs.
    + destruct (batch_starts (S total)) as [|s l]; cbn [map app]; constructor.
      * lia.
      * pose proof (batch_progress_range (S total)
                      (Nat.min (s + batch_size) (S total)) ltac:(lia)) as Hr.
        unfold batch_state; cbn [progress]. lia.
Qed.

Lemma batch_progress_binary64_agrees (total batch_start : nat) :
  1 <= total <= 1000 ->
  In batch_start (batch_starts total) ->
  batch_progress_binary64 (Nat.min (batch_start + batch_size) total) total
  = batch_progress (Nat.min (batch_start + batch_size) total) total.
Proof.
  intros Ht Hin.
  assert (Hall : forallb progress_agrees (seq 1 1000) = true)
    by (vm_compute; reflexivity).
  rewrite forallb_forall in Hall.
  assert (Hs : progress_agrees total = true) by (apply Hall, in_seq; lia).
  unfold progress_agrees in Hs. rewrite forallb_forall in Hs.
  apply Z.eqb_eq. exact (Hs batch_start Hin).
Qed.

Lemma batch_progress_binary64_agrees_witness :
  batch_progress_binary64 (Nat.min (100 + batch_size) 150) 150
  = batch_progress (Nat.min (100 + batch_size) 150) 150.
Proof.
  apply (batch_progress_binary64_agrees 150 100); [lia|].
  vm_compute. auto.
Defined.

(** After [n] batches [processed[0]] is the end of the last one. *)
Lemma processed_is_batch_end (U : Unicode)
    (G : Gmail) (messages : list string) (n : nat)
    (t : list event) (st : nat * senders) :
  run_batches U G messages (List.length messages)
    (map (fun k => k * batch_size) (seq 0 n)) (0, []) = (t, Return st) ->
  fst st = Nat.min (n * batch_size) (List.length messages).
Proof.
  intros H.
  destruct (run_batches_spec U G messages
              (map (fun k => k * batch_size) (seq 0 n)) (0, []))
    as [(k & s & e & _ & _ & Hr)|(_ & Hr)]; rewrite Hr in H.
  - discriminate.
  - inversion H. rewrite processed_counts, length_map, batches_cover.
    simpl skipn. rewrite length_firstn. reflexivity.
Qed.

(** ** The run, case by case *)

Lemma published_app (a b : list event) :
  published (a ++ b) = published a ++ published b.
Proof. unfold published. now rewrite flat_map_app. Qed.

Lemma published_states (f : nat -> ScanState) (l : list nat) :
  published (map (fun s => EvScanStatus (f s)) l) = map f l.
Proof. induction l; simpl; congruence. Qed.

Lemma scan_emails_api_cases (U : Unicode)
    (set_iter : list string -> list string) (G : Gmail) (limit : Z) :
  scan_emails_api U set_iter G limit
  = match get_gmail_service G with
    | Raise e =>
        ([EvScanStatus connecting_state; EvScanStatus (failure_state e)],
         Return [])
    | Return (Some error) =>
        ([EvScanStatus connecting_state;
          EvScanStatus (mkScanState 0 error true (Some error))],
         Return [])
    | Return None =>
        match messages_list G limit with
        | Raise e =>
            ([EvScanStatus connecting_state; EvScanStatus listing_state;
              EvScanStatus (failure_state e)],
             Return [])
        | Return [] =>
            ([EvScanStatus connecting_state; EvScanStatus listing_state;
              EvScanStatus (mkScanState 100 "No emails found" true None)],
             Return [])
        | Return messages =>
            let total := List.length messages in
            match run_batches U G messages total (batch_starts total) (0, []) with
            | (t, Raise e) =>
                (EvScanStatus connecting_state :: EvScanStatus listing_state
                 :: EvScanStatus (found_state total)
                 :: t ++ [EvScanStatus (failure_state e)],
                 Return [])
            | (t, Return st) =>
                let scan_results := collect set_iter (sorted_senders (snd st)) in
                (EvScanStatus connecting_state :: EvScanStatus listing_state
                 :: EvScanStatus (found_state total)
                 :: t ++ [EvScanStatus
                            (finished_state (List.length scan_results))],
                 Return scan_results)
            end
        end
    end.
Proof.
  unfold scan_emails_api, status, failure_state.
  destruct (get_gmail_service G) as [[err|]|e]; simpl.
  - reflexivity.
  - destruct (messages_list G limit) as [[|m ms]|e]; simpl.
    + reflexivity.
    + destruct (run_batches U G (m :: ms) _ _ _) as [t [st|e]]; simpl.
      * reflexivity.
      * destruct (is_ApiHttpError e); simpl; reflexivity.
    + destruct (is_ApiHttpError e); reflexivity.
  - destruct (is_ApiHttpError e); reflexivity.
Qed.

Lemma expected_prefix_sorted (total : nat) (pre rest : list Z) :
  expected_progress total = pre ++ rest -> Sorted Z.le pre.
Proof.
  intros H. apply (sorted_prefix pre rest). rewrite <- H.
  apply (sorted_prefix _ [100%Z]), expected_progress_sorted.
Qed.

(** C7, as the code has it.  The states a run publishes are a sequence
    [pre] followed by one final state.  The progress values of [pre] are an
    initial part of 5, 10, 15 and then, batch after batch,
    15 + floor(80 * batch_end / total); they never decrease, and none of
    these states is final or carries an error.  The final state has
    [done] set.  Either it carries no error, its progress is 100 and the
    whole sequence never decreases (and, unless no message was listed, every
    batch has published its progress), or it carries an error and its
    progress is 0. *)
Theorem progress_nondecreasing_until_final_state (U : Unicode)
    (set_iter : list string -> list string) (G : Gmail) (limit : Z) :
  exists pre last,
    published (trace (scan_emails_api U set_iter G limit)) = pre ++ [last] /\
    (exists rest,
        expected_progress (List.length (listed G limit))
        = map progress pre ++ rest) /\
    Sorted Z.le (map progress pre) /\
    Forall (fun st => done st = false /\ error st = None) pre /\
    done last = true /\
    ((error last = None /\ progress last = 100%Z /\
      Sorted Z.le (map progress (pre ++ [last])) /\
      (listed G limit = [] \/
       map progress pre = expected_progress (List.length (listed G limit))))
     \/ (error last <> None /\ progress last = 0%Z)).
Proof.
  rewrite scan_emails_api_cases.
  assert (Hrest : forall pre last,
            (exists rest, expected_progress (List.length (listed G limit))
                          = map progress pre ++ rest) ->
            Forall (fun st => done st = false /\ error st = None) pre ->
            done last = true ->
            (error last = None /\ progress last = 100%Z /\
             Sorted Z.le (map progress (pre ++ [last])) /\
             (listed G limit = [] \/
              map progress pre
              = expected_progress (List.length (listed G limit)))
             \/ error last <> None /\ progress last = 0%Z) ->
            (exists rest, expected_progress (List.length (listed G limit))
                          = map progress pre ++ rest) /\
            Sorted Z.le (map progress pre) /\
            Forall (fun st => done st = false /\ error st = None) pre /\
            done last = true /\
            (error last = None /\ progress last = 100%Z /\
             Sorted Z.le (map progress (pre ++ [last])) /\
             (listed G limit = [] \/
              map progress pre
              = expected_progress (List.length (listed G limit)))
             \/ error last <> None /\ progress last = 0%Z)).
  { intros pre last Hp Hf Hd Hc. repeat split; auto.
    destruct Hp as (rest & Hp). eapply expected_prefix_sorted; eauto. }
  destruct (get_gmail_service G) as [[err|]|e].
  - exists [connecting_state], (mkScanState 0 err true (Some err)).
    split; [reflexivity|]. apply Hrest; auto.
    + rewrite expected_progress_states. eexists; reflexivity.
    + right. split; [discriminate|reflexivity].
  - unfold listed in *.
    destruct (messages_list G limit) as [[|m ms]|e].
    + exists [connecting_state; listing_state],
        (mkScanState 100 "No emails found" true None).
      split; [reflexivity|]. apply Hrest; auto.
      * eexists; reflexivity.
      * left. split; [reflexivity|]. split; [reflexivity|]. split; [|now left].
        cbn [map app progress connecting_state listing_state].
        repeat first [apply Sorted_cons | apply Sorted_nil
                     | apply HdRel_cons | apply HdRel_nil]; lia.
    + cbv zeta.
      destruct (run_batches_spec U G (m :: ms)
                  (batch_starts (List.length (m :: ms))) (0, []))
        as [(k & s & e & _ & _ & Hr)|(_ & Hr)]; rewrite Hr.
      * exists (connecting_state :: listing_state
                :: found_state (List.length (m :: ms))
                :: map (batch_state (List.length (m :: ms)))
                     (firstn k (batch_starts (List.length (m :: ms))))),
          (failure_state e).
        split.
        { unfold trace, fst. cbn [published flat_map app]. f_equal. f_equal.
          f_equal. fold (published
            (map (fun s0 => EvScanStatus (batch_state (List.length (m :: ms)) s0))
               (firstn k (batch_starts (List.length (m :: ms))))
             ++ [EvScanStatus (failure_state e)])).
          rewrite published_app, published_states. reflexivity. }
        apply Hrest; auto.
        { rewrite expected_progress_states.
          exists (map progress
                    (map (batch_state (List.length (m :: ms)))
                       (skipn k (batch_starts (List.length (m :: ms)))))).
          cbn [map app]. do 3 f_equal.
          rewrite <- !map_app, firstn_skipn. reflexivity. }
        { repeat (constructor; [split; reflexivity|]).
          apply Forall_forall. intros st Hin. apply in_map_iff in Hin.
          destruct Hin as (b & <- & _). split; reflexivity. }
        { right. split; [discriminate|reflexivity]. }
      * match goal with
        | |- context [finished_state ?n] =>
            exists (connecting_state :: listing_state
                    :: found_state (List.length (m :: ms))
                    :: map (batch_state (List.length (m :: ms)))
                         (batch_starts (List.length (m :: ms)))),
              (finished_state n)
        end.
        split.
        { unfold trace, fst. cbn [published flat_map app]. f_equal. f_equal.
          f_equal.
          match goal with
          | |- flat_map ?f ?l = _ => change (flat_map f l) with (published l)
          end.
          rewrite published_app, published_states. reflexivity. }
        assert (Hexp : map progress
                  (connecting_state :: listing_state
                   :: found_state (List.length (m :: ms))
                   :: map (batch_state (List.length (m :: ms)))
                        (batch_starts (List.length (m :: ms))))
                = expected_progress (List.length (m :: ms))).
        { rewrite expected_progress_states. reflexivity. }
        apply Hrest; auto.
        { exists []. rewrite app_nil_r. now rewrite Hexp. }
        { repeat (constructor; [split; reflexivity|]).
          apply Forall_forall. intros st Hin. apply in_map_iff in Hin.
          destruct Hin as (b & <- & _). split; reflexivity. }
        { left. repeat split; auto.
          rewrite map_app, Hexp. apply expected_progress_sorted. }
    + exists [connecting_state; listing_state], (failure_state e).
      split; [reflexivity|]. apply Hrest; auto.
      * eexists; reflexivity.
      * right. split; [discriminate|reflexivity].
  - exists [connecting_state], (failure_state e).
    split; [reflexivity|]. apply Hrest; auto.
    + rewrite expected_progress_states. eexists; reflexivity.
    + right. split; [discriminate|reflexivity].
Qed.

Lemma mailbox_progress :
  map progress
    (published (trace (scan_emails_api Lab.unicode Lab.insertion_order
                         (Lab.gmail ["m1"; "m2"; "m3"] None) 500)))
  = [5; 10; 15; 95; 100]%Z.
Proof. reflexivity. Qed.

(** C7 as worded fails on a run that ends in an error: the second batch of
    150 messages fails, and the progress falls from 68 to 0. *)
Lemma error_run_counterexample :
  map progress
    (published (trace (scan_emails_api Lab.unicode Lab.insertion_order
                         (Lab.gmail (repeat "m1" 150) (Some 100)) 500)))
  = [5; 10; 15; 68; 0]%Z
  /\ ~ Sorted Z.le
         (map progress
            (published (trace (scan_emails_api Lab.unicode Lab.insertion_order
                                 (Lab.gmail (repeat "m1" 150) (Some 100)) 500)))).
Proof.
  assert (H : map progress
                (published (trace (scan_emails_api Lab.unicode Lab.insertion_order
                                     (Lab.gmail (repeat "m1" 150) (Some 100)) 500)))
              = [5; 10; 15; 68; 0]%Z) by (vm_compute; reflexivity).
  split; [exact H|]. rewrite H. intros Hs.
  do 3 (apply Sorted_inv in Hs; destruct Hs as [Hs _]).
  apply Sorted_inv in Hs. destruct Hs as [_ Hh].
  apply HdRel_inv in Hh. lia.
Qed.

(** ** Aggregation *)

Lemma process_message_uncounted (U : Unicode) (st : nat * senders) (f : Fetch) :
  counted f = false -> snd (process_message U st f) = snd st.
Proof.
  unfold counted, has_http_link, process_message.
  destruct f as [e|hs]; [reflexivity|].
  destruct (get_unsubscribe_from_headers hs) as [l|]; [|reflexivity].
  intros ->. reflexivity.
Qed.

Lemma process_message_counted (U : Unicode) (st : nat * senders) (hs : list Header) :
  has_http_link hs = true ->
  exists l,
    get_unsubscribe_from_headers hs = Some l /\
    startswith l "http" = true /\
    snd (process_message U st (FetchOk hs))
    = update (snd st) (snd (get_sender_info U hs)) (fun b =>
        mkBucket (S (count b)) (set_add l (links b))
                 (if (List.length (subjects b) <? 3)%nat
                  then subjects b ++ [get_subject hs] else subjects b)
                 (fst (get_sender_info U hs))).
Proof.
  unfold has_http_link, process_message.
  destruct (get_unsubscribe_from_headers hs) as [l|]; [|discriminate].
  intros Hl. exists l. rewrite Hl. repeat split.
  destruct (get_sender_info U hs) as [from_value domain]. reflexivity.
Qed.

Lemma set_add_not_nil (x : string) (s : list string) : set_add x s <> [].
Proof.
  unfold set_add. destruct (existsb (String.eqb x) s) eqn:H.
  - destruct s; [discriminate|discriminate].
  - destruct s; discriminate.
Qed.

Lemma set_add_Forall (P : string -> Prop) (x : string) (s : list string) :
  P x -> Forall P s -> Forall P (set_add x s).
Proof.
  intros Hx Hs. unfold set_add. destruct (existsb _ s); [exact Hs|].
  apply Forall_app. split; [exact Hs|]. constructor; [exact Hx|constructor].
Qed.

(** When every counted message has the sender domain [d], the aggregation
    state is empty until the first counted message and holds the one
    bucket of [d] afterwards; its count is the number of counted
    messages. *)
Lemma aggregate_single_domain (U : Unicode) (d : string) (fs : list Fetch) :
  (forall hs, In (FetchOk hs) fs -> has_http_link hs = true ->
              snd (get_sender_info U hs) = d) ->
  forall (st : nat * senders) (n : nat),
    (n = 0 /\ snd st = [] \/
     exists b, snd st = [(d, b)] /\ count b = n /\ 0 < n /\ links b <> [] /\
               Forall (fun l => startswith l "http" = true) (links b)) ->
    let n' := n + List.length (filter counted fs) in
    (n' = 0 /\ snd (fold_left (process_message U) fs st) = [] \/
     exists b, snd (fold_left (process_message U) fs st) = [(d, b)] /\
               count b = n' /\ 0 < n' /\ links b <> [] /\
               Forall (fun l => startswith l "http" = true) (links b)).
Proof.
  induction fs as [|f fs IH]; intros Hdom st n Hst; cbn zeta.
  - simpl. rewrite Nat.add_0_r. exact Hst.
  - cbn [fold_left filter].
    assert (Hdom' : forall hs, In (FetchOk hs) fs -> has_http_link hs = true ->
                               snd (get_sender_info U hs) = d)
      by (intros hs Hin; apply Hdom; right; exact Hin).
    destruct (counted f) eqn:Hc.
    + destruct f as [e|hs]; [discriminate|]. cbn [counted] in Hc.
      destruct (process_message_counted U st hs Hc) as (l & _ & Hl & Hupd).
      rewrite (Hdom hs (or_introl eq_refl) Hc) in Hupd.
      specialize (IH Hdom' (process_message U st (FetchOk hs)) (S n)).
      cbn zeta in IH. cbn [List.length].
      replace (n + S (List.length (filter counted fs)))
        with (S n + List.length (filter counted fs)) by lia.
      apply IH. right.
      destruct Hst as [(Hn & Hnil)|(b & Hb & Hcount & Hpos & Hne & Hall)].
      * rewrite Hnil in Hupd. cbn [update] in Hupd.
        eexists. split; [exact Hupd|]. cbn [count links default_bucket].
        repeat split; try lia; [apply set_add_not_nil|].
        apply set_add_Forall; [exact Hl|constructor].
      * rewrite Hb in Hupd. cbn [update] in Hupd.
        rewrite String.eqb_refl in Hupd.
        eexists. split; [exact Hupd|]. cbn [count links].
        repeat split; try lia; [apply set_add_not_nil|].
        apply set_add_Forall; assumption.
    + specialize (IH Hdom' (process_message U st f) n). cbn zeta in IH.
      apply IH. rewrite (process_message_uncounted U st f Hc). exact Hst.
Qed.

Lemma filter_all {A} (p : A -> bool) (l : list A) :
  Forall (fun x => p x = true) l -> filter p l = l.
Proof.
  induction 1 as [|x l Hx _ IH]; simpl; [reflexivity|].
  now rewrite Hx, IH.
Qed.

(** The final loop on a single bucket with links. *)
Lemma collect_single
    (set_iter : list string -> list string) (d : string) (b : Bucket) :
  iteration_order set_iter ->
  links b <> [] ->
  Forall (fun l => startswith l "http" = true) (links b) ->
  exists l,
    In l (links b) /\
    collect set_iter (sorted_senders [(d, b)])
    = [mkOpportunity d (count b) (from b) l (subjects b)].
Proof.
  intros Hiter Hne Hall. cbn [sorted_senders fold_right insert_sender collect].
  pose proof (Hiter (links b)) as Hperm.
  rewrite filter_all.
  - destruct (set_iter (links b)) as [|l r] eqn:Hs.
    + apply Permutation_nil in Hperm. contradiction.
    + exists l. split; [|reflexivity].
      apply (Permutation_in l Hperm). left. reflexivity.
  - rewrite Forall_forall in *. intros l Hin. apply Hall.
    apply (Permutation_in l Hperm Hin).
Qed.

Lemma filter_none {A} (p : A -> bool) (l : list A) :
  List.length (filter p l) = 0 -> Forall (fun x => p x = false) l.
Proof.
  induction l as [|x l IH]; cbn [filter]; [constructor|].
  destruct (p x) eqn:Hx; [discriminate|].
  intros H. constructor; auto.
Qed.

(** Without a counted message there is no opportunity. *)
Lemma no_linked_message_no_opportunity (U : Unicode)
    (set_iter : list string -> list string) (G : Gmail) (limit : Z) :
  Forall (fun id => counted (messages_get G id) = false) (listed G limit) ->
  result (scan_emails_api U set_iter G limit) = Return [].
Proof.
  intros Hnone. rewrite scan_emails_api_cases. unfold listed in Hnone.
  destruct (get_gmail_service G) as [[err|]|e]; try reflexivity.
  destruct (messages_list G limit) as [[|m ms]|e]; try reflexivity.
  cbv zeta.
  destruct (run_batches U G (m :: ms) _ _ _) as [t [st|e]] eqn:Hr; [|reflexivity].
  apply run_batches_returned in Hr. subst st. unfold result, snd at 1.
  assert (H : forall ids st,
             Forall (fun id => counted (messages_get G id) = false) ids ->
             snd (fold_left (process_message U) (map (messages_get G) ids) st)
             = snd st).
  { induction ids as [|i ids IH]; intros st Hf; [reflexivity|].
    inversion Hf; subst. cbn [map fold_left]. rewrite IH by assumption.
    now apply process_message_uncounted. }
  rewrite H by exact Hnone. reflexivity.
Qed.

(** C8, as the code has it.  Let the provider list the messages [ids], let
    no batch fail, and let every message for which the extractor finds an
    HTTP(S) link have the sender domain [d]; [M] is the number of messages
    with such a link.  When [M >= 1] the run ends with exactly one
    opportunity, whose domain is [d] and whose count is [M]; when [M = 0]
    it ends with none.  A message without such a link (a failed fetch, no
    [list-unsubscribe] header, a [mailto:]-only value) leaves the
    aggregation state as it was. *)
Theorem one_opportunity_counts_linked_messages (U : Unicode)
    (set_iter : list string -> list string) (G : Gmail) (limit : Z)
    (ids : list string) (d : string) :
  iteration_order set_iter ->
  get_gmail_service G = Return None ->
  messages_list G limit = Return ids ->
  (forall s batch, batch_execute G s batch = None) ->
  (forall id hs, In id ids -> messages_get G id = FetchOk hs ->
                 has_http_link hs = true -> snd (get_sender_info U hs) = d) ->
  (1 <= List.length (filter (fun id => counted (messages_get G id)) ids) ->
   exists opp,
     result (scan_emails_api U set_iter G limit) = Return [opp] /\
     o_domain opp = d /\
     o_count opp
     = List.length (filter (fun id => counted (messages_get G id)) ids))
  /\ (List.length (filter (fun id => counted (messages_get G id)) ids) = 0 ->
      result (scan_emails_api U set_iter G limit) = Return [])
  /\ (forall st f, counted f = false -> snd (process_message U st f) = snd st).
Proof.
  intros Hiter Hsvc Hlist Hok Hdom.
  split; [|split; [|apply process_message_uncounted]].
  - intros HM.
    rewrite scan_emails_api_cases, Hsvc, Hlist.
    destruct ids as [|m ms]; [simpl in HM; lia|].
    cbv zeta. rewrite (run_batches_all U G (m :: ms) (0, []) Hok).
    generalize dependent (m :: ms). clear m ms. intros ids Hlist Hdom HM.
    destruct (aggregate_single_domain U d (map (messages_get G) ids)) with
      (st := (0, @nil (string * Bucket))) (n := 0)
      as [(Hn & _)|(b & Hb & Hcount & Hpos & Hne & Hall)].
    + intros hs Hin Hlink. apply in_map_iff in Hin.
      destruct Hin as (id & Hid & Hin). eapply Hdom; eauto.
    + left. split; reflexivity.
    + exfalso. rewrite filter_map_swap, length_map in Hn. simpl in Hn. lia.
    + rewrite Hb.
      destruct (collect_single set_iter d b Hiter Hne Hall) as (l & _ & Hc).
      rewrite Hc. eexists. split; [reflexivity|]. split; [reflexivity|].
      cbn [o_count]. rewrite Hcount, filter_map_swap, length_map. reflexivity.
  - intros HM. apply no_linked_message_no_opportunity.
    unfold listed. rewrite Hlist. now apply filter_none.
Qed.

Lemma insertion_order_valid : iteration_order Lab.insertion_order.
Proof. intros s. apply Permutation_refl. Qed.

Lemma reverse_order_valid : iteration_order Lab.reverse_order.
Proof. intros s. apply Permutation_sym, Permutation_rev. Qed.

Lemma one_opportunity_counts_linked_messages_witness :
  exists opp,
    result (scan_emails_api Lab.unicode Lab.insertion_order
              (Lab.gmail ["m1"; "m2"; "m3"] None) 500) = Return [opp] /\
    o_domain opp = "shop.example" /\
    o_count opp
    = List.length
        (filter (fun id => counted
                   (messages_get (Lab.gmail ["m1"; "m2"; "m3"] None) id))
           ["m1"; "m2"; "m3"]).
Proof.
  apply (proj1 (one_opportunity_counts_linked_messages Lab.unicode
                  Lab.insertion_order
                  (Lab.gmail ["m1"; "m2"; "m3"] None) 500 ["m1"; "m2"; "m3"]
                  "shop.example"
                  insertion_order_valid eq_refl eq_refl (fun _ _ => eq_refl)
                  ltac:(intros id hs [<-|[<-|[<-|[]]]] Hget _;
                        vm_compute in Hget; inversion Hget; subst;
                        reflexivity))).
  vm_compute. lia.
Defined.

(** C8 as worded fails when no message has an HTTP(S) link: the one
    message of [shop.example] carries a [mailto:] link only, so [M = 0],
    and the run ends with no opportunity instead of one with count 0. *)
Lemma no_link_counterexample :
  messages_list (Lab.gmail ["m2"] None) 500 = Return ["m2"]
  /\ messages_get (Lab.gmail ["m2"] None) "m2"
     = FetchOk (Lab.promo "<mailto:leave@shop.example>")
  /\ snd (get_sender_info Lab.unicode (Lab.promo "<mailto:leave@shop.example>"))
     = "shop.example"
  /\ List.length (filter (fun id => counted
                            (messages_get (Lab.gmail ["m2"] None) id)) ["m2"])
     = 0
  /\ result (scan_emails_api Lab.unicode Lab.insertion_order
               (Lab.gmail ["m2"] None) 500) = Return []
  /\ ~ (exists opp,
          result (scan_emails_api Lab.unicode Lab.insertion_order
                    (Lab.gmail ["m2"] None) 500) = Return [opp] /\
          o_domain opp = "shop.example" /\
          o_count opp = 0).
Proof.
  repeat (split; [reflexivity|]).
  intros (opp & H & _). vm_compute in H. discriminate H.
Qed.

Lemma mailbox_run :
  result (scan_emails_api Lab.unicode Lab.insertion_order
            (Lab.gmail ["m1"; "m2"; "m3"] None) 500)
  = Return [mkOpportunity "shop.example" 2 "Shop Deals <deals@Shop.Example>"
              "https://shop.example/u/1" ["Weekly deals"; "Weekly deals"]].
Proof. reflexivity. Qed.

(** ** The representative link *)

Lemma insert_sender_In (x y : string * Bucket) (l : senders) :
  In x (insert_sender y l) <-> x = y \/ In x l.
Proof.
  induction l as [|z l IH]; simpl.
  - intuition congruence.
  - destruct (count (snd y) <? count (snd z))%nat; simpl.
    + rewrite IH. intuition congruence.
    + intuition congruence.
Qed.

Lemma sorted_senders_In (x : string * Bucket) (d : senders) :
  In x (sorted_senders d) <-> In x d.
Proof.
  unfold sorted_senders. induction d as [|y d IH]; simpl; [tauto|].
  rewrite insert_sender_In, IH. intuition congruence.
Qed.

Lemma update_In (sd : senders) (k : string) (F : Bucket -> Bucket)
    (d : string) (b' : Bucket) :
  In (d, b') (update sd k F) ->
  In (d, b') sd \/
  d = k /\ exists b, (In (k, b) sd \/ b = default_bucket) /\ b' = F b.
Proof.
  induction sd as [|[k' b] sd IH]; simpl.
  - intros [H|[]]. inversion H; subst. right. split; [reflexivity|].
    exists default_bucket. auto.
  - destruct (k =? k') eqn:Hk; simpl.
    + apply String.eqb_eq in Hk. subst k'. intros [H|H].
      * inversion H; subst. right. split; [reflexivity|]. exists b. auto.
      * left. right. exact H.
    + intros [H|H]; [left; left; exact H|].
      destruct (IH H) as [Hin|(-> & b0 & [Hin | -> ] & ->)].
      * left. right. exact Hin.
      * right. split; [reflexivity|]. exists b0. auto.
      * right. split; [reflexivity|]. exists default_bucket. auto.
Qed.

Lemma set_add_In (x y : string) (s : list string) :
  In y (set_add x s) -> y = x \/ In y s.
Proof.
  unfold set_add. destruct (existsb _ s); [auto|].
  intros H. apply in_app_or in H. destruct H as [H|[H|[]]]; auto.
Qed.

Lemma set_add_NoDup (x : string) (s : list string) :
  NoDup s -> NoDup (set_add x s).
Proof.
  intros Hs. unfold set_add. destruct (existsb (String.eqb x) s) eqn:Hx; [exact Hs|].
  apply NoDup_app; [exact Hs|repeat constructor; auto|].
  intros y Hin [Heq|[]]. subst y.
  assert (existsb (String.eqb x) s = true)
    by (apply existsb_exists; exists x; split; [exact Hin|apply String.eqb_refl]).
  congruence.
Qed.

Lemma hits_app (U : Unicode) (a b : list Fetch) : hits U (a ++ b) = hits U a ++ hits U b.
Proof. unfold hits. apply flat_map_app. Qed.

(** Every link of a bucket was extracted from a counted message of the
    bucket's domain, and no link is held twice. *)
Lemma aggregate_links (U : Unicode) (fs : list Fetch) :
  forall (st : nat * senders) (seen : list (string * string)),
    (forall d b, In (d, b) (snd st) ->
       NoDup (links b) /\ forall l, In l (links b) -> In (d, l) seen) ->
    forall d b, In (d, b) (snd (fold_left (process_message U) fs st)) ->
      NoDup (links b) /\ forall l, In l (links b) -> In (d, l) (seen ++ hits U fs).
Proof.
  induction fs as [|f fs IH]; intros st seen Hst d b Hin.
  - simpl in *. rewrite app_nil_r. auto.
  - cbn [fold_left] in Hin.
    change (f :: fs) with ([f] ++ fs). rewrite hits_app, app_assoc.
    apply (IH (process_message U st f) (seen ++ hits U [f])); [|exact Hin].
    clear d b Hin. intros d b Hin.
    destruct (counted f) eqn:Hc.
    + destruct f as [e|hs]; [discriminate|]. cbn [counted] in Hc.
      destruct (process_message_counted U st hs Hc) as (l & Hget & Hl & Hupd).
      assert (Hhit : hits U [FetchOk hs] = [(snd (get_sender_info U hs), l)]).
      { unfold hits, hit. cbn [flat_map]. rewrite Hget, Hl. reflexivity. }
      rewrite Hupd in Hin. apply update_In in Hin.
      destruct Hin as [Hin|(-> & b0 & Hb0 & ->)].
      * destruct (Hst d b Hin) as [Hnd Hsub]. split; [exact Hnd|].
        intros l' Hl'. apply in_or_app. left. auto.
      * cbn [links].
        assert (Hold : NoDup (links b0) /\
                       forall l', In l' (links b0) ->
                                  In (snd (get_sender_info U hs), l') seen).
        { destruct Hb0 as [Hb0 | -> ]; [apply Hst; exact Hb0|].
          split; [constructor|intros l' []]. }
        destruct Hold as [Hnd Hsub]. split; [apply set_add_NoDup; exact Hnd|].
        intros l' Hl'. apply set_add_In in Hl'. apply in_or_app.
        destruct Hl' as [ -> |Hl'].
        { right. rewrite Hhit. left. reflexivity. }
        { left. auto. }
    + rewrite (process_message_uncounted U st f Hc) in Hin.
      destruct (Hst d b Hin) as [Hnd Hsub]. split; [exact Hnd|].
      intros l' Hl'. apply in_or_app. left. auto.
Qed.

Lemma filter_nil_perm {A} (p : A -> bool) (a b : list A) :
  Permutation a b -> filter p a = [] -> filter p b = [].
Proof.
  intros Hperm Ha. destruct (filter p b) as [|x r] eqn:Hb; [reflexivity|].
  assert (Hx : In x (filter p b)) by (rewrite Hb; left; reflexivity).
  apply filter_In in Hx. destruct Hx as [Hin Hpx].
  assert (Hxa : In x (filter p a)).
  { apply filter_In. split; [|exact Hpx].
    apply (Permutation_in x (Permutation_sym Hperm) Hin). }
  rewrite Ha in Hxa. destruct Hxa.
Qed.

Section TwoOrders.
Variables iter1 iter2 : list string -> list string.
Hypothesis valid1 : iteration_order iter1.
Hypothesis valid2 : iteration_order iter2.

Lemma http_links_both_or_neither (s : list string) :
  filter (fun l => startswith l "http") (iter1 s) = [] ->
  filter (fun l => startswith l "http") (iter2 s) = [].
Proof.
  apply filter_nil_perm.
  eapply Permutation_trans; [apply valid1|apply Permutation_sym, valid2].
Qed.

End TwoOrders.

(** Apart from the link, the opportunities do not depend on the order in
    which a set is iterated. *)
Lemma collect_unlinked (iter1 iter2 : list string -> list string)
    (sorted : senders) :
  iteration_order iter1 -> iteration_order iter2 ->
  map unlinked (collect iter1 sorted) = map unlinked (collect iter2 sorted).
Proof.
  intros H1 H2. induction sorted as [|[d b] l IH]; [reflexivity|].
  cbn [collect].
  destruct (filter _ (iter1 (links b))) as [|l1 r1] eqn:E1;
    destruct (filter _ (iter2 (links b))) as [|l2 r2] eqn:E2.
  - exact IH.
  - apply (http_links_both_or_neither iter1 iter2 H1 H2) in E1. congruence.
  - apply (http_links_both_or_neither iter2 iter1 H2 H1) in E2. congruence.
  - cbn [map]. rewrite IH. reflexivity.
Qed.

(** The link of an opportunity is an HTTP(S) link of its bucket. *)
Lemma collect_In (set_iter : list string -> list string) (sorted : senders)
    (o : Opportunity) :
  iteration_order set_iter ->
  In o (collect set_iter sorted) ->
  exists b, In (o_domain o, b) sorted /\ In (o_link o) (links b) /\
            startswith (o_link o) "http" = true.
Proof.
  intros Hiter. induction sorted as [|[d b] l IH]; [intros []|].
  cbn [collect].
  destruct (filter _ (set_iter (links b))) as [|l0 r] eqn:E.
  - intros Hin. destruct (IH Hin) as (b' & Hb' & Hl).
    exists b'. split; [right; exact Hb'|exact Hl].
  - intros [<-|Hin].
    + cbn [o_domain o_link]. exists b. split; [left; reflexivity|].
      assert (H0 : In l0 (filter (fun l => startswith l "http")
                            (set_iter (links b))))
        by (rewrite E; left; reflexivity).
      apply filter_In in H0. destruct H0 as [H0 Hhttp]. split; [|exact Hhttp].
      apply (Permutation_in l0 (Hiter (links b)) H0).
    + destruct (IH Hin) as (b' & Hb' & Hl).
      exists b'. split; [right; exact Hb'|exact Hl].
Qed.

Lemma collect_ext (iter1 iter2 : list string -> list string) (sorted : senders) :
  (forall d b, In (d, b) sorted -> iter1 (links b) = iter2 (links b)) ->
  collect iter1 sorted = collect iter2 sorted.
Proof.
  induction sorted as [|[d b] l IH]; intros H; [reflexivity|].
  cbn [collect]. rewrite (H d b (or_introl eq_refl)).
  rewrite IH by (intros d' b' Hin; apply (H d' b'); right; exact Hin).
  reflexivity.
Qed.

(** A set with at most one element has one iteration order. *)
Lemma single_element_order (set_iter : list string -> list string)
    (s : list string) :
  iteration_order set_iter ->
  NoDup s -> (forall x y, In x s -> In y s -> x = y) ->
  set_iter s = s.
Proof.
  intros Hiter Hnd Heq. pose proof (Hiter s) as Hperm.
  destruct s as [|x [|y r]].
  - apply Permutation_sym, Permutation_nil in Hperm. exact Hperm.
  - apply Permutation_sym, Permutation_length_1_inv in Hperm. exact Hperm.
  - exfalso. inversion Hnd as [|? ? Hnotin _]; subst. apply Hnotin.
    left. symmetry. apply Heq; simpl; auto.
Qed.

(** C9, as the code has it.  Two runs over the same mailbox that differ
    only in the order in which a set is iterated publish the same states
    and end with opportunity lists that agree on domain, count, sender and
    subjects at every position.  The link of each opportunity is an HTTP(S)
    link extracted from a counted message of its domain.  When no domain
    has two counted messages with different links, the two lists are
    equal. *)
Theorem representative_link_choice (U : Unicode)
    (iter1 iter2 : list string -> list string) (G : Gmail) (limit : Z) :
  iteration_order iter1 ->
  iteration_order iter2 ->
  exists os1 os2,
    result (scan_emails_api U iter1 G limit) = Return os1 /\
    result (scan_emails_api U iter2 G limit) = Return os2 /\
    trace (scan_emails_api U iter1 G limit) = trace (scan_emails_api U iter2 G limit) /\
    map unlinked os1 = map unlinked os2 /\
    (forall o, In o os1 \/ In o os2 ->
       startswith (o_link o) "http" = true /\
       In (o_domain o, o_link o)
          (hits U (map (messages_get G) (listed G limit)))) /\
    ((forall d l1 l2,
         In (d, l1) (hits U (map (messages_get G) (listed G limit))) ->
         In (d, l2) (hits U (map (messages_get G) (listed G limit))) ->
         l1 = l2) ->
     os1 = os2).
Proof.
  intros H1 H2. rewrite !scan_emails_api_cases. unfold listed.
  assert (Hnone : forall t : list event,
            exists os1 os2 : list Opportunity,
              result (t, Return (@nil Opportunity)) = Return os1 /\
              result (t, Return (@nil Opportunity)) = Return os2 /\
              trace (t, Return (@nil Opportunity))
              = trace (t, Return (@nil Opportunity)) /\
              map unlinked os1 = map unlinked os2 /\
              (forall o, In o os1 \/ In o os2 ->
                 startswith (o_link o) "http" = true /\
                 In (o_domain o, o_link o)
                    (hits U (map (messages_get G)
                             match messages_list G limit with
                             | Return ids => ids
                             | Raise _ => []
                             end))) /\
              ((forall d l1 l2,
                   In (d, l1) (hits U (map (messages_get G)
                                       match messages_list G limit with
                                       | Return ids => ids
                                       | Raise _ => []
                                       end)) ->
                   In (d, l2) (hits U (map (messages_get G)
                                       match messages_list G limit with
                                       | Return ids => ids
                                       | Raise _ => []
                                       end)) ->
                   l1 = l2) ->
               os1 = os2)).
  { intros t. exists [], []. repeat split; auto; destruct H as [[]|[]]. }
  destruct (get_gmail_service G) as [[err|]|e]; [apply Hnone| |apply Hnone].
  destruct (messages_list G limit) as [[|m ms]|e];
    [apply Hnone| |apply Hnone].
  clear Hnone. cbv zeta.
  destruct (run_batches U G (m :: ms) _ _ _) as [t [st|e]] eqn:Hr.
  2: { exists [], []. repeat split; auto; destruct H as [[]|[]]. }
  apply run_batches_returned in Hr.
  pose proof (aggregate_links U (map (messages_get G) (m :: ms)) (0, []) []
                ltac:(intros d b [])) as Hlinks.
  rewrite <- Hr in Hlinks. cbn [app] in Hlinks.
  pose proof (collect_unlinked iter1 iter2 (sorted_senders (snd st)) H1 H2)
    as Hskel.
  eexists; eexists. split; [reflexivity|]. split; [reflexivity|].
  unfold trace, fst. split; [|split; [exact Hskel|split]].
  - apply (f_equal (@List.length _)) in Hskel. rewrite !length_map in Hskel.
    rewrite Hskel. reflexivity.
  - assert (Hone : forall it, iteration_order it ->
               forall o, In o (collect it (sorted_senders (snd st))) ->
               startswith (o_link o) "http" = true /\
               In (o_domain o, o_link o)
                  (hits U (map (messages_get G) (m :: ms)))).
    { intros it Hit o Hin.
      destruct (collect_In it _ o Hit Hin) as (b & Hb & Hl & Hhttp).
      split; [exact Hhttp|].
      apply (proj1 (sorted_senders_In _ _)) in Hb.
      destruct (Hlinks _ _ Hb) as [_ Hsub]. apply Hsub. exact Hl. }
    intros o [Hin|Hin]; eauto.
  - intros Hsingle. apply collect_ext. intros d b Hb.
    apply (proj1 (sorted_senders_In _ _)) in Hb.
    destruct (Hlinks _ _ Hb) as [Hnd Hsub].
    assert (Heq : forall x y, In x (links b) -> In y (links b) -> x = y)
      by (intros x y Hx Hy; apply (Hsingle d); apply Hsub; assumption).
    rewrite (single_element_order iter1 _ H1 Hnd Heq).
    rewrite (single_element_order iter2 _ H2 Hnd Heq).
    reflexivity.
Qed.

Lemma representative_link_choice_witness :
  exists os1 os2,
    result (scan_emails_api Lab.unicode Lab.insertion_order
              (Lab.gmail ["m1"; "m3"] None) 500) = Return os1 /\
    result (scan_emails_api Lab.unicode Lab.reverse_order
              (Lab.gmail ["m1"; "m3"] None) 500) = Return os2 /\
    trace (scan_emails_api Lab.unicode Lab.insertion_order (Lab.gmail ["m1"; "m3"] None) 500)
    = trace (scan_emails_api Lab.unicode Lab.reverse_order (Lab.gmail ["m1"; "m3"] None) 500) /\
    map unlinked os1 = map unlinked os2 /\
    (forall o, In o os1 \/ In o os2 ->
       startswith (o_link o) "http" = true /\
       In (o_domain o, o_link o)
          (hits Lab.unicode (map (messages_get (Lab.gmail ["m1"; "m3"] None))
                   (listed (Lab.gmail ["m1"; "m3"] None) 500)))) /\
    ((forall d l1 l2,
         In (d, l1) (hits Lab.unicode (map (messages_get (Lab.gmail ["m1"; "m3"] None))
                            (listed (Lab.gmail ["m1"; "m3"] None) 500))) ->
         In (d, l2) (hits Lab.unicode (map (messages_get (Lab.gmail ["m1"; "m3"] None))
                            (listed (Lab.gmail ["m1"; "m3"] None) 500))) ->
         l1 = l2) ->
     os1 = os2).
Proof.
  exact (representative_link_choice Lab.unicode Lab.insertion_order Lab.reverse_order
           (Lab.gmail ["m1"; "m3"] None) 500
           insertion_order_valid reverse_order_valid).
Defined.

(** C9 as worded fails: two messages of one domain carry different links,
    and the two iteration orders of the set of the two links make the run
    emit one or the other. *)
Lemma representative_link_counterexample :
  iteration_order Lab.insertion_order /\
  iteration_order Lab.reverse_order /\
  result (scan_emails_api Lab.unicode Lab.insertion_order (Lab.gmail ["m1"; "m3"] None) 500)
  = Return [mkOpportunity "shop.example" 2 "Shop Deals <deals@Shop.Example>"
              "https://shop.example/u/1" ["Weekly deals"; "Weekly deals"]] /\
  result (scan_emails_api Lab.unicode Lab.reverse_order (Lab.gmail ["m1"; "m3"] None) 500)
  = Return [mkOpportunity "shop.example" 2 "Shop Deals <deals@Shop.Example>"
              "https://shop.example/u/2" ["Weekly deals"; "Weekly deals"]] /\
  result (scan_emails_api Lab.unicode Lab.insertion_order (Lab.gmail ["m1"; "m3"] None) 500)
  <> result (scan_emails_api Lab.unicode Lab.reverse_order (Lab.gmail ["m1"; "m3"] None) 500).
Proof.
  split; [exact insertion_order_valid|].
  split; [exact reverse_order_valid|].
  split; [reflexivity|]. split; [reflexivity|].
  vm_compute. discriminate.
Qed.

End AggregationFacts.

(* ===================================================================== *)
(** * Further results: the URL safety gate                                *)
(* ===================================================================== *)

Module ValidatorFacts.
Import Helpers Props.

(** X1.  A URL with an accepted scheme but no host (or an empty one) is
    rejected with "Invalid URL: No hostname found.", before any lookup. *)
Theorem validate_requires_hostname
    (E : Env) (url : string) (parsed : ParseResult) :
  urlparse E url = Some parsed ->
  scheme parsed = "http" \/ scheme parsed = "https" ->
  hostname parsed = None \/ hostname parsed = Some "" ->
  validate_unsafe_url E url
  = ([], Raise (ValueError "Invalid URL: No hostname found.")).
Proof.
  intros Hp Hs Hh. unfold validate_unsafe_url. rewrite Hp.
  apply HelpersFacts.str_in_http_https in Hs. rewrite Hs. cbn [negb].
  destruct Hh as [-> | ->]; reflexivity.
Qed.

Lemma validate_requires_hostname_witness :
  validate_unsafe_url (Lab.world 200) "https:///path"
  = ([], Raise (ValueError "Invalid URL: No hostname found.")).
Proof.
  apply (validate_requires_hostname (Lab.world 200) "https:///path"
           (mkParseResult "https" None));
    [reflexivity | right; reflexivity | left; reflexivity].
Defined.

(** X2.  When the resolver fails with [gaierror], the validator raises
    "Could not resolve hostname: h" after that one lookup. *)
Theorem validate_unresolvable_host
    (E : Env) (url host msg : string) (parsed : ParseResult) :
  urlparse E url = Some parsed ->
  scheme parsed = "http" \/ scheme parsed = "https" ->
  hostname parsed = Some host -> host <> "" ->
  getaddrinfo E host = Raise (GaiError msg) ->
  validate_unsafe_url E url
  = ([EvGetaddrinfo host],
     Raise (ValueError ("Could not resolve hostname: " ++ host))).
Proof.
  intros Hp Hs Hh Hne Hr. unfold validate_unsafe_url. rewrite Hp.
  apply HelpersFacts.str_in_http_https in Hs. rewrite Hs, Hh. cbn [negb].
  destruct host as [|c host]; [congruence|].
  unfold resolve_and_check. rewrite Hr. reflexivity.
Qed.

Lemma validate_unresolvable_host_witness :
  validate_unsafe_url (Lab.world 200) "http://nowhere.example/"
  = ([EvGetaddrinfo "nowhere.example"],
     Raise (ValueError ("Could not resolve hostname: " ++ "nowhere.example"))).
Proof.
  apply (validate_unresolvable_host (Lab.world 200) "http://nowhere.example/"
           "nowhere.example" "[Errno -2] Name or service not known"
           (mkParseResult "http" (Some "nowhere.example")));
    [reflexivity | left; reflexivity | reflexivity | discriminate | reflexivity].
Defined.

(** X3.  When the resolver answers with no address at all, the validator
    raises "Could not resolve any valid IP addresses for hostname: h". *)
Theorem validate_empty_answer (E : Env) (url host : string) :
  resolves_to E url host [] ->
  validate_unsafe_url E url
  = ([EvGetaddrinfo host],
     Raise (ValueError
              ("Could not resolve any valid IP addresses for hostname: "
               ++ host))).
Proof.
  intros H. rewrite (HelpersFacts.validate_after_resolution E url host [] H).
  reflexivity.
Qed.

(** X4.  The validator raises nothing but [ValueError], except for an
    exception of the resolver that is neither a [gaierror] nor a
    [ValueError], which it lets through. *)
Theorem validate_raises_ValueError
    (E : Env) (url : string) (t : list event) (e : exn) :
  validate_unsafe_url E url = (t, Raise e) ->
  is_ValueError e = true \/
  exists host, getaddrinfo E host = Raise e /\
               is_gaierror e = false /\ is_ValueError e = false.
Proof.
  unfold validate_unsafe_url.
  destruct (urlparse E url) as [p|]; [|intros H; inversion H; auto].
  destruct (negb _); [intros H; inversion H; auto|].
  destruct (hostname p) as [[|c h]|]; try (intros H; inversion H; auto; fail).
  unfold resolve_and_check. cbn [emit bind].
  destruct (getaddrinfo E (String c h)) as [addrs|e0] eqn:Hr; simpl.
  - destruct (HelpersFacts.first_offender E addrs)
      as [Hok|(pre & s & post & -> & Hpre & Hs)].
    + rewrite (HelpersFacts.check_addresses_ok E _ Hok). simpl.
      destruct addrs; simpl; intros H; inversion H; auto.
    + rewrite (HelpersFacts.check_addresses_bad E _ post _ Hpre Hs). simpl.
      intros H; inversion H; auto.
  - destruct (is_gaierror e0) eqn:Hg; simpl; [intros H; inversion H; auto|].
    destruct (is_ValueError e0) eqn:Hv; simpl; intros H; inversion H; subst.
    + left. exact Hv.
    + right. exists (String c h). auto.
Qed.

Lemma validate_raises_ValueError_witness :
  is_ValueError (ValueError "Invalid or restricted IP address: 10.0.0.5") = true \/
  exists host,
    getaddrinfo (Lab.world 200) host
    = Raise (ValueError "Invalid or restricted IP address: 10.0.0.5") /\
    is_gaierror (ValueError "Invalid or restricted IP address: 10.0.0.5") = false /\
    is_ValueError (ValueError "Invalid or restricted IP address: 10.0.0.5") = false.
Proof.
  apply (validate_raises_ValueError (Lab.world 200)
           "http://intranet.example/admin" [EvGetaddrinfo "intranet.example"]).
  reflexivity.
Defined.

(** X5.  The validator's only contact with the outside is at most one
    lookup, of the host [urlparse] reports; it opens no connection. *)
Theorem validate_looks_up_parsed_host (E : Env) (url : string) :
  trace (validate_unsafe_url E url) = [] \/
  exists parsed host,
    urlparse E url = Some parsed /\ hostname parsed = Some host /\
    trace (validate_unsafe_url E url) = [EvGetaddrinfo host].
Proof.
  unfold validate_unsafe_url.
  destruct (urlparse E url) as [p|] eqn:Hp; [|left; reflexivity].
  destruct (negb _); [left; reflexivity|].
  destruct (hostname p) as [[|c h]|] eqn:Hh; try (left; reflexivity).
  right. exists p, (String c h). split; [reflexivity|]. split; [exact Hh|].
  unfold resolve_and_check. simpl.
  destruct (getaddrinfo E (String c h)) as [addrs|e]; simpl.
  - pose proof (UnsubscribeFacts.check_addresses_trace E addrs []) as Ht.
    destruct (check_addresses E addrs []) as [t [[|a v]|e]];
      simpl in Ht; subst t; simpl; try reflexivity.
    destruct (is_gaierror e); simpl; [reflexivity|].
    destruct (is_ValueError e); reflexivity.
  - destruct (is_gaierror e); simpl; [reflexivity|].
    destruct (is_ValueError e); reflexivity.
Qed.

Lemma validate_empty_answer_witness :
  validate_unsafe_url Lab.silent_dns "https://news.example/unsub?id=7"
  = ([EvGetaddrinfo "news.example"],
     Raise (ValueError
              ("Could not resolve any valid IP addresses for hostname: "
               ++ "news.example"))).
Proof.
  apply (validate_empty_answer Lab.silent_dns).
  exists (mkParseResult "https" (Some "news.example")).
  repeat split; auto; discriminate.
Defined.

End ValidatorFacts.

(* ===================================================================== *)
(** * Further results: the query builder                                  *)
(* ===================================================================== *)

Module QueryFacts.
Import Helpers Props.

Lemma query_part_empty (prefix v : string) :
  query_part prefix v = [] <-> v = "".
Proof.
  unfold query_part. destruct v; split; intros H; congruence.
Qed.

Lemma query_part_nonempty (prefix v p : string) :
  In p (query_part prefix v) -> p <> "".
Proof.
  unfold query_part. destruct v as [|c v]; [intros []|].
  intros [<-|[]]. destruct prefix; discriminate.
Qed.

Lemma join_empty (sep : string) (parts : list string) :
  (forall p, In p parts -> p <> "") -> join sep parts = "" -> parts = [].
Proof.
  intros Hne. destruct parts as [|p [|q r]]; [reflexivity| |].
  - simpl. intros ->. exfalso. apply (Hne ""); simpl; auto.
  - cbn [join]. intros H. exfalso.
    destruct p as [|c p]; [apply (Hne ""); simpl; auto|discriminate].
Qed.

(** Also for the empty dictionary, the query is the joined parts. *)
Lemma build_gmail_query_parts (filters : list (string * string)) :
  build_gmail_query (Some filters) = join " " (query_parts filters).
Proof. destruct filters; reflexivity. Qed.

Lemma query_parts_nonempty (filters : list (string * string)) (p : string) :
  In p (query_parts filters) -> p <> "".
Proof.
  unfold query_parts.
  assert (Hmid : forall q,
             In q match filters_get filters "after_date",
                        filters_get filters "before_date" with
                  | EmptyString, EmptyString =>
                      query_part "older_than:" (filters_get filters "older_than")
                  | _, _ => []
                  end -> q <> "").
  { intros q. destruct (filters_get filters "after_date");
      [destruct (filters_get filters "before_date")|];
      try (intros []). apply query_part_nonempty. }
  intros Hp.
  apply in_app_or in Hp. destruct Hp as [Hp|Hp];
    [eapply query_part_nonempty; exact Hp|].
  apply in_app_or in Hp. destruct Hp as [Hp|Hp];
    [eapply query_part_nonempty; exact Hp|].
  apply in_app_or in Hp. destruct Hp as [Hp|Hp]; [apply Hmid; exact Hp|].
  repeat (apply in_app_or in Hp; destruct Hp as [Hp|Hp];
          [eapply query_part_nonempty; exact Hp|]).
  eapply query_part_nonempty; exact Hp.
Qed.

(** X6.  The query depends on nothing but the values of the seven keys
    [after_date], [before_date], [older_than], [larger_than], [category],
    [sender] and [label]: any other key of [filters] is ignored. *)
Theorem build_gmail_query_reads_seven_keys
    (filters filters' : list (string * string)) :
  (forall k, In k recognised_filters ->
             filters_get filters k = filters_get filters' k) ->
  build_gmail_query (Some filters) = build_gmail_query (Some filters').
Proof.
  intros H. rewrite !build_gmail_query_parts. unfold query_parts.
  rewrite !(H _) by (unfold recognised_filters; simpl; tauto).
  reflexivity.
Qed.

Lemma build_gmail_query_reads_seven_keys_witness :
  build_gmail_query
    (Some [("utm", "x"); ("category", "promotions"); ("older_than", "30d")])
  = build_gmail_query (Some [("older_than", "30d"); ("category", "promotions")]).
Proof.
  apply build_gmail_query_reads_seven_keys.
  intros k Hk. unfold recognised_filters in Hk. simpl in Hk.
  repeat (destruct Hk as [<-|Hk]; [reflexivity|]). destruct Hk.
Defined.

(** X7.  The query is empty exactly when none of the seven keys has a
    non-empty value; in particular for no filters at all. *)
Theorem build_gmail_query_empty_iff (filters : list (string * string)) :
  build_gmail_query (Some filters) = ""
  <-> forall k, In k recognised_filters -> filters_get filters k = "".
Proof.
  rewrite build_gmail_query_parts. split.
  - intros H. apply join_empty in H; [|apply query_parts_nonempty].
    unfold query_parts in H.
    apply app_eq_nil in H. destruct H as [Ha H].
    apply app_eq_nil in H. destruct H as [Hb H].
    apply query_part_empty in Ha. apply query_part_empty in Hb.
    rewrite Ha, Hb in H.
    apply app_eq_nil in H. destruct H as [Ho H].
    apply app_eq_nil in H. destruct H as [Hl H].
    apply app_eq_nil in H. destruct H as [Hc H].
    apply app_eq_nil in H. destruct H as [Hs Hlab].
    apply query_part_empty in Ho, Hl, Hc, Hs, Hlab.
    intros k Hk. unfold recognised_filters in Hk. simpl in Hk.
    repeat (destruct Hk as [<-|Hk]; [assumption|]). destruct Hk.
  - intros H. unfold query_parts.
    rewrite !(H _) by (unfold recognised_filters; simpl; tauto).
    reflexivity.
Qed.

(** X8.  When [after_date] or [before_date] is given, [older_than] has no
    effect on the query. *)
Theorem explicit_dates_override_older_than
    (filters : list (string * string)) (v : string) :
  filters_get filters "after_date" <> ""
  \/ filters_get filters "before_date" <> "" ->
  build_gmail_query (Some (("older_than", v) :: filters))
  = build_gmail_query (Some filters).
Proof.
  intros H. rewrite !build_gmail_query_parts. unfold query_parts.
  cbn [filters_get String.eqb Ascii.eqb Bool.eqb].
  destruct (filters_get filters "after_date") as [|a r];
    destruct (filters_get filters "before_date") as [|b r'];
    try reflexivity.
  destruct H; congruence.
Qed.

Lemma explicit_dates_override_older_than_witness :
  build_gmail_query
    (Some [("older_than", "30d"); ("after_date", "2024/01/01");
           ("sender", "shop.example")])
  = build_gmail_query
      (Some [("after_date", "2024/01/01"); ("sender", "shop.example")]).
Proof.
  apply (explicit_dates_override_older_than
           [("after_date", "2024/01/01"); ("sender", "shop.example")] "30d").
  left. discriminate.
Defined.

End QueryFacts.

(* ===================================================================== *)
(** * Further results: sender, subject and link extraction                *)
(* ===================================================================== *)

Module ExtractionFacts.
Import Helpers Props.

Lemma until_lt_no_lt (s : string) :
  has_char "<" s = false -> until_lt s = (s, "").
Proof.
  induction s as [|c s IH]; [reflexivity|].
  cbn [has_char until_lt]. rewrite Ascii.eqb_sym.
  destruct (Ascii.eqb c "<"); [discriminate|].
  cbn [orb]. intros H. now rewrite (IH H).
Qed.

Lemma until_lt_at_lt (d rest : string) :
  has_char "<" d = false ->
  until_lt (d ++ String "<" rest) = (d, String "<" rest).
Proof.
  induction d as [|c d IH]; [reflexivity|].
  cbn [has_char until_lt append]. rewrite Ascii.eqb_sym.
  destruct (Ascii.eqb c "<"); [discriminate|].
  cbn [orb]. intros H. now rewrite (IH H).
Qed.

Lemma until_gt_at_gt (a rest : string) :
  has_char ">" a = false ->
  until_gt (a ++ String ">" rest) = Some a.
Proof.
  induction a as [|c a IH]; [reflexivity|].
  cbn [has_char until_gt append]. rewrite Ascii.eqb_sym.
  destruct (Ascii.eqb c ">"); [discriminate|].
  cbn [orb]. intros H. now rewrite (IH H).
Qed.

Lemma search_name_addr_no_lt (s : string) :
  has_char "<" s = false -> search_name_addr s = None.
Proof.
  induction s as [|c s IH]; [reflexivity|].
  intros H. cbn [search_name_addr].
  unfold match_name_addr. rewrite (until_lt_no_lt _ H).
  cbn [has_char] in H. apply orb_false_elim in H. destruct H as [_ H].
  exact (IH H).
Qed.

Lemma search_name_addr_angle (d a rest : string) :
  has_char "<" d = false -> has_char ">" a = false -> a <> "" ->
  search_name_addr (d ++ String "<" (a ++ String ">" rest)) = Some (d, a).
Proof.
  intros Hd Ha Hne.
  assert (Hm : match_name_addr (d ++ String "<" (a ++ String ">" rest))
               = Some (d, a)).
  { unfold match_name_addr. rewrite (until_lt_at_lt _ _ Hd).
    rewrite (until_gt_at_gt _ _ Ha). destruct a; [congruence|reflexivity]. }
  destruct (d ++ String "<" (a ++ String ">" rest))%string;
    cbn [search_name_addr]; rewrite Hm; reflexivity.
Qed.

(** Headers before the first one of the wanted name are passed over. *)
Lemma get_sender_info_skip (U : Unicode) (pre l : list Header) :
  Forall (fun h => named "from" h = false) pre ->
  get_sender_info U (pre ++ l) = get_sender_info U l.
Proof.
  induction 1 as [|h pre Hh _ IH]; [reflexivity|].
  cbn [app get_sender_info]. unfold named in Hh. now rewrite Hh.
Qed.

(** X9.  A first [from] header without a [<] gives its raw value as both
    name and address, whatever headers follow. *)
Theorem bare_sender_is_returned_raw
    (U : Unicode) (pre post : list Header) (h : Header) :
  Forall (fun x => named "from" x = false) pre ->
  named "from" h = true ->
  has_char "<" (value h) = false ->
  get_sender_info U (pre ++ h :: post) = (value h, value h).
Proof.
  intros Hpre Hh Hv. rewrite (get_sender_info_skip U _ _ Hpre).
  cbn [get_sender_info]. unfold named in Hh. rewrite Hh.
  now rewrite (search_name_addr_no_lt _ Hv).
Qed.

Lemma bare_sender_is_returned_raw_witness :
  get_sender_info Lab.unicode
    ([mkHeader "Subject" "Hi"]
     ++ mkHeader "FROM" "jane@example.com" :: [mkHeader "From" "x <y@z>"])
  = (value (mkHeader "FROM" "jane@example.com"),
     value (mkHeader "FROM" "jane@example.com")).
Proof.
  apply bare_sender_is_returned_raw;
    [repeat constructor | reflexivity | reflexivity].
Defined.

(** X10.  A first [from] header of the form [display <address> ...] gives
    the address with the white space at its ends removed, and as name the
    display text with the white space at its ends and then the double
    quotes at its ends removed, or the address when nothing is left of the
    display text.  White space is what [str.strip()] removes, in ASCII and
    beyond. *)
Theorem angle_sender_is_split
    (U : Unicode) (pre post : list Header) (h : Header)
    (display address rest : string) :
  Forall (fun x => named "from" x = false) pre ->
  named "from" h = true ->
  value h = (display ++ String "<" (address ++ String ">" rest))%string ->
  has_char "<" display = false ->
  has_char ">" address = false ->
  address <> "" ->
  get_sender_info U (pre ++ h :: post)
  = (match strip (Ascii.eqb dquote) (strip_space U display) with
     | EmptyString => strip_space U address
     | n => n
     end,
     strip_space U address).
Proof.
  intros Hpre Hh Hv Hd Ha Hne. rewrite (get_sender_info_skip U _ _ Hpre).
  cbn [get_sender_info]. unfold named in Hh. rewrite Hh, Hv.
  rewrite (search_name_addr_angle _ _ _ Hd Ha Hne).
  destruct (strip (Ascii.eqb dquote) (strip_space U display)); reflexivity.
Qed.

Lemma angle_sender_is_split_witness :
  get_sender_info Lab.unicode
    ([] ++ mkHeader "From"
             (String dquote "Jane Doe" ++ String dquote " "
              ++ String "<" ("jane@example.com" ++ String ">" "")) :: [])
  = ("Jane Doe", "jane@example.com").
Proof.
  apply (angle_sender_is_split Lab.unicode [] []
           (mkHeader "From"
              (String dquote "Jane Doe" ++ String dquote " "
               ++ String "<" ("jane@example.com" ++ String ">" "")))
           (String dquote "Jane Doe" ++ String dquote " ")
           "jane@example.com" "");
    [constructor | reflexivity | reflexivity | reflexivity | reflexivity
    | discriminate].
Defined.

Lemma string_app_assoc (a b c : string) :
  ((a ++ b) ++ c = a ++ (b ++ c))%string.
Proof. induction a as [|x a IH]; cbn [append]; [reflexivity|now rewrite IH]. Qed.

Lemma strip_prefix_app (p s r : string) :
  strip_prefix p s = Some r -> s = (p ++ r)%string.
Proof.
  revert s. induction p as [|a p IH]; intros s; cbn [strip_prefix append].
  - intros H; inversion H; reflexivity.
  - destruct s as [|b s]; [discriminate|].
    destruct (Ascii.eqb a b) eqn:Hab; [|discriminate].
    apply Ascii.eqb_eq in Hab. subst b. intros H. now rewrite (IH _ H).
Qed.

Lemma until_gt_app (s run : string) :
  until_gt s = Some run ->
  has_char ">" run = false /\ exists post, s = (run ++ String ">" post)%string.
Proof.
  revert run. induction s as [|c s IH]; intros run; cbn [until_gt];
    [discriminate|].
  destruct (Ascii.eqb c ">") eqn:Hc.
  - intros H; inversion H; subst. apply Ascii.eqb_eq in Hc. subst c.
    split; [reflexivity|]. exists s. reflexivity.
  - destruct (until_gt s) as [r|]; [|discriminate].
    intros H; inversion H; subst.
    destruct (IH r eq_refl) as [Hr (post & ->)].
    split; [cbn [has_char]; rewrite Ascii.eqb_sym, Hc; exact Hr|].
    exists post. reflexivity.
Qed.

Lemma match_body_shape (pres : list string) (s g : string) :
  match_body pres s = Some g ->
  exists p run post,
    In p pres /\ g = (p ++ run)%string /\ run <> "" /\
    has_char ">" run = false /\ s = (g ++ String ">" post)%string.
Proof.
  induction pres as [|p ps IH]; cbn [match_body]; [discriminate|].
  assert (Hnext : match_body ps s = Some g ->
                  exists p0 run post,
                    In p0 (p :: ps) /\ g = (p0 ++ run)%string /\ run <> "" /\
                    has_char ">" run = false /\
                    s = (g ++ String ">" post)%string).
  { intros H. destruct (IH H) as (p0 & run & post & Hin & Hrest).
    exists p0, run, post. split; [right; exact Hin|exact Hrest]. }
  destruct (strip_prefix p s) as [rest|] eqn:Hp; [|exact Hnext].
  destruct (until_gt rest) as [[|c run]|] eqn:Hu; try exact Hnext.
  intros H; inversion H; subst.
  apply strip_prefix_app in Hp. apply until_gt_app in Hu.
  destruct Hu as [Hno (post & ->)].
  exists p, (String c run), post.
  split; [left; reflexivity|]. split; [reflexivity|].
  split; [discriminate|]. split; [exact Hno|].
  rewrite Hp. now rewrite string_app_assoc.
Qed.

(** A match of the search is a bracketed part of the text it searched. *)
Lemma search_bracketed_shape (pres : list string) (s g : string) :
  search_bracketed pres s = Some g ->
  exists pre post p run,
    s = (pre ++ String "<" (g ++ String ">" post))%string /\
    In p pres /\ g = (p ++ run)%string /\ run <> "" /\
    has_char ">" run = false.
Proof.
  induction s as [|c s IH]; cbn [search_bracketed].
  - cbn [match_bracketed]. discriminate.
  - destruct (match_bracketed pres (String c s)) as [g0|] eqn:Hm.
    + intros H; inversion H; subst g0. unfold match_bracketed in Hm.
      destruct (Ascii.eqb c "<") eqn:Hc.
      * apply Ascii.eqb_eq in Hc. subst c.
        apply match_body_shape in Hm.
        destruct Hm as (p & run & post & Hin & Hg & Hne & Hno & ->).
        exists "", post, p, run. repeat split; auto.
      * exfalso. revert Hm Hc. clear.
        destruct c as [[] [] [] [] [] [] [] []]; cbn; congruence.
    + intros H. destruct (IH H) as (pre & post & p & run & -> & Hrest).
      exists (String c pre), post, p, run. split; [reflexivity|exact Hrest].
Qed.

(** X11.  A link returned by [get_unsubscribe_from_headers] stands between
    angle brackets in the value of a [list-unsubscribe] header and has no
    [>] in it.  It begins with [http://] or [https://], with the mode
    one-click or manual, or it begins with [mailto:], with the mode
    manual: a one-click link is never a [mailto:] link. *)
Theorem returned_link_is_bracketed
    (headers : list Header) (l : string) (mode : option string) :
  get_unsubscribe_from_headers headers = (Some l, mode) ->
  exists h pre post,
    In h headers /\ is_list_unsubscribe h = true /\
    value h = (pre ++ String "<" (l ++ String ">" post))%string /\
    has_char ">" l = false /\
    ((startswith l "http://" = true \/ startswith l "https://" = true) /\
     (mode = Some "one-click" \/ mode = Some "manual")
     \/ startswith l "mailto:" = true /\ mode = Some "manual").
Proof.
  unfold get_unsubscribe_from_headers.
  rewrite HeaderFacts.unsubscribe_scan_spec.
  destruct (find qualifies headers) as [h|] eqn:Hf; [|discriminate].
  apply find_some in Hf. destruct Hf as [Hin Hq].
  unfold qualifies in Hq. apply andb_prop in Hq. destruct Hq as [Hlu _].
  assert (Hshape : forall pres g,
             search_bracketed pres (value h) = Some g ->
             (forall p, In p pres -> has_char ">" p = false) ->
             exists pre post p,
               value h = (pre ++ String "<" (g ++ String ">" post))%string /\
               has_char ">" g = false /\ In p pres /\ startswith g p = true).
  { intros pres g Hs Hpres.
    destruct (search_bracketed_shape _ _ _ Hs)
      as (pre & post & p & run & Hv & Hp & -> & _ & Hno).
    exists pre, post, p. split; [exact Hv|]. split; [|split; [exact Hp|]].
    - specialize (Hpres p Hp). revert Hpres Hno. clear.
      induction p as [|c p IH]; cbn [append has_char]; [auto|].
      destruct (Ascii.eqb ">" c); [discriminate|]. cbn [orb]. auto.
    - unfold startswith. clear. induction p as [|c p IH]; cbn [append prefix].
      + destruct run; reflexivity.
      + destruct (ascii_dec c c); [exact IH|congruence]. }
  unfold find_http_url, find_mailto in *.
  destruct (search_bracketed ["https://"; "http://"] (value h)) as [u|] eqn:Hu.
  - intros H; inversion H; subst.
    destruct (Hshape _ _ Hu) as (pre & post & p & Hv & Hno & Hp & Hsw).
    { intros p [<-|[<-|[]]]; reflexivity. }
    exists h, pre, post. repeat split; auto. left. split.
    + destruct Hp as [<-|[<-|[]]]; auto.
    + destruct (existsb is_list_unsubscribe_post headers); auto.
  - destruct (search_bracketed ["mailto:"] (value h)) as [m|] eqn:Hm;
      [|discriminate].
    intros H; inversion H; subst.
    destruct (Hshape _ _ Hm) as (pre & post & p & Hv & Hno & Hp & Hsw).
    { intros p [<-|[]]; reflexivity. }
    exists h, pre, post. repeat split; auto. right. split; [|reflexivity].
    destruct Hp as [<-|[]]. exact Hsw.
Qed.

Lemma returned_link_is_bracketed_witness :
  exists h pre post,
    In h (Lab.promo "<mailto:leave@shop.example>, <https://shop.example/u/1>") /\
    is_list_unsubscribe h = true /\
    value h = (pre ++ String "<" ("https://shop.example/u/1" ++ String ">" post))%string /\
    has_char ">" "https://shop.example/u/1" = false /\
    ((startswith "https://shop.example/u/1" "http://" = true
      \/ startswith "https://shop.example/u/1" "https://" = true) /\
     (Some "manual" = Some "one-click" \/ Some "manual" = Some "manual")
     \/ startswith "https://shop.example/u/1" "mailto:" = true /\
        Some "manual" = Some "manual").
Proof.
  apply (returned_link_is_bracketed
           (Lab.promo "<mailto:leave@shop.example>, <https://shop.example/u/1>")).
  reflexivity.
Defined.

End ExtractionFacts.

(* ===================================================================== *)
(** * Further results: the unsubscribe executor                           *)
(* ===================================================================== *)

Module ExecutorFacts.
Import Helpers Urllib Unsubscribe Props Steps.

Section WithEnv.
Variable E : Env.

(** The executor, outcome by outcome of the calls it makes, for a link the
    validator accepts and a request that can be built. *)
Lemma unsubscribe_single_accepted
    (domain link : string) (t : list event) :
  link <> "" ->
  startswith link "mailto:" = false ->
  validate_unsafe_url E link = (t, Return link) ->
  Request_init E link = None ->
  unsubscribe_single E domain (Some link)
  = match urlopen E (post_request link) with
    | Return resp =>
        if Z_in (status resp) [200; 201; 202; 204]%Z
        then (t ++ [EvUrlopen (post_request link) 10 true],
              Return [("success", VBool true);
                      ("message", VStr "Unsubscribed successfully");
                      ("domain", VStr domain)])
        else
          match get_fallback E domain link with
          | (t', Return d) =>
              (t ++ EvUrlopen (post_request link) 10 true :: t', Return d)
          | (t', Raise e) =>
              (t ++ EvUrlopen (post_request link) 10 true :: t',
               Return [("success", VBool false);
                       ("message", VStr (take 100 (str e)))])
          end
    | Raise e0 =>
        let log :=
          if is_transport_error e0
          then EvLog DEBUG ("POST unsubscribe failed for " ++ domain
                            ++ ", falling back to GET: " ++ str e0)
          else EvLog WARNING ("Unexpected error during POST unsubscribe for "
                              ++ domain ++ ": " ++ str e0) in
        match get_fallback E domain link with
        | (t', Return d) =>
            (t ++ EvUrlopen (post_request link) 10 true :: log :: t', Return d)
        | (t', Raise e) =>
            (t ++ EvUrlopen (post_request link) 10 true :: log :: t',
             Return [("success", VBool false);
                     ("message", VStr (take 100 (str e)))])
        end
    end.
Proof.
  intros Hne Hm Hv Hreq.
  rewrite (UnsubscribeFacts.unsubscribe_single_http E domain link Hne Hm).
  unfold validation_step. rewrite Hv. cbn [bind ret try_except].
  unfold new_Request at 1. rewrite Hreq. cbn [bind ret].
  unfold post_attempt, open_url. fold (post_request link).
  cbn [emit bind lift].
  destruct (urlopen E (post_request link)) as [resp|e0]; cbn [bind try_except].
  - case_status; cbn [bind ret try_except select_clause app].
    + rewrite app_nil_r. reflexivity.
    + destruct (get_fallback E domain link) as [t' [d|e]];
        cbn [app any_Exception ret try_except select_clause];
        rewrite ?app_nil_r; reflexivity.
  - cbn [select_clause]. destruct (is_transport_error e0);
      cbn [any_Exception emit bind ret app try_except select_clause];
      destruct (get_fallback E domain link) as [t' [d|e]];
      cbn [app any_Exception ret try_except select_clause];
      rewrite ?app_nil_r; reflexivity.
Qed.

(** The GET fallback, outcome by outcome. *)
Lemma get_fallback_cases (domain link : string) :
  get_fallback E domain link
  = match Request_init E link with
    | Some e => ([], Raise e)
    | None =>
        match urlopen E (get_request link) with
        | Return resp =>
            ([EvUrlopen (get_request link) 10 true],
             Return (if Z_in (status resp) [200; 201; 202; 204; 301; 302]%Z
                     then [("success", VBool true);
                           ("message",
                            VStr "Unsubscribed (confirmation may be needed)");
                           ("domain", VStr domain)]
                     else [("success", VBool false);
                           ("message", VStr ("Server returned status "
                                             ++ str_of_Z (status resp)))]))
        | Raise e =>
            ([EvUrlopen (get_request link) 10 true],
             if is_transport_error e
             then Return [("success", VBool false);
                          ("message", VStr ("Failed to unsubscribe: " ++ str e))]
             else Raise e)
        end
    end.
Proof.
  unfold get_fallback, new_Request.
  destruct (Request_init E link); [reflexivity|].
  cbn [bind ret]. unfold get_attempt, open_url. fold (get_request link).
  cbn [emit bind lift].
  destruct (urlopen E (get_request link)) as [resp|e]; cbn [bind try_except].
  - case_status; reflexivity.
  - cbn [select_clause]. destruct (is_transport_error e); reflexivity.
Qed.

(** When the request cannot be built, the exception of the constructor is
    reported and nothing is sent. *)
Lemma unsubscribe_single_no_request
    (domain link : string) (t : list event) (e : exn) :
  link <> "" ->
  startswith link "mailto:" = false ->
  validate_unsafe_url E link = (t, Return link) ->
  Request_init E link = Some e ->
  unsubscribe_single E domain (Some link)
  = (t, Return [("success", VBool false);
                ("message", VStr (take 100 (str e)))]).
Proof.
  intros Hne Hm Hv Hreq.
  rewrite (UnsubscribeFacts.unsubscribe_single_http E domain link Hne Hm).
  unfold validation_step. rewrite Hv. cbn [bind ret try_except].
  unfold new_Request at 1. rewrite Hreq.
  cbn [bind ret raise try_except select_clause any_Exception app].
  rewrite !app_nil_r. reflexivity.
Qed.

(** Every run of the executor is of one of four kinds. *)
Lemma unsubscribe_single_kinds (domain : string) (link : option string) :
  (exists d, unsubscribe_single E domain link = ([], Return d) /\
             get d "success" = Some (VBool false))
  \/ (exists l t e d,
        link = Some l /\ validate_unsafe_url E l = (t, Raise e) /\
        unsubscribe_single E domain link = (t, Return d) /\
        get d "success" = Some (VBool false))
  \/ (exists l t e,
        link = Some l /\ validate_unsafe_url E l = (t, Return l) /\
        Request_init E l = Some e /\
        unsubscribe_single E domain link
        = (t, Return [("success", VBool false);
                      ("message", VStr (take 100 (str e)))]))
  \/ (exists l t,
        link = Some l /\ l <> "" /\ startswith l "mailto:" = false /\
        validate_unsafe_url E l = (t, Return l) /\
        Request_init E l = None).
Proof.
  destruct link as [[|c l]|].
  - left. eexists. split; reflexivity.
  - destruct (startswith (String c l) "mailto:") eqn:Hm.
    + left. eexists. unfold unsubscribe_single. rewrite Hm.
      split; reflexivity.
    + destruct (validate_unsafe_url E (String c l)) as [t [u|e]] eqn:Hv.
      * pose proof (UnsubscribeFacts.validate_returns_url E _ _ _ Hv). subst u.
        destruct (Request_init E (String c l)) as [e|] eqn:Hreq.
        { right. right. left. exists (String c l), t, e.
          repeat split; auto.
          apply unsubscribe_single_no_request; auto. discriminate. }
        { right. right. right. exists (String c l), t.
          repeat split; auto. discriminate. }
      * right. left. exists (String c l), t, e. eexists.
        split; [reflexivity|]. split; [exact Hv|].
        assert (Hne : String c l <> "") by discriminate.
        rewrite (UnsubscribeFacts.rejected_link_result E domain _ t e Hne Hm Hv).
        split; reflexivity.
  - left. eexists. split; reflexivity.
Qed.

End WithEnv.

(** X12.  A [mailto:] link is answered at once with [success: False] and
    [type: mailto]: no lookup, no request, in every environment. *)
Theorem mailto_link_is_not_opened (E : Env) (domain link : string) :
  startswith link "mailto:" = true ->
  unsubscribe_single E domain (Some link)
  = ([], Return [("success", VBool false);
                 ("message", VStr "Email-based unsubscribe - open in email client");
                 ("type", VStr "mailto")]).
Proof.
  intros Hm. unfold unsubscribe_single.
  destruct link as [|c l]; [discriminate|]. now rewrite Hm.
Qed.

Lemma mailto_link_is_not_opened_witness :
  unsubscribe_single (Lab.world 200) "shop.example"
    (Some "mailto:leave@shop.example")
  = ([], Return [("success", VBool false);
                 ("message", VStr "Email-based unsubscribe - open in email client");
                 ("type", VStr "mailto")]).
Proof.
  apply (mailto_link_is_not_opened (Lab.world 200)). reflexivity.
Defined.

(** X13.  When the POST is answered with 200, 201, 202 or 204 the executor
    reports "Unsubscribed successfully" and makes no second request. *)
Theorem accepted_post_ends_the_attempt
    (E : Env) (domain link : string) (t : list event) (resp : Response) :
  link <> "" ->
  startswith link "mailto:" = false ->
  validate_unsafe_url E link = (t, Return link) ->
  Request_init E link = None ->
  urlopen E (post_request link) = Return resp ->
  In (status resp) [200; 201; 202; 204]%Z ->
  unsubscribe_single E domain (Some link)
  = (t ++ [EvUrlopen (post_request link) 10 true],
     Return [("success", VBool true);
             ("message", VStr "Unsubscribed successfully");
             ("domain", VStr domain)]).
Proof.
  intros Hne Hm Hv Hreq Hpost Hin.
  rewrite (unsubscribe_single_accepted E domain link t Hne Hm Hv Hreq), Hpost.
  apply UnsubscribeFacts.Z_in_In in Hin. now rewrite Hin.
Qed.

Lemma accepted_post_ends_the_attempt_witness :
  unsubscribe_single (Lab.world 200) "shop.example"
    (Some "https://shop.example/leave")
  = ([EvGetaddrinfo "shop.example"]
     ++ [EvUrlopen (post_request "https://shop.example/leave") 10 true],
     Return [("success", VBool true);
             ("message", VStr "Unsubscribed successfully");
             ("domain", VStr "shop.example")]).
Proof.
  apply (accepted_post_ends_the_attempt (Lab.world 200) "shop.example"
           "https://shop.example/leave" [EvGetaddrinfo "shop.example"]
           (mkResponse 200 "You have been unsubscribed."));
    [discriminate | reflexivity | reflexivity | reflexivity | reflexivity
    | simpl; auto].
Defined.

Lemma network_calls_app (a b : list event) :
  network_calls (a ++ b) = network_calls a ++ network_calls b.
Proof. apply filter_app. Qed.

Lemma dns_lookups_app (a b : list event) :
  dns_lookups (a ++ b) = dns_lookups a ++ dns_lookups b.
Proof. apply filter_app. Qed.

Lemma validate_effects (E : Env) (url : string) (t : list event)
    (o : outcome string) :
  validate_unsafe_url E url = (t, o) ->
  network_calls t = [] /\ List.length (dns_lookups t) <= 1.
Proof.
  intros Hv. pose proof (UnsubscribeFacts.validate_trace E url) as Ht.
  rewrite Hv in Ht. cbn [trace fst] in Ht.
  destruct Ht as [->|(h & ->)]; split; simpl; auto.
Qed.

(** X14.  One call of the executor calls [getaddrinfo] at most once and
    [urlopen] at most twice: not at all, or once with the POST request, or
    with the POST request and then with the GET request.  Both requests
    are built for the link the executor was given, and each call is made
    with a timeout of 10 and the default TLS context.  What [urlopen] does
    within one call (its own name resolution, the redirects it follows) is
    the library's and is not counted. *)
Theorem at_most_post_then_get
    (E : Env) (domain : string) (link : option string) :
  List.length (dns_lookups (trace (unsubscribe_single E domain link))) <= 1
  /\ (network_calls (trace (unsubscribe_single E domain link)) = []
      \/ exists l,
           link = Some l /\
           (network_calls (trace (unsubscribe_single E domain link))
            = [EvUrlopen (post_request l) 10 true]
            \/ network_calls (trace (unsubscribe_single E domain link))
               = [EvUrlopen (post_request l) 10 true;
                  EvUrlopen (get_request l) 10 true])).
Proof.
  destruct (unsubscribe_single_kinds E domain link)
    as [(d & -> & _)
       |[(l & t & e & d & -> & Hv & -> & _)
        |[(l & t & e & -> & Hv & _ & ->)
         |(l & t & -> & Hne & Hm & Hv & Hreq)]]];
    try (destruct (validate_effects E _ _ _ Hv) as [Hnet Hdns]);
    cbn [trace fst]; try (split; [simpl; auto; fail|left; auto; fail]).
  rewrite (unsubscribe_single_accepted E domain l t Hne Hm Hv Hreq).
  rewrite (get_fallback_cases E domain l), Hreq.
  assert (Hone : forall rest,
             dns_lookups rest = [] ->
             List.length (dns_lookups (t ++ rest)) <= 1)
    by (intros rest Hr; rewrite dns_lookups_app, Hr, app_nil_r; exact Hdns).
  destruct (urlopen E (post_request l)) as [resp|e0].
  - case_status.
    + cbn [trace fst]. split; [apply Hone; reflexivity|].
      right. exists l. split; [reflexivity|left].
      rewrite network_calls_app, Hnet. reflexivity.
    + destruct (urlopen E (get_request l)) as [resp'|e];
        [|destruct (is_transport_error e)]; cbn [trace fst];
        (split; [apply Hone; reflexivity|]);
        right; exists l; (split; [reflexivity|right]);
        rewrite network_calls_app, Hnet; reflexivity.
  - cbv zeta.
    destruct (urlopen E (get_request l)) as [resp'|e];
      [|destruct (is_transport_error e)]; cbn [trace fst];
      (split; [apply Hone; destruct (is_transport_error e0); reflexivity|]);
      right; exists l; (split; [reflexivity|right]);
      rewrite network_calls_app, Hnet;
      destruct (is_transport_error e0); reflexivity.
Qed.

(** X15.  The executor reports [success: True] only when the server has
    answered: the POST with 200, 201, 202 or 204, or the GET with one of
    these or with 301 or 302, for a link the validator accepted. *)
Theorem success_needs_an_accepting_response
    (E : Env) (domain : string) (link : option string)
    (t : list event) (d : dict) :
  unsubscribe_single E domain link = (t, Return d) ->
  get d "success" = Some (VBool true) ->
  exists l tv resp,
    link = Some l /\ validate_unsafe_url E l = (tv, Return l) /\
    (urlopen E (post_request l) = Return resp /\
     In (status resp) [200; 201; 202; 204]%Z
     \/ urlopen E (get_request l) = Return resp /\
        In (status resp) [200; 201; 202; 204; 301; 302]%Z).
Proof.
  intros Hrun Hsucc.
  destruct (unsubscribe_single_kinds E domain link)
    as [(d' & Hr & Hf)
       |[(l & tv & e & d' & -> & Hv & Hr & Hf)
        |[(l & tv & e & -> & Hv & _ & Hr)
         |(l & tv & -> & Hne & Hm & Hv & Hreq)]]];
    try (rewrite Hr in Hrun; inversion Hrun; subst; cbn in Hsucc; congruence).
  exists l, tv.
  rewrite (unsubscribe_single_accepted E domain l tv Hne Hm Hv Hreq) in Hrun.
  rewrite (get_fallback_cases E domain l), Hreq in Hrun.
  assert (Hget : forall t0 d0,
            match urlopen E (get_request l) with
            | Return resp =>
                ([EvUrlopen (get_request l) 10 true],
                 Return (if Z_in (status resp) [200; 201; 202; 204; 301; 302]%Z
                         then [("success", VBool true);
                               ("message",
                                VStr "Unsubscribed (confirmation may be needed)");
                               ("domain", VStr domain)]
                         else [("success", VBool false);
                               ("message", VStr ("Server returned status "
                                                 ++ str_of_Z (status resp)))]))
            | Raise e =>
                ([EvUrlopen (get_request l) 10 true],
                 if is_transport_error e
                 then Return [("success", VBool false);
                              ("message",
                               VStr ("Failed to unsubscribe: " ++ str e))]
                 else Raise e)
            end = (t0, Return d0) ->
            get d0 "success" = Some (VBool true) ->
            exists resp,
              urlopen E (get_request l) = Return resp /\
              In (status resp) [200; 201; 202; 204; 301; 302]%Z).
  { intros t0 d0 H Hs.
    destruct (urlopen E (get_request l)) as [resp|e].
    - exists resp. split; [reflexivity|]. apply UnsubscribeFacts.Z_in_In.
      destruct (Z_in (status resp) _); [reflexivity|].
      inversion H; subst. cbn in Hs. congruence.
    - destruct (is_transport_error e); inversion H; subst.
      cbn in Hs. congruence. }
  destruct (urlopen E (post_request l)) as [resp|e0].
  - destruct (Z_in (status resp) [200; 201; 202; 204]%Z) eqn:Hin.
    + exists resp. split; [reflexivity|]. split; [exact Hv|]. left.
      split; [reflexivity|]. now apply UnsubscribeFacts.Z_in_In.
    + match type of Hrun with
      | match ?g with _ => _ end = _ => destruct g as [t' [d0|e]] eqn:Hg
      end.
      * inversion Hrun; subst.
        destruct (Hget _ _ Hg Hsucc) as (resp' & Hr' & Hin').
        exists resp'. split; [reflexivity|]. split; [exact Hv|]. right. auto.
      * inversion Hrun; subst. cbn in Hsucc. congruence.
  - cbv zeta in Hrun.
    match type of Hrun with
    | match ?g with _ => _ end = _ => destruct g as [t' [d0|e]] eqn:Hg
    end.
    + inversion Hrun; subst.
      destruct (Hget _ _ Hg Hsucc) as (resp' & Hr' & Hin').
      exists resp'. split; [reflexivity|]. split; [exact Hv|]. right. auto.
    + inversion Hrun; subst. cbn in Hsucc. congruence.
Qed.

Lemma success_needs_an_accepting_response_witness :
  exists l tv resp,
    Some "https://news.example/unsub?id=7" = Some l /\
    validate_unsafe_url (Lab.world 202) l = (tv, Return l) /\
    (urlopen (Lab.world 202) (post_request l) = Return resp /\
     In (status resp) [200; 201; 202; 204]%Z
     \/ urlopen (Lab.world 202) (get_request l) = Return resp /\
        In (status resp) [200; 201; 202; 204; 301; 302]%Z).
Proof.
  apply (success_needs_an_accepting_response (Lab.world 202) "news.example"
           (Some "https://news.example/unsub?id=7")
           (trace (unsubscribe_single (Lab.world 202) "news.example"
                     (Some "https://news.example/unsub?id=7")))
           [("success", VBool true);
            ("message", VStr "Unsubscribed (confirmation may be needed)");
            ("domain", VStr "news.example")]);
    reflexivity.
Defined.

(** The executor after a POST that was not accepted. *)
Lemma post_not_accepted
    (E : Env) (domain link : string) (t : list event) :
  link <> "" ->
  startswith link "mailto:" = false ->
  validate_unsafe_url E link = (t, Return link) ->
  Request_init E link = None ->
  (forall resp, urlopen E (post_request link) = Return resp ->
                ~ In (status resp) [200; 201; 202; 204]%Z) ->
  network_calls (trace (unsubscribe_single E domain (Some link)))
  = [EvUrlopen (post_request link) 10 true;
     EvUrlopen (get_request link) 10 true]
  /\ result (unsubscribe_single E domain (Some link))
     = match result (get_fallback E domain link) with
       | Return d => Return d
       | Raise e => Return [("success", VBool false);
                            ("message", VStr (take 100 (str e)))]
       end.
Proof.
  intros Hne Hm Hv Hreq Hpost.
  destruct (validate_effects E _ _ _ Hv) as [Hnet _].
  rewrite (unsubscribe_single_accepted E domain link t Hne Hm Hv Hreq).
  assert (Hg : network_calls (trace (get_fallback E domain link))
               = [EvUrlopen (get_request link) 10 true]).
  { rewrite (get_fallback_cases E domain link), Hreq.
    destruct (urlopen E (get_request link)) as [r|e]; reflexivity. }
  destruct (urlopen E (post_request link)) as [resp|e0].
  - destruct (Z_in (status resp) [200; 201; 202; 204]%Z) eqn:Hin.
    + exfalso. apply (Hpost resp eq_refl).
      now apply UnsubscribeFacts.Z_in_In.
    + destruct (get_fallback E domain link) as [t' [d|e]];
        cbn [trace result fst snd] in *;
        rewrite network_calls_app, Hnet; cbn [app network_calls filter is_urlopen];
        fold (network_calls t'); rewrite Hg; split; reflexivity.
  - cbv zeta.
    destruct (get_fallback E domain link) as [t' [d|e]];
      cbn [trace result fst snd] in *;
      rewrite network_calls_app, Hnet;
      destruct (is_transport_error e0);
      cbn [app network_calls filter is_urlopen];
      fold (network_calls t'); rewrite Hg; split; reflexivity.
Qed.



(** X17.  When the POST was not accepted and the GET raises, the executor
    answers [success: False]: with "Failed to unsubscribe: " and the text
    of the exception for a [URLError], [HTTPError] or [TimeoutError], and
    with the first 100 characters of the text for any other exception. *)
Theorem get_failure_is_reported
    (E : Env) (domain link : string) (t : list event) (e : exn) :
  link <> "" ->
  startswith link "mailto:" = false ->
  validate_unsafe_url E link = (t, Return link) ->
  Request_init E link = None ->
  (forall resp, urlopen E (post_request link) = Return resp ->
                ~ In (status resp) [200; 201; 202; 204]%Z) ->
  urlopen E (get_request link) = Raise e ->
  result (unsubscribe_single E domain (Some link))
  = Return [("success", VBool false);
            ("message",
             VStr (if is_transport_error e
                   then "Failed to unsubscribe: " ++ str e
                   else take 100 (str e)))].
Proof.
  intros Hne Hm Hv Hreq Hpost Hget.
  destruct (post_not_accepted E domain link t Hne Hm Hv Hreq Hpost)
    as [_ Hr].
  rewrite Hr, (get_fallback_cases E domain link), Hreq, Hget.
  destruct (is_transport_error e); reflexivity.
Qed.

Lemma get_failure_is_reported_witness :
  result (unsubscribe_single Lab.offline "news.example"
            (Some "https://news.example/unsub?id=7"))
  = Return [("success", VBool false);
            ("message",
             VStr (if is_transport_error (TimeoutError "timed out")
                   then "Failed to unsubscribe: " ++ str (TimeoutError "timed out")
                   else take 100 (str (TimeoutError "timed out"))))].
Proof.
  apply (get_failure_is_reported Lab.offline "news.example"
           "https://news.example/unsub?id=7" [EvGetaddrinfo "news.example"]);
    [discriminate | reflexivity | reflexivity | reflexivity | | reflexivity].
  intros resp H. cbv in H. discriminate H.
Defined.

End ExecutorFacts.

(* ===================================================================== *)
(** * Further results: the stand-alone script                             *)
(* ===================================================================== *)

Module ScriptFacts.
Import Helpers Urllib GmailApi Props Steps.

Lemma take_cons (n : nat) (c : ascii) (r : string) :
  take n (String c r)
  = if is_continuation c then String c (take n r)
    else match n with
         | 0 => EmptyString
         | S n' => String c (take n' r)
         end.
Proof. reflexivity. Qed.

(** A slice [s[:n]] has at most [n] characters. *)
Lemma take_length (n : nat) (s : string) : len (take n s) <= n.
Proof.
  revert n. induction s as [|c s IH]; intros n; [apply Nat.le_0_l|].
  rewrite take_cons. destruct (is_continuation c) eqn:Hc.
  - cbn [len]. rewrite Hc. apply IH.
  - destruct n as [|n]; [cbn; lia|]. cbn [len]. rewrite Hc.
    specialize (IH n). lia.
Qed.

(** A text of at most [n] characters is its own slice [s[:n]]. *)
Lemma take_all (n : nat) (s : string) : len s <= n -> take n s = s.
Proof.
  revert n. induction s as [|c s IH]; intros n Hlen; [reflexivity|].
  rewrite take_cons. cbn [len] in Hlen. destruct (is_continuation c).
  - f_equal. now apply IH.
  - destruct n as [|n]; [lia|]. f_equal. apply IH. lia.
Qed.

(** What the two [except] clauses of the script's executor answer. *)
Lemma script_executor_cases (E : Env) (domain link : string) :
  result (unsubscribe_single E domain link)
  = let handled e :=
      if is_HTTPError e then
        if Z_in (code_of e) [301; 302; 303; 307; 308]%Z
        then Return [("success", VBool true); ("status", VStr "Redirected")]
        else Return [("success", VBool false);
                     ("status", VStr ("HTTP " ++ str_of_Z (code_of e)))]
      else Return [("success", VBool false);
                   ("status", VStr (take 30 (str e)))] in
    match Request_init E link with
    | Some e => handled e
    | None =>
        match urlopen E (script_request link) with
        | Return resp =>
            if existsb (fun word => contains word (lower (body resp)))
                 success_words
            then Return [("success", VBool true); ("status", VStr "Unsubscribed!")]
            else Return [("success", VBool true); ("status", VStr "Link visited")]
        | Raise e => handled e
        end
    end.
Proof.
  unfold unsubscribe_single, new_Request, open_url. fold (script_request link).
  cbv zeta.
  destruct (Request_init E link) as [e|].
  - cbn [bind raise try_except select_clause].
    destruct (is_HTTPError e); cbn [any_Exception];
      [case_status|]; reflexivity.
  - cbn [bind ret emit lift].
    destruct (urlopen E (script_request link)) as [resp|e].
    + cbn [bind]. destruct (existsb _ success_words); reflexivity.
    + cbn [bind try_except select_clause].
      destruct (is_HTTPError e); cbn [any_Exception];
        [case_status|]; reflexivity.
Qed.

(** X18.  The script's executor never raises: whatever the request
    constructor and the HTTP client do, it returns a dictionary with a
    boolean [success] and a text [status]. *)
Theorem script_executor_never_raises (E : Env) (domain link : string) :
  exists t b s,
    unsubscribe_single E domain link
    = (t, Return [("success", VBool b); ("status", VStr s)]).
Proof.
  pose proof (script_executor_cases E domain link) as H. cbv zeta in H.
  destruct (unsubscribe_single E domain link) as [t r]. cbn [result snd] in H.
  subst r. exists t.
  destruct (Request_init E link) as [e|];
    [|destruct (urlopen E (script_request link)) as [resp|e]];
    try (destruct (is_HTTPError e); [case_status|]);
    try (destruct (existsb _ success_words));
    eexists; eexists; reflexivity.
Qed.

(** X19.  An [HTTPError] of the GET is a success exactly for the codes 301,
    302, 303, 307 and 308, reported as "Redirected"; every other code is a
    failure reported as "HTTP" and the code. *)
Theorem script_executor_http_error
    (E : Env) (domain link msg : string) (code : Z) :
  Request_init E link = None ->
  urlopen E (script_request link) = Raise (HTTPError code msg) ->
  (In code [301; 302; 303; 307; 308]%Z ->
   result (unsubscribe_single E domain link)
   = Return [("success", VBool true); ("status", VStr "Redirected")])
  /\ (~ In code [301; 302; 303; 307; 308]%Z ->
      result (unsubscribe_single E domain link)
      = Return [("success", VBool false);
                ("status", VStr ("HTTP " ++ str_of_Z code))]).
Proof.
  intros Hreq Hopen. rewrite script_executor_cases, Hreq, Hopen.
  cbn [is_HTTPError code_of].
  destruct (Z_in code [301; 302; 303; 307; 308]%Z) eqn:Hin; split; intros H;
    try reflexivity.
  - exfalso. apply H. now apply UnsubscribeFacts.Z_in_In.
  - apply UnsubscribeFacts.Z_in_In in H. congruence.
Qed.

Lemma script_executor_http_error_witness :
  (In 308%Z [301; 302; 303; 307; 308]%Z ->
   result (unsubscribe_single (Lab.erring 308 "Permanent Redirect")
             "shop.example" "https://shop.example/leave")
   = Return [("success", VBool true); ("status", VStr "Redirected")])
  /\ (~ In 308%Z [301; 302; 303; 307; 308]%Z ->
      result (unsubscribe_single (Lab.erring 308 "Permanent Redirect")
                "shop.example" "https://shop.example/leave")
      = Return [("success", VBool false);
                ("status", VStr ("HTTP " ++ str_of_Z 308))]).
Proof.
  apply (script_executor_http_error (Lab.erring 308 "Permanent Redirect")
           "shop.example" "https://shop.example/leave" "Permanent Redirect" 308);
    reflexivity.
Defined.

(** X20.  Any response to the GET is reported as a success, whatever its
    status and body; the body only chooses between the two status texts. *)
Theorem script_executor_any_response_succeeds
    (E : Env) (domain link : string) (resp : Response) :
  Request_init E link = None ->
  urlopen E (script_request link) = Return resp ->
  exists s,
    result (unsubscribe_single E domain link)
    = Return [("success", VBool true); ("status", VStr s)] /\
    (s = "Unsubscribed!" \/ s = "Link visited") /\
    (s = "Unsubscribed!" <->
     exists word, In word success_words /\
                  contains word (lower (body resp)) = true).
Proof.
  intros Hreq Hopen. rewrite script_executor_cases, Hreq, Hopen. cbv zeta.
  destruct (existsb (fun word => contains word (lower (body resp)))
              success_words) eqn:Hex.
  - exists "Unsubscribed!". repeat split; auto.
    intros _. apply existsb_exists in Hex. exact Hex.
  - exists "Link visited". repeat split; auto; try discriminate.
    intros Hw. apply existsb_exists in Hw. congruence.
Qed.

Lemma script_executor_any_response_succeeds_witness :
  exists s,
    result (unsubscribe_single (Lab.world 200) "local" "http://127.0.0.1/admin")
    = Return [("success", VBool true); ("status", VStr s)] /\
    (s = "Unsubscribed!" \/ s = "Link visited") /\
    (s = "Unsubscribed!" <->
     exists word, In word success_words /\
                  contains word (lower (body (mkResponse 200 "admin console")))
                  = true).
Proof.
  apply (script_executor_any_response_succeeds (Lab.world 200) "local"
           "http://127.0.0.1/admin" (mkResponse 200 "admin console"));
    reflexivity.
Defined.

Lemma take_prefix (n : nat) (s : string) : String.prefix (take n s) s = true.
Proof.
  revert n. induction s as [|c s IH]; intros n; [reflexivity|].
  rewrite take_cons.
  destruct (is_continuation c); [|destruct n as [|n]; [reflexivity|]];
    cbn [String.prefix]; (destruct (ascii_dec c c); [apply IH|congruence]).
Qed.

(** X21.  The subject the scan keeps is the value of the first [subject]
    header cut to its first 60 characters (empty without such a header):
    it has at most 60 characters, it is a prefix of that value, and it is
    the whole value when that has at most 60 characters. *)
Theorem scan_subject_is_cut_to_60 (headers : list Header) :
  len (get_subject headers) <= 60
  /\ (find (named "subject") headers = None /\ get_subject headers = ""
      \/ exists h, find (named "subject") headers = Some h /\
                   String.prefix (get_subject headers) (value h) = true /\
                   (len (value h) <= 60 -> get_subject headers = value h)).
Proof.
  induction headers as [|h hs IH]; cbn [get_subject find].
  - split; [simpl; lia|left; auto].
  - unfold named at 1 3. destruct (lower (name h) =? "subject").
    + split; [apply take_length|]. right. exists h.
      split; [reflexivity|]. split; [apply take_prefix|apply take_all].
    + exact IH.
Qed.

(** ** The pattern of [get_sender_info] *)

Lemma span_app {A} (p : A -> bool) (l a b : list A) :
  span p l = (a, b) -> l = a ++ b /\ Forall (fun x => p x = true) a.
Proof.
  revert a b. induction l as [|x l IH]; intros a b; cbn [span].
  - intros H; inversion H; subst. split; [reflexivity|constructor].
  - destruct (p x) eqn:Hx.
    + destruct (span p l) as [a' b'] eqn:Hs. intros H; inversion H; subst.
      destruct (IH _ _ eq_refl) as [-> Hall]. split; [reflexivity|].
      constructor; assumption.
    + intros H; inversion H; subst. split; [reflexivity|constructor].
Qed.

(** The right side of a match is a non-empty run of characters of the
    class, taken from the text. *)
Lemma search_email_host (U : Unicode) (l : list string) (loc host : string) :
  search_email U l = Some (loc, host) ->
  exists m, m <> [] /\ host = String.concat "" m /\
            Forall (fun ch => is_email_char U ch = true) m /\
            incl m l.
Proof.
  induction l as [|x l IH]; cbn [search_email].
  - cbn. discriminate.
  - destruct (match_email U (x :: l)) as [[loc' host']|] eqn:Hm.
    + intros H; inversion H; subst. unfold match_email in Hm.
      destruct (span (is_email_char U) (x :: l)) as [[|c0 l0] [|c1 r]] eqn:Hs1;
        try discriminate.
      destruct (c1 =? "@"); [|discriminate].
      destruct (span (is_email_char U) r) as [[|c2 m] r'] eqn:Hs2;
        [discriminate|].
      inversion Hm; subst.
      destruct (span_app _ _ _ _ Hs1) as [Hl _].
      destruct (span_app _ _ _ _ Hs2) as [Hr Hall].
      exists (c2 :: m). split; [discriminate|]. split; [reflexivity|].
      split; [exact Hall|].
      intros ch Hin. rewrite Hl. apply in_or_app. right. right.
      rewrite Hr. apply in_or_app. left. exact Hin.
    + intros H. destruct (IH H) as (m & Hne & Hh & Hall & Hincl).
      exists m. repeat split; auto. intros ch Hin. right. auto.
Qed.

(** An ASCII character as a text. *)
Lemma chars_ascii (s : string) :
  isascii s = true ->
  Forall (fun ch => exists c, ch = String c EmptyString /\
                              (nat_of_ascii c <? 128)%nat = true) (chars s).
Proof.
  induction s as [|c s IH]; cbn [isascii chars]; [constructor|].
  intros H. apply andb_prop in H. destruct H as [Hc Hs].
  specialize (IH Hs).
  assert (Hcont : continues s = false).
  { destruct s as [|c' s']; [reflexivity|]. cbn [continues isascii] in *.
    apply andb_prop in Hs. destruct Hs as [Hc' _].
    unfold is_continuation. apply Nat.ltb_lt in Hc'.
    destruct (128 <=? nat_of_ascii c')%nat eqn:H1; [|reflexivity].
    apply Nat.leb_le in H1. lia. }
  rewrite Hcont. destruct (chars s) as [|ch rest].
  - constructor; [|constructor]. exists c. auto.
  - constructor; [|exact IH]. exists c. auto.
Qed.

Lemma is_email_char_ascii (U : Unicode) (c : ascii) :
  (nat_of_ascii c <? 128)%nat = true ->
  is_email_char U (String c EmptyString) = host_char c.
Proof.
  intros Hc. unfold is_email_char, host_char, is_word, char_class.
  rewrite Hc. cbn [String.eqb]. 
  destruct (Ascii.eqb c ".") eqn:H1, (Ascii.eqb c "-") eqn:H2;
    rewrite ?orb_true_r, ?orb_false_r; reflexivity.
Qed.

(** A run of ASCII characters of the class, put together. *)
Lemma concat_host_chars (U : Unicode) (m : list string) :
  Forall (fun ch => is_email_char U ch = true) m ->
  Forall (fun ch => exists c, ch = String c EmptyString /\
                              (nat_of_ascii c <? 128)%nat = true) m ->
  isascii (String.concat "" m) = true /\
  forall c, has_char c (String.concat "" m) = true -> host_char c = true.
Proof.
  induction 1 as [|ch m Hch _ IH]; intros Hascii.
  - split; [reflexivity|]. cbn. discriminate.
  - inversion Hascii as [|? ? (c & -> & Hc) Hrest]; subst.
    destruct (IH Hrest) as [Ha Hcl].
    rewrite (is_email_char_ascii U c Hc) in Hch.
    assert (Heq : String.concat "" (String c EmptyString :: m)
                  = String c (String.concat "" m)).
    { destruct m; [reflexivity|]. reflexivity. }
    rewrite Heq. cbn [isascii has_char]. rewrite Hc, Ha. split; [reflexivity|].
    intros c' Hc'. apply orb_prop in Hc'. destruct Hc' as [Hc'|Hc'].
    + apply Ascii.eqb_eq in Hc'. now subst.
    + now apply Hcl.
Qed.

Lemma lower_char_idem (c : ascii) : lower_char (lower_char c) = lower_char c.
Proof. destruct c as [[] [] [] [] [] [] [] []]; reflexivity. Qed.

Lemma lower_idem (s : string) : lower (lower s) = lower s.
Proof.
  induction s as [|c s IH]; cbn [lower]; [reflexivity|].
  now rewrite lower_char_idem, IH.
Qed.

Lemma lower_char_class (c : ascii) :
  host_char c = true -> host_char (lower_char c) = true.
Proof. destruct c as [[] [] [] [] [] [] [] []]; vm_compute; congruence. Qed.

Lemma lower_class (s : string) :
  (forall c, has_char c s = true -> host_char c = true) ->
  forall c, has_char c (lower s) = true -> host_char c = true.
Proof.
  induction s as [|x s IH]; cbn [lower has_char]; [discriminate|].
  intros H c Hc. apply orb_prop in Hc. destruct Hc as [Hc|Hc].
  - apply Ascii.eqb_eq in Hc. subst c. apply lower_char_class, H.
    now rewrite Ascii.eqb_refl.
  - apply IH; [|exact Hc]. intros c' Hc'. apply H. rewrite Hc'.
    apply orb_true_r.
Qed.

(** The domain of a sender whose [From] values are ASCII text. *)
Lemma ascii_sender_domain (U : Unicode) (headers : list Header) :
  ascii_senders headers ->
  snd (get_sender_info U headers) <> "" /\
  lower (snd (get_sender_info U headers)) = snd (get_sender_info U headers) /\
  (forall c, has_char c (snd (get_sender_info U headers)) = true ->
             host_char c = true).
Proof.
  induction 1 as [|h hs Hh _ IH]; cbn [get_sender_info].
  - split; [discriminate|]. split; [reflexivity|].
    intros c Hc. cbn [snd has_char] in Hc.
    repeat (apply orb_prop in Hc; destruct Hc as [Hc|Hc];
            [apply Ascii.eqb_eq in Hc; subst c; reflexivity|]).
    discriminate.
  - unfold named in Hh. destruct (lower (name h) =? "from"); [|exact IH].
    destruct (search_email U (chars (value h))) as [[l d]|] eqn:Hs;
      [|exact IH].
    cbn [snd].
    destruct (search_email_host U _ _ _ Hs) as (m & Hne & -> & Hall & Hincl).
    assert (Hasc : Forall (fun ch => exists c, ch = String c EmptyString /\
                             (nat_of_ascii c <? 128)%nat = true) m).
    { pose proof (chars_ascii _ (Hh eq_refl)) as Hch.
      rewrite Forall_forall in *. intros ch Hin. apply Hch, Hincl, Hin. }
    destruct (concat_host_chars U m Hall Hasc) as [Ha Hcl].
    unfold str_lower. rewrite Ha.
    split.
    + destruct m as [|ch m]; [congruence|].
      inversion Hasc as [|? ? (c & -> & _) _]; subst.
      destruct m; discriminate.
    + split; [apply lower_idem|]. now apply lower_class.
Qed.

Lemma span_ext {A} (p q : A -> bool) (l : list A) :
  Forall (fun x => p x = q x) l -> span p l = span q l.
Proof.
  induction 1 as [|x l Hx _ IH]; cbn [span]; [reflexivity|].
  now rewrite Hx, IH.
Qed.

Lemma is_email_char_ext (U U' : Unicode) (l : list string) :
  Forall (fun ch => exists c, ch = String c EmptyString /\
                              (nat_of_ascii c <? 128)%nat = true) l ->
  Forall (fun ch => is_email_char U ch = is_email_char U' ch) l.
Proof.
  apply Forall_impl. intros ch (c & -> & Hc).
  now rewrite !is_email_char_ascii.
Qed.

(** On ASCII characters the search does not consult the database. *)
Lemma search_email_ext (U U' : Unicode) (l : list string) :
  Forall (fun ch => exists c, ch = String c EmptyString /\
                              (nat_of_ascii c <? 128)%nat = true) l ->
  search_email U l = search_email U' l.
Proof.
  induction 1 as [|x l Hx Hl IH]; [reflexivity|].
  cbn [search_email]. rewrite IH.
  assert (Hm : match_email U (x :: l) = match_email U' (x :: l)).
  { unfold match_email.
    rewrite (span_ext _ _ _ (is_email_char_ext U U' (x :: l)
                               (Forall_cons _ Hx Hl))).
    destruct (span (is_email_char U') (x :: l)) as [[|c0 l0] [|c1 r]] eqn:Hs;
      try reflexivity.
    destruct (c1 =? "@"); [|reflexivity].
    destruct (span_app _ _ _ _ Hs) as [Heq _].
    assert (Hr : Forall (fun ch => exists c, ch = String c EmptyString /\
                           (nat_of_ascii c <? 128)%nat = true) r).
    { pose proof (Forall_cons _ Hx Hl) as Hall. rewrite Heq in Hall.
      apply Forall_app in Hall. destruct Hall as [_ Hall].
      now inversion Hall. }
    now rewrite (span_ext _ _ _ (is_email_char_ext U U' r Hr)). }
  now rewrite Hm.
Qed.

(** X22.  When the [From] values are ASCII text, the sender the scan
    groups by does not depend on the Unicode database, and its domain is
    not empty, is in lower case, and is made of letters, digits, [_], [.]
    and [-] only (so it holds no [@] and no white space).  The domain is
    "unknown" when there is no [from] header. *)
Theorem scan_domain_is_a_lower_case_host
    (U : Unicode) (headers : list Header) :
  (ascii_senders headers ->
   let domain := snd (get_sender_info U headers) in
   domain <> "" /\ lower domain = domain /\
   (forall c, has_char c domain = true -> host_char c = true) /\
   has_char "@" domain = false /\
   forall U', get_sender_info U' headers = get_sender_info U headers)
  /\ (Forall (fun h => named "from" h = false) headers ->
      get_sender_info U headers = ("", "unknown")).
Proof.
  split.
  - intros Hascii. cbv zeta.
    destruct (ascii_sender_domain U headers Hascii) as (Hne & Hlow & Hcl).
    repeat split; auto.
    + destruct (has_char "@" (snd (get_sender_info U headers))) eqn:Hat;
        [|reflexivity].
      apply Hcl in Hat. discriminate.
    + intros U'. clear Hne Hlow Hcl.
      induction Hascii as [|h hs Hh _ IH]; cbn [get_sender_info];
        [reflexivity|].
      unfold named in Hh. destruct (lower (name h) =? "from"); [|exact IH].
      pose proof (chars_ascii _ (Hh eq_refl)) as Hch.
      rewrite (search_email_ext U' U _ Hch).
      destruct (search_email U (chars (value h))) as [[l d]|] eqn:Hs;
        [|exact IH].
      destruct (search_email_host U _ _ _ Hs) as (m & _ & -> & Hall & Hincl).
      assert (Hasc : Forall (fun ch => exists c, ch = String c EmptyString /\
                               (nat_of_ascii c <? 128)%nat = true) m).
      { rewrite Forall_forall in *. intros ch Hin. apply Hch, Hincl, Hin. }
      destruct (concat_host_chars U m Hall Hasc) as [Ha _].
      unfold str_lower. now rewrite Ha.
  - induction 1 as [|h hs Hh _ IH]; cbn [get_sender_info];
      [reflexivity|].
    unfold named in Hh. rewrite Hh. exact IH.
Qed.

Lemma scan_domain_is_a_lower_case_host_witness :
  (let domain :=
     snd (get_sender_info Lab.unicode
            [mkHeader "From" "Shop Deals <deals@Shop.Example>"]) in
   domain <> "" /\ lower domain = domain /\
   (forall c, has_char c domain = true -> host_char c = true) /\
   has_char "@" domain = false /\
   forall U', get_sender_info U'
                [mkHeader "From" "Shop Deals <deals@Shop.Example>"]
              = get_sender_info Lab.unicode
                  [mkHeader "From" "Shop Deals <deals@Shop.Example>"])
  /\ get_sender_info Lab.unicode
       [mkHeader "From" "Shop Deals <deals@Shop.Example>"]
     = ("Shop Deals <deals@Shop.Example>", "shop.example").
Proof.
  split; [|reflexivity].
  apply (proj1 (scan_domain_is_a_lower_case_host Lab.unicode
                  [mkHeader "From" "Shop Deals <deals@Shop.Example>"])).
  repeat constructor.
Defined.

End ScriptFacts.

(* ===================================================================== *)
(** * Further results: the aggregation run                                *)
(* ===================================================================== *)

Module RunFacts.
Import Helpers GmailApi Props.

(** ** Batches *)

Lemma batch_start_in_range (total s : nat) :
  In s (batch_starts total) -> s < total.
Proof.
  unfold batch_starts. intros H. apply in_map_iff in H.
  destruct H as (k & <- & Hk). apply in_seq in Hk.
  pose proof AggregationFacts.batch_size_pos as Hpos.
  pose proof (Nat.div_mod_eq (total + batch_size - 1) batch_size) as Hd.
  pose proof (Nat.mod_upper_bound (total + batch_size - 1) batch_size) as Hm.
  nia.
Qed.

(** X23.  The batches of a run are consecutive slices of the listed
    messages that together are the whole list, in order; each holds at
    least one and at most 100 ids. *)
Theorem batches_partition_the_messages (messages : list string) :
  concat (map (batch_of messages) (batch_starts (List.length messages)))
  = messages
  /\ Forall (fun s => 1 <= List.length (batch_of messages s) <= 100)
            (batch_starts (List.length messages)).
Proof.
  split; [apply AggregationFacts.batch_starts_cover|].
  apply Forall_forall. intros s Hs. apply batch_start_in_range in Hs.
  unfold batch_of. rewrite length_firstn, length_skipn.
  rewrite AggregationFacts.batch_size_is_100. lia.
Qed.

(** ** What the aggregation keeps true *)

Lemma get_subject_length (headers : list Header) :
  len (get_subject headers) <= 60.
Proof.
  induction headers as [|h hs IH]; cbn [get_subject]; [simpl; lia|].
  destruct (lower (name h) =? "subject"); [apply ScriptFacts.take_length|exact IH].
Qed.

Lemma update_keys (sd : senders) (k : string) (F : Bucket -> Bucket) :
  map fst (update sd k F)
  = if existsb (String.eqb k) (map fst sd) then map fst sd
    else map fst sd ++ [k].
Proof.
  induction sd as [|[k' b] sd IH]; [reflexivity|].
  cbn [update map fst existsb]. destruct (k =? k'); [reflexivity|].
  cbn [map fst orb]. rewrite IH.
  destruct (existsb (String.eqb k) (map fst sd)); reflexivity.
Qed.

Lemma update_keys_NoDup (sd : senders) (k : string) (F : Bucket -> Bucket) :
  NoDup (map fst sd) -> NoDup (map fst (update sd k F)).
Proof.
  intros Hnd. rewrite update_keys.
  destruct (existsb (String.eqb k) (map fst sd)) eqn:Hk; [exact Hnd|].
  apply NoDup_app; [exact Hnd|repeat constructor; auto|].
  intros x Hin [Heq|[]]. subst x.
  assert (existsb (String.eqb k) (map fst sd) = true)
    by (apply existsb_exists; exists k; split; [exact Hin|apply String.eqb_refl]).
  congruence.
Qed.

Lemma update_total_count (sd : senders) (k : string) (F : Bucket -> Bucket) :
  (forall b, count (F b) = S (count b)) ->
  total_count (update sd k F) = S (total_count sd).
Proof.
  intros HF. unfold total_count.
  induction sd as [|[k' b] sd IH]; simpl.
  - rewrite HF. reflexivity.
  - destruct (k =? k'); simpl.
    + rewrite HF. reflexivity.
    + simpl in IH. rewrite IH. lia.
Qed.

Lemma set_add_length (x : string) (s : list string) :
  List.length (set_add x s) <= S (List.length s).
Proof.
  unfold set_add. destruct (existsb _ s); [lia|].
  rewrite length_app. simpl. lia.
Qed.

(** The bucket a counted message leaves behind is in order. *)
Lemma counted_bucket_ok (b : Bucket) (l subject from_value : string) :
  b = default_bucket \/ bucket_ok b ->
  startswith l "http" = true ->
  len subject <= 60 ->
  bucket_ok (mkBucket (S (count b)) (set_add l (links b))
               (if (List.length (subjects b) <? 3)%nat
                then subjects b ++ [subject] else subjects b)
               from_value).
Proof.
  intros Hb Hl Hs. unfold bucket_ok. cbn [count links subjects].
  assert (Hold : List.length (subjects b) = Nat.min (count b) 3 /\
                 Forall (fun s => len s <= 60) (subjects b) /\
                 List.length (links b) <= count b /\
                 Forall (fun x => startswith x "http" = true) (links b)).
  { destruct Hb as [->|(_ & H1 & H2 & _ & H3 & H4)]; [|auto].
    cbn. repeat split; auto. }
  destruct Hold as (Hlen & Hsub & Hlinks & Hhttp).
  split; [lia|]. split; [|split; [|split; [|split]]].
  - destruct (List.length (subjects b) <? 3)%nat eqn:Hlt.
    + apply Nat.ltb_lt in Hlt. rewrite length_app. simpl. lia.
    + apply Nat.ltb_ge in Hlt. lia.
  - destruct (List.length (subjects b) <? 3)%nat; [|exact Hsub].
    apply Forall_app. split; [exact Hsub|]. constructor; [exact Hs|constructor].
  - apply AggregationFacts.set_add_not_nil.
  - pose proof (set_add_length l (links b)). lia.
  - apply AggregationFacts.set_add_Forall; assumption.
Qed.

Lemma update_buckets_ok (sd : senders) (k : string) (F : Bucket -> Bucket) :
  (forall b, b = default_bucket \/ bucket_ok b -> bucket_ok (F b)) ->
  Forall (fun kv => bucket_ok (snd kv)) sd ->
  Forall (fun kv => bucket_ok (snd kv)) (update sd k F).
Proof.
  intros HF. induction 1 as [|[k' b] sd Hb Hsd IH]; cbn [update].
  - constructor; [apply HF; left; reflexivity|constructor].
  - destruct (k =? k').
    + constructor; [apply HF; right; exact Hb|exact Hsd].
    + constructor; [exact Hb|exact IH].
Qed.

(** After any number of messages: the domains of the buckets are
    distinct, every bucket is in order, and the counts add up to the number
    of counted messages. *)
Lemma aggregate_invariant (U : Unicode) (fs : list Fetch) :
  forall st : nat * senders,
    NoDup (map fst (snd st)) ->
    Forall (fun kv => bucket_ok (snd kv)) (snd st) ->
    let st' := fold_left (process_message U) fs st in
    NoDup (map fst (snd st')) /\
    Forall (fun kv => bucket_ok (snd kv)) (snd st') /\
    total_count (snd st')
    = total_count (snd st) + List.length (filter counted fs).
Proof.
  induction fs as [|f fs IH]; intros st Hnd Hok; cbn zeta.
  - cbn. repeat split; auto.
  - cbn [fold_left filter].
    assert (Hstep : NoDup (map fst (snd (process_message U st f))) /\
                    Forall (fun kv => bucket_ok (snd kv))
                           (snd (process_message U st f)) /\
                    total_count (snd (process_message U st f))
                    = total_count (snd st) + (if counted f then 1 else 0)).
    { destruct (counted f) eqn:Hc.
      - destruct f as [e|hs]; [discriminate|]. cbn [counted] in Hc.
        destruct (AggregationFacts.process_message_counted U st hs Hc)
          as (l & _ & Hl & ->).
        split; [apply update_keys_NoDup; exact Hnd|]. split.
        + apply update_buckets_ok; [|exact Hok].
          intros b Hb. apply counted_bucket_ok; auto.
          apply get_subject_length.
        + rewrite update_total_count; [lia|reflexivity].
      - rewrite (AggregationFacts.process_message_uncounted U st f Hc).
        repeat split; auto. }
    destruct Hstep as (Hnd' & Hok' & Htot).
    destruct (IH (process_message U st f) Hnd' Hok') as (H1 & H2 & H3).
    repeat split; auto. rewrite H3, Htot.
    destruct (counted f); cbn [List.length]; lia.
Qed.

(** ** Sorting and the final loop *)

Lemma insert_sender_perm (x : string * Bucket) (l : senders) :
  Permutation (insert_sender x l) (x :: l).
Proof.
  induction l as [|y l IH]; cbn [insert_sender]; [apply Permutation_refl|].
  destruct (count (snd x) <? count (snd y))%nat; [|apply Permutation_refl].
  eapply Permutation_trans; [apply perm_skip, IH|apply perm_swap].
Qed.

Lemma sorted_senders_perm (d : senders) : Permutation (sorted_senders d) d.
Proof.
  unfold sorted_senders. induction d as [|x d IH]; cbn [fold_right];
    [apply Permutation_refl|].
  eapply Permutation_trans; [apply insert_sender_perm|now apply perm_skip].
Qed.

Lemma insert_sender_sorted (x : string * Bucket) (l : senders) :
  StronglySorted bucket_by_count l ->
  StronglySorted bucket_by_count (insert_sender x l).
Proof.
  induction 1 as [|y l Hl IH Hy]; cbn [insert_sender].
  - repeat constructor.
  - destruct (count (snd x) <? count (snd y))%nat eqn:Hlt.
    + apply Nat.ltb_lt in Hlt. constructor; [exact IH|].
      apply Forall_forall. intros z Hz.
      apply (Permutation_in z (insert_sender_perm x l)) in Hz.
      destruct Hz as [<-|Hz]; [unfold bucket_by_count; lia|].
      rewrite Forall_forall in Hy. auto.
    + apply Nat.ltb_ge in Hlt. constructor; [constructor; assumption|].
      constructor; [exact Hlt|].
      apply Forall_forall. intros z Hz. rewrite Forall_forall in Hy.
      specialize (Hy z Hz). unfold bucket_by_count in *. lia.
Qed.

Lemma sorted_senders_sorted (d : senders) :
  StronglySorted bucket_by_count (sorted_senders d).
Proof.
  unfold sorted_senders. induction d as [|x d IH]; cbn [fold_right];
    [constructor|apply insert_sender_sorted, IH].
Qed.

(** Every opportunity comes from a bucket of the list, with the bucket's
    count, sender and subjects and one of its HTTP(S) links. *)
Lemma collect_from_bucket (set_iter : list string -> list string)
    (sorted : senders) (o : Opportunity) :
  In o (collect set_iter sorted) ->
  exists b, In (o_domain o, b) sorted /\ o_count o = count b /\
            o_from o = from b /\ o_subjects o = subjects b /\
            startswith (o_link o) "http" = true.
Proof.
  induction sorted as [|[d b] l IH]; [intros []|].
  cbn [collect].
  destruct (filter _ (set_iter (links b))) as [|l0 r] eqn:E.
  - intros Hin. destruct (IH Hin) as (b' & Hb' & Hrest).
    exists b'. split; [right; exact Hb'|exact Hrest].
  - intros [<-|Hin].
    + exists b. cbn. repeat split; auto.
      assert (H0 : In l0 (filter (fun l => startswith l "http")
                            (set_iter (links b))))
        by (rewrite E; left; reflexivity).
      apply filter_In in H0. apply H0.
    + destruct (IH Hin) as (b' & Hb' & Hrest).
      exists b'. split; [right; exact Hb'|exact Hrest].
Qed.

Lemma collect_sorted (set_iter : list string -> list string) (sorted : senders) :
  StronglySorted bucket_by_count sorted ->
  StronglySorted by_count (collect set_iter sorted).
Proof.
  induction 1 as [|[d b] l Hl IH Hb]; cbn [collect]; [constructor|].
  destruct (filter _ (set_iter (links b))) as [|l0 r]; [exact IH|].
  constructor; [exact IH|].
  apply Forall_forall. intros o Ho.
  destruct (collect_from_bucket _ _ _ Ho) as (b' & Hb' & Hc & _).
  rewrite Forall_forall in Hb. specialize (Hb _ Hb').
  unfold by_count, bucket_by_count in *. cbn in *. lia.
Qed.

Lemma collect_domains_NoDup (set_iter : list string -> list string)
    (sorted : senders) :
  NoDup (map fst sorted) -> NoDup (map o_domain (collect set_iter sorted)).
Proof.
  induction sorted as [|[d b] l IH]; cbn [collect map fst]; [constructor|].
  intros Hnd. inversion Hnd as [|? ? Hnotin Hnd']; subst.
  destruct (filter _ (set_iter (links b))) as [|l0 r]; [auto|].
  cbn [map o_domain]. constructor; [|auto].
  intros Hin. apply in_map_iff in Hin. destruct Hin as (o & Hd & Ho).
  destruct (collect_from_bucket _ _ _ Ho) as (b' & Hb' & _).
  apply Hnotin. rewrite <- Hd.
  apply in_map_iff. exists (o_domain o, b'). auto.
Qed.

(** With a valid iteration order every bucket in order yields its
    opportunity. *)
Lemma collect_counts (set_iter : list string -> list string) (sorted : senders) :
  iteration_order set_iter ->
  Forall (fun kv => bucket_ok (snd kv)) sorted ->
  map o_count (collect set_iter sorted) = map (fun kv => count (snd kv)) sorted
  /\ map o_domain (collect set_iter sorted) = map fst sorted.
Proof.
  intros Hiter. induction 1 as [|[d b] l Hb _ IH]; cbn [collect map];
    [auto|].
  destruct Hb as (_ & _ & _ & Hne & _ & Hhttp). cbn [snd] in *.
  destruct (AggregationFacts.collect_single set_iter d b Hiter Hne Hhttp)
    as (l0 & _ & Hc).
  cbn [sorted_senders fold_right insert_sender collect] in Hc.
  destruct (filter _ (set_iter (links b))) as [|l1 r]; [discriminate|].
  destruct IH as [IH1 IH2]. cbn [map o_count o_domain fst snd].
  now rewrite IH1, IH2.
Qed.

(** The result of a run: nothing, or the final loop over the sorted
    buckets of all the listed messages. *)
Lemma scan_results_cases (U : Unicode)
    (set_iter : list string -> list string) (G : Gmail) (limit : Z) :
  result (scan_emails_api U set_iter G limit) = Return []
  \/ result (scan_emails_api U set_iter G limit)
     = Return (collect set_iter
                 (sorted_senders
                    (snd (fold_left (process_message U)
                            (map (messages_get G) (listed G limit))
                            (0, []))))).
Proof.
  rewrite AggregationFacts.scan_emails_api_cases. unfold listed.
  destruct (get_gmail_service G) as [[err|]|e]; auto.
  destruct (messages_list G limit) as [[|m ms]|e]; auto.
  cbv zeta.
  destruct (run_batches U G (m :: ms) _ _ _) as [t [st|e]] eqn:Hr; auto.
  apply AggregationFacts.run_batches_returned in Hr. subst st. auto.
Qed.

Lemma aggregate_from_empty (U : Unicode) (fs : list Fetch) :
  NoDup (map fst (snd (fold_left (process_message U) fs (0, [])))) /\
  Forall (fun kv => bucket_ok (snd kv))
         (snd (fold_left (process_message U) fs (0, []))) /\
  total_count (snd (fold_left (process_message U) fs (0, [])))
  = List.length (filter counted fs).
Proof.
  destruct (aggregate_invariant U fs (0, [])) as (H1 & H2 & H3);
    [constructor|constructor|].
  repeat split; auto.
Qed.

(** ** What every run guarantees *)

Lemma published_last (t : list event) (st d : ScanState) :
  last (published (t ++ [EvScanStatus st])) d = st.
Proof.
  rewrite AggregationFacts.published_app. cbn [published flat_map app].
  apply last_last.
Qed.

(** X24.  A run never raises, and its last published state has [done]
    set.  When that state carries an error the result list is empty: no
    partial results are left behind.  A non-empty result list comes with a
    final state without error and with progress 100. *)
Theorem failed_run_leaves_no_results (U : Unicode)
    (set_iter : list string -> list string) (G : Gmail) (limit : Z) :
  exists t os,
    scan_emails_api U set_iter G limit = (t, Return os) /\
    done (last (published t) connecting_state) = true /\
    (error (last (published t) connecting_state) <> None -> os = []) /\
    (os <> [] ->
     error (last (published t) connecting_state) = None /\
     progress (last (published t) connecting_state) = 100%Z).
Proof.
  rewrite AggregationFacts.scan_emails_api_cases.
  destruct (get_gmail_service G) as [[err|]|e];
    try (eexists; eexists; split; [reflexivity|]; cbn;
         repeat split; auto; congruence).
  destruct (messages_list G limit) as [[|m ms]|e];
    try (eexists; eexists; split; [reflexivity|]; cbn;
         repeat split; auto; congruence).
  cbv zeta.
  destruct (run_batches U G (m :: ms) _ _ _) as [t [st|e]];
    eexists; eexists; (split; [reflexivity|]);
    match goal with
    | |- context [?a :: ?b :: ?c :: t ++ [EvScanStatus ?x]] =>
        change (a :: b :: c :: t ++ [EvScanStatus x])
          with ((a :: b :: c :: t) ++ [EvScanStatus x])
    end;
    rewrite published_last; cbn; repeat split; auto; congruence.
Qed.

(** X25.  The result list is ordered by count, larger counts first. *)
Theorem results_are_ordered_by_count (U : Unicode)
    (set_iter : list string -> list string) (G : Gmail) (limit : Z) :
  exists os,
    result (scan_emails_api U set_iter G limit) = Return os /\
    StronglySorted by_count os.
Proof.
  destruct (scan_results_cases U set_iter G limit) as [-> | ->];
    eexists; (split; [reflexivity|]); [constructor|].
  apply collect_sorted, sorted_senders_sorted.
Qed.

(** X26.  No two opportunities of a result list have the same domain. *)
Theorem result_domains_are_distinct (U : Unicode)
    (set_iter : list string -> list string) (G : Gmail) (limit : Z) :
  exists os,
    result (scan_emails_api U set_iter G limit) = Return os /\
    NoDup (map o_domain os).
Proof.
  destruct (scan_results_cases U set_iter G limit) as [-> | ->];
    eexists; (split; [reflexivity|]); [constructor|].
  apply collect_domains_NoDup.
  destruct (aggregate_from_empty U (map (messages_get G) (listed G limit)))
    as (Hnd & _ & _).
  eapply Permutation_NoDup; [|exact Hnd].
  apply Permutation_map, Permutation_sym, sorted_senders_perm.
Qed.

(** X27.  Every opportunity of a result list has a count of at least 1,
    a link that starts with [http], and [min(count, 3)] subjects, each of
    at most 60 characters. *)
Theorem opportunities_are_well_formed (U : Unicode)
    (set_iter : list string -> list string) (G : Gmail) (limit : Z) :
  exists os,
    result (scan_emails_api U set_iter G limit) = Return os /\
    Forall (fun o =>
              1 <= o_count o /\
              startswith (o_link o) "http" = true /\
              List.length (o_subjects o) = Nat.min (o_count o) 3 /\
              Forall (fun s => len s <= 60) (o_subjects o)) os.
Proof.
  destruct (scan_results_cases U set_iter G limit) as [-> | ->];
    eexists; (split; [reflexivity|]); [constructor|].
  apply Forall_forall. intros o Ho.
  destruct (collect_from_bucket _ _ _ Ho) as (b & Hb & Hc & _ & Hs & Hl).
  apply (Permutation_in _ (sorted_senders_perm _)) in Hb.
  destruct (aggregate_from_empty U (map (messages_get G) (listed G limit)))
    as (_ & Hok & _).
  rewrite Forall_forall in Hok. specialize (Hok _ Hb). cbn [snd] in Hok.
  destruct Hok as (H1 & H2 & H3 & _).
  rewrite Hc, Hs. auto.
Qed.

(** X28.  In a run that gets a service and in which no batch fails, the
    counts of the opportunities add up to the number of counted messages:
    every message with an HTTP(S) link is counted in exactly one
    opportunity. *)
Theorem counts_add_up_to_counted_messages (U : Unicode)
    (set_iter : list string -> list string) (G : Gmail) (limit : Z) :
  iteration_order set_iter ->
  get_gmail_service G = Return None ->
  (forall s batch, batch_execute G s batch = None) ->
  exists os,
    result (scan_emails_api U set_iter G limit) = Return os /\
    list_sum (map o_count os)
    = List.length (filter (fun id => counted (messages_get G id))
                          (listed G limit)).
Proof.
  intros Hiter Hsvc Hok.
  rewrite AggregationFacts.scan_emails_api_cases, Hsvc. unfold listed.
  destruct (messages_list G limit) as [[|m ms]|e];
    try (exists []; split; reflexivity).
  cbv zeta. rewrite (AggregationFacts.run_batches_all U G (m :: ms) (0, []) Hok).
  eexists. split; [reflexivity|].
  destruct (aggregate_from_empty U (map (messages_get G) (m :: ms)))
    as (_ & Hbok & Htot).
  assert (Hsorted : Forall (fun kv => bucket_ok (snd kv))
                      (sorted_senders
                         (snd (fold_left (process_message U)
                                 (map (messages_get G) (m :: ms)) (0, []))))).
  { apply Forall_forall. intros kv Hkv.
    apply (Permutation_in _ (sorted_senders_perm _)) in Hkv.
    rewrite Forall_forall in Hbok. auto. }
  destruct (collect_counts set_iter _ Hiter Hsorted) as [Hcounts _].
  rewrite Hcounts.
  unfold total_count in Htot.
  rewrite (Permutation_list_sum
             (Permutation_map (fun kv => count (snd kv))
                (sorted_senders_perm _))).
  rewrite Htot, filter_map_swap, length_map. reflexivity.
Qed.

Lemma counts_add_up_to_counted_messages_witness :
  exists os,
    result (scan_emails_api Lab.unicode Lab.insertion_order
              (Lab.gmail ["m1"; "m2"; "m3"] None) 500) = Return os /\
    list_sum (map o_count os)
    = List.length
        (filter (fun id => counted
                   (messages_get (Lab.gmail ["m1"; "m2"; "m3"] None) id))
           (listed (Lab.gmail ["m1"; "m2"; "m3"] None) 500)).
Proof.
  apply (counts_add_up_to_counted_messages Lab.unicode Lab.insertion_order
           (Lab.gmail ["m1"; "m2"; "m3"] None) 500);
    [exact AggregationFacts.insertion_order_valid | reflexivity | reflexivity].
Defined.

(** ** Counts per domain *)

Lemma update_entry (sd : senders) (k : string) (F : Bucket -> Bucket)
    (d : string) (b' : Bucket) :
  NoDup (map fst sd) ->
  In (d, b') (update sd k F) ->
  d <> k /\ In (d, b') sd
  \/ d = k /\ exists b, (In (k, b) sd \/
                         b = default_bucket /\ ~ In k (map fst sd)) /\
                        b' = F b.
Proof.
  induction sd as [|[k' b] sd IH]; cbn [update map fst]; intros Hnd.
  - intros [H|[]]. inversion H; subst. right. split; [reflexivity|].
    exists default_bucket. split; [right; split; [reflexivity|intros []]|].
    reflexivity.
  - inversion Hnd as [|? ? Hnotin Hnd']; subst.
    destruct (k =? k') eqn:Hk.
    + apply String.eqb_eq in Hk. subst k'. intros [H|H].
      * inversion H; subst. right. split; [reflexivity|].
        exists b. split; [left; left; reflexivity|reflexivity].
      * left. split; [|right; exact H].
        intros ->. apply Hnotin. apply in_map_iff. exists (k, b'). auto.
    + apply String.eqb_neq in Hk. intros [H|H].
      * inversion H; subst. left. split; [congruence|left; reflexivity].
      * destruct (IH Hnd' H) as [(Hd & Hin)|(-> & b0 & Hb0 & ->)].
        { left. split; [exact Hd|right; exact Hin]. }
        right. split; [reflexivity|]. exists b0. split; [|reflexivity].
        destruct Hb0 as [Hin|(-> & Hno)]; [left; right; exact Hin|].
        right. split; [reflexivity|]. intros [Heq|Hin]; [congruence|auto].
Qed.

Lemma hit_counted (U : Unicode) (f : Fetch) :
  match hit U f with
  | Some (d, l) =>
      exists hs, f = FetchOk hs /\ has_http_link hs = true /\
                 d = snd (get_sender_info U hs)
  | None => counted f = false
  end.
Proof.
  unfold hit, counted, has_http_link. destruct f as [e|hs]; [reflexivity|].
  destruct (get_unsubscribe_from_headers hs) as [l|] eqn:Hg; [|reflexivity].
  destruct (startswith l "http") eqn:Hl; [|reflexivity].
  exists hs. rewrite Hg, Hl. auto.
Qed.

(** Each bucket has counted the messages of its domain, and every domain
    of a counted message has a bucket. *)
Lemma aggregate_counts (U : Unicode) (fs : list Fetch) :
  forall (st : nat * senders) (seen : list string),
    NoDup (map fst (snd st)) ->
    (forall d b, In (d, b) (snd st) -> count b = count_occ string_dec seen d) ->
    (forall d, In d seen -> In d (map fst (snd st))) ->
    (forall d b, In (d, b) (snd (fold_left (process_message U) fs st)) ->
       count b = count_occ string_dec (seen ++ map fst (hits U fs)) d) /\
    (forall d, In d (seen ++ map fst (hits U fs)) ->
       In d (map fst (snd (fold_left (process_message U) fs st)))).
Proof.
  induction fs as [|f fs IH]; intros st seen Hnd Hcount Hkeys.
  - cbn. rewrite app_nil_r. auto.
  - cbn [fold_left]. change (f :: fs) with ([f] ++ fs).
    rewrite AggregationFacts.hits_app, map_app, app_assoc.
    pose proof (hit_counted U f) as Hf.
    assert (Hh : hits U [f] = match hit U f with Some p => [p] | None => [] end)
      by (unfold hits; cbn [flat_map]; now rewrite app_nil_r).
    rewrite Hh. destruct (hit U f) as [[k l]|].
    + destruct Hf as (hs & -> & Hlink & ->).
      destruct (AggregationFacts.process_message_counted U st hs Hlink)
        as (l' & _ & _ & Hupd).
      cbn [map fst].
      apply IH.
      * rewrite Hupd. apply update_keys_NoDup. exact Hnd.
      * intros d b Hin. rewrite Hupd in Hin.
        apply (update_entry _ _ _ _ _ Hnd) in Hin.
        rewrite count_occ_app. cbn [count_occ].
        destruct Hin as [(Hd & Hin)|(-> & b0 & Hb0 & ->)].
        { rewrite (Hcount _ _ Hin).
          destruct (string_dec (snd (get_sender_info U hs)) d); [congruence|lia]. }
        cbn [count].
        destruct (string_dec (snd (get_sender_info U hs))
                    (snd (get_sender_info U hs))); [|congruence].
        destruct Hb0 as [Hin|(-> & Hno)].
        { rewrite (Hcount _ _ Hin). lia. }
        cbn [count default_bucket].
        rewrite (proj1 (count_occ_not_In string_dec seen _)); [lia|].
        intros Hin. apply Hno. auto.
      * intros d Hin. rewrite Hupd, update_keys.
        apply in_app_or in Hin.
        destruct (existsb (String.eqb (snd (get_sender_info U hs)))
                    (map fst (snd st))) eqn:Hex.
        { destruct Hin as [Hin|[<-|[]]]; [auto|].
          apply existsb_exists in Hex. destruct Hex as (x & Hx & Heq).
          apply String.eqb_eq in Heq. now subst. }
        apply in_or_app. destruct Hin as [Hin|Hin]; [left; auto|right; exact Hin].
    + cbn [map]. rewrite app_nil_r.
      apply IH;
        rewrite (AggregationFacts.process_message_uncounted U st f Hf);
        assumption.
Qed.

(** X29.  In a run that gets a service and in which no batch fails, there
    is one opportunity for each sender domain that has a counted message,
    and its count is the number of counted messages of that domain. *)
Theorem each_domain_has_its_count (U : Unicode)
    (set_iter : list string -> list string) (G : Gmail) (limit : Z) :
  iteration_order set_iter ->
  get_gmail_service G = Return None ->
  (forall s batch, batch_execute G s batch = None) ->
  exists os,
    result (scan_emails_api U set_iter G limit) = Return os /\
    (forall o, In o os ->
       o_count o
       = domain_hits U (o_domain o) (map (messages_get G) (listed G limit))) /\
    (forall d,
       1 <= domain_hits U d (map (messages_get G) (listed G limit)) ->
       exists o, In o os /\ o_domain o = d).
Proof.
  intros Hiter Hsvc Hok.
  rewrite AggregationFacts.scan_emails_api_cases, Hsvc. unfold listed.
  destruct (messages_list G limit) as [[|m ms]|e];
    try (exists []; split; [reflexivity|];
         split; [intros o []|cbn; intros d Hd; lia]).
  cbv zeta. rewrite (AggregationFacts.run_batches_all U G (m :: ms) (0, []) Hok).
  eexists. split; [reflexivity|].
  set (fs := map (messages_get G) (m :: ms)).
  destruct (aggregate_from_empty U fs) as (Hnd & Hbok & _).
  destruct (aggregate_counts U fs (0, []) [] ltac:(constructor)
              ltac:(intros d b []) ltac:(intros d []))
    as [Hcount Hkeys].
  cbn [app] in Hcount, Hkeys.
  assert (Hsorted : Forall (fun kv => bucket_ok (snd kv))
                      (sorted_senders (snd (fold_left (process_message U) fs (0, []))))).
  { apply Forall_forall. intros kv Hkv.
    apply (Permutation_in _ (sorted_senders_perm _)) in Hkv.
    rewrite Forall_forall in Hbok. auto. }
  destruct (collect_counts set_iter _ Hiter Hsorted) as [_ Hdomains].
  split.
  - intros o Ho.
    destruct (collect_from_bucket _ _ _ Ho) as (b & Hb & Hc & _).
    apply (Permutation_in _ (sorted_senders_perm _)) in Hb.
    rewrite Hc. unfold domain_hits. apply Hcount. exact Hb.
  - intros d Hd. unfold domain_hits in Hd.
    assert (Hin : In d (map fst (hits U fs)))
      by (apply (count_occ_In string_dec); lia).
    apply Hkeys in Hin.
    apply (Permutation_in _ (Permutation_map fst
             (Permutation_sym (sorted_senders_perm _)))) in Hin.
    rewrite <- Hdomains in Hin. apply in_map_iff in Hin.
    destruct Hin as (o & Hd' & Ho). exists o. auto.
Qed.

Lemma each_domain_has_its_count_witness :
  exists os,
    result (scan_emails_api Lab.unicode Lab.reverse_order
              (Lab.gmail ["m1"; "m2"; "m3"] None) 500) = Return os /\
    (forall o, In o os ->
       o_count o
       = domain_hits Lab.unicode (o_domain o)
           (map (messages_get (Lab.gmail ["m1"; "m2"; "m3"] None))
              (listed (Lab.gmail ["m1"; "m2"; "m3"] None) 500))) /\
    (forall d,
       1 <= domain_hits Lab.unicode d
              (map (messages_get (Lab.gmail ["m1"; "m2"; "m3"] None))
                 (listed (Lab.gmail ["m1"; "m2"; "m3"] None) 500)) ->
       exists o, In o os /\ o_domain o = d).
Proof.
  apply (each_domain_has_its_count Lab.unicode Lab.reverse_order
           (Lab.gmail ["m1"; "m2"; "m3"] None) 500);
    [exact AggregationFacts.reverse_order_valid | reflexivity | reflexivity].
Defined.

End RunFacts.

(* ===================================================================== *)
(** * Further results: the two link extractors                            *)
(* ===================================================================== *)

Module ExtractorFacts.
Import Helpers Props.

(** The script's extractor in terms of the first qualifying header. *)
Lemma script_extractor_spec (headers : list Header) :
  GmailApi.get_unsubscribe_from_headers headers
  = match find qualifies headers with
    | None => None
    | Some h =>
        match find_http_url (value h) with
        | Some url => Some url
        | None => find_mailto (value h)
        end
    end.
Proof.
  induction headers as [|h hs IH]; cbn [GmailApi.get_unsubscribe_from_headers find];
    [reflexivity|].
  unfold qualifies at 1, is_list_unsubscribe.
  destruct (lower (name h) =? "list-unsubscribe"); cbn [andb]; [|exact IH].
  destruct (find_http_url (value h)) as [u|] eqn:Hu; [now rewrite Hu|].
  destruct (find_mailto (value h)) as [m|] eqn:Hm; [now rewrite Hu, Hm|].
  exact IH.
Qed.

(** X30.  The extractor of the script and the extractor of [helpers.py]
    return the same link for every header sequence; the latter adds the
    mode. *)
Theorem extractors_agree_on_the_link (headers : list Header) :
  GmailApi.get_unsubscribe_from_headers headers
  = fst (get_unsubscribe_from_headers headers).
Proof.
  rewrite script_extractor_spec. unfold get_unsubscribe_from_headers.
  rewrite HeaderFacts.unsubscribe_scan_spec.
  destruct (find qualifies headers) as [h|]; [|reflexivity].
  destruct (find_http_url (value h)); reflexivity.
Qed.

End ExtractorFacts.
